(** * Backtest: a shallow embedding of the simulation core

    The Python sources embedded here are
      - [backtest/portfolio.py]   ([Portfolio.__init__], [Portfolio.should_rebalance]),
      - [backtest/engine.py]      ([run_backtest]),
      - [backtest/forecasting.py] ([run_monte_carlo_simulation]),
      - [backtest/risk.py]        ([generate_risk_report]).

    Conventions of the embedding.
      - The engine is embedded twice.  In [Engine] a Python [float] is
        an exact rational ([Qc], the canonical rationals, so that [=] is
        Leibniz equality); it serves for what does not depend on the
        rounding of the results: which lines the series has, which
        exception is raised, which holdings are touched, which values
        are zero or not negative.  In [FloatEngine] the arithmetic is a
        parameter: it is instantiated with the binary64 numbers of the
        machine ([Binary64]) to run the code on concrete inputs, and
        with rationals that are rounded after every operation
        ([rounded]) to bound the rounding error of a run.
      - A Python [dict] keyed by ticker is a [gmap string _].
      - A raised exception is the left injection of a sum type [exn + A].
      - The mutable attribute [_last_rebalance_date] of a [Portfolio] is
        passed in and out explicitly. *)

From Stdlib Require Import ZArith QArith Qcanon Qround Qpower List Lia Lqa.
From Stdlib Require PrimFloat.
From stdpp Require Import gmap strings list fin_maps.

Local Open Scope Z_scope.

(** ** Exceptions *)

(** The exceptions that the embedded code can raise.
    [InsufficientDataError] is the name the specification uses; no
    statement of the sources raises it (see [Forecasting]). *)
Inductive exn : Type :=
  | TypeError
  | ValueError
  | KeyError
  | IndexError
  | InsufficientDataError.

Definition result (A : Type) : Type := (exn + A)%type.

Definition ok {A} (a : A) : result A := inr a.
Definition raise {A} (e : exn) : result A := inl e.

Definition bind {A B} (m : result A) (k : A -> result B) : result B :=
  match m with
  | inl e => inl e
  | inr a => k a
  end.

Declare Scope result_scope.
Delimit Scope result_scope with result.
Notation "'let*' x ':=' m 'in' k" := (bind m (fun x => k))
  (at level 10, x pattern, m at level 100, k at level 200) : result_scope.

(** ** Dates *)

(** The three attributes of a [pd.Timestamp] that the sources read, and
    [quarter], which pandas derives from the month. *)
Record Timestamp : Type := mkTimestamp { year : Z; month : Z; day : Z }.

Definition quarter (d : Timestamp) : Z := (month d - 1) / 3 + 1.

(** ** Exact arithmetic helpers *)

(** [sum(d.values())] for a dictionary of numbers. *)
Definition sum_values (m : gmap string Qc) : Qc :=
  map_fold (fun _ v acc => (acc + v)%Qc) 0%Qc m.

(** Nearest integer, ties to the even neighbour, as Python's [round]. *)
Definition round_half_even (q : Qc) : Z :=
  let n := Qnum q in
  let d := Zpos (Qden q) in
  let fl := n / d in
  let r2 := 2 * (n mod d) in
  if r2 <? d then fl
  else if d <? r2 then fl + 1
  else if Z.even fl then fl else fl + 1.

(** [round(x, ndigits)] for a non-negative [ndigits]. *)
Definition py_round (x : Qc) (ndigits : nat) : Qc :=
  let scale := 10 ^ Z.of_nat ndigits in
  Q2Qc (inject_Z (round_half_even (x * Q2Qc (inject_Z scale))%Qc) / inject_Z scale)%Q.

(** ** portfolio.py *)

Module Portfolio.

(** The instance attributes of [Portfolio]. *)
Record t : Type := mk {
  target_weights : gmap string Qc;
  rebalance_frequency : option string;
  _last_rebalance_date : option Timestamp
}.

(** [Portfolio.__init__].  The [TypeError] branch tests that the
    argument is a dictionary with string keys; the type of
    [target_weights] already says so, hence that branch cannot be
    taken here.  The frequency is passed explicitly; Python's default
    for it is ["monthly"]. *)
Definition __init__ (target_weights : gmap string Qc)
    (rebalance_frequency : option string) : result t :=
  if decide (py_round (sum_values target_weights) 5 = 1%Qc)
  then ok (mk target_weights rebalance_frequency None)
  else raise ValueError.

Definition set_last (self : t) (d : Timestamp) : t :=
  mk (target_weights self) (rebalance_frequency self) (Some d).

(** [Portfolio.should_rebalance]: the returned boolean and the
    portfolio after the call. *)
Definition should_rebalance (self : t) (current_date : Timestamp) : bool * t :=
  match rebalance_frequency self with
  | None => (false, self)
  | Some freq =>
      match _last_rebalance_date self with
      | None => (false, set_last self current_date)
      | Some last =>
          if String.eqb freq "monthly" then
            if negb (month current_date =? month last)
            then (true, set_last self current_date) else (false, self)
          else if String.eqb freq "quarterly" then
            if negb (quarter current_date =? quarter last)
            then (true, set_last self current_date) else (false, self)
          else if String.eqb freq "annually" then
            if negb (year current_date =? year last)
            then (true, set_last self current_date) else (false, self)
          else (false, self)
      end
  end.

(** The calendar attribute that a frequency compares. *)
Definition period (freq : string) (d : Timestamp) : Z :=
  if String.eqb freq "monthly" then month d
  else if String.eqb freq "quarterly" then quarter d
  else year d.

Definition known_frequency (freq : string) : Prop :=
  freq = "monthly"%string \/ freq = "quarterly"%string \/ freq = "annually"%string.

(** One record per call of a sequence of calls: the portfolio before
    the call, the date passed, the answer and the portfolio after. *)
Record call : Type := mkCall {
  before : t;
  date : Timestamp;
  answer : bool;
  after : t
}.

Fixpoint calls (self : t) (dates : list Timestamp) : list call :=
  match dates with
  | [] => []
  | d :: rest =>
      let '(b, self') := should_rebalance self d in
      mkCall self d b self' :: calls self' rest
  end.

End Portfolio.

(** ** Calendar periods *)

(** The calendar month, quarter and year of a date, numbered through the
    years, so that the same month of two different years gets two
    different numbers. *)
Definition month_index (d : Timestamp) : Z := 12 * year d + month d.
Definition quarter_index (d : Timestamp) : Z := 4 * year d + quarter d.

Definition calendar_period (freq : string) (d : Timestamp) : Z :=
  if String.eqb freq "monthly" then month_index d
  else if String.eqb freq "quarterly" then quarter_index d
  else year d.

Definition valid_month (d : Timestamp) : Prop := 1 <= month d <= 12.

(** Consecutive dates are in the same period or in the next one: the
    sequence moves forward and skips no period.  Daily data is of this
    kind for months, quarters and years. *)
Fixpoint gap_free (index : Timestamp -> Z) (dates : list Timestamp) : Prop :=
  match dates with
  | a :: ((b :: _) as rest) =>
      index a <= index b <= index a + 1 /\ gap_free index rest
  | _ => True
  end.

(** ** engine.py *)

Module Engine.

(** The part of a [pd.DataFrame] of prices that [run_backtest] reads:
    the column labels, and what [iterrows] yields, one pair of index
    label and price row for each line of the table.  Looking up a
    ticker that a row does not hold raises [KeyError]. *)
Record DataFrame : Type := mkDataFrame {
  columns : list string;
  iterrows : list (Timestamp * gmap string Qc)
}.

(** The local variables of [run_backtest] together with the portfolio
    object, which [should_rebalance] mutates. *)
Record state : Type := mkState {
  holdings : gmap string Qc;
  cash : Qc;
  current_monthly_topup : Qc;
  portfolio_history : list (Timestamp * Qc);
  last_month : option Z;
  last_year : option Z;
  portfolio : Portfolio.t
}.

Local Open Scope result_scope.

(** [sum(holdings[ticker] * prices[ticker] for ticker in holdings)].
    Rational addition is commutative, so the order in which the keys
    are visited does not change the sum. *)
Definition market_value (holdings prices : gmap string Qc) : result Qc :=
  map_fold (fun ticker h acc =>
              let* a := acc in
              match prices !! ticker with
              | None => raise KeyError
              | Some p => ok (a + h * p)%Qc
              end) (ok 0%Qc) holdings.

(** The body of the loop over [portfolio.target_weights.items()]. *)
Definition invest (prices : gmap string Qc) (total_value : Qc)
    (ticker : string) (target_weight : Qc)
    (acc : result (gmap string Qc)) : result (gmap string Qc) :=
  let* holdings := acc in
  match prices !! ticker with
  | None => raise KeyError
  | Some p =>
      if decide (0 < p)%Qc
      then
        let amount_to_invest := (total_value * target_weight)%Qc in
        ok (<[ticker := (amount_to_invest / p)%Qc]> holdings)
      else ok holdings
  end.

(** The block under [if is_first_day or is_rebalance_day]: the new
    holdings and the new cash. *)
Definition deploy_cash (target_weights holdings : gmap string Qc) (cash : Qc)
    (prices : gmap string Qc) : result (gmap string Qc * Qc) :=
  let* market := market_value holdings prices in
  let total_value := (market + cash)%Qc in
  let* holdings' := map_fold (invest prices total_value) (ok holdings) target_weights in
  ok (holdings', 0%Qc).

(** [current_market_value + cash]. *)
Definition total_portfolio_value (holdings : gmap string Qc) (cash : Qc)
    (prices : gmap string Qc) : result Qc :=
  let* market := market_value holdings prices in
  ok (market + cash)%Qc.

(** The top-up amount after the yearly increase of the loop body. *)
Definition topup_on (annual_increase : Qc) (s : state) (current_date : Timestamp) : Qc :=
  match last_year s with
  | Some ly =>
      if ly <? year current_date
      then (current_monthly_topup s * (1 + annual_increase / Q2Qc 100))%Qc
      else current_monthly_topup s
  | None => current_monthly_topup s
  end.

(** The cash after the monthly injection of the loop body. *)
Definition cash_on (annual_increase : Qc) (s : state) (current_date : Timestamp) : Qc :=
  match last_month s with
  | Some lm =>
      if negb (month current_date =? lm)
      then (cash s + topup_on annual_increase s current_date)%Qc
      else cash s
  | None => cash s
  end.

(** One iteration of the main simulation loop. *)
Definition step (annual_increase : Qc) (s : state)
    (row : Timestamp * gmap string Qc) : result state :=
  let '(current_date, prices) := row in
  let topup := topup_on annual_increase s current_date in
  let cash1 := cash_on annual_increase s current_date in
  let is_first_day := match portfolio_history s with [] => true | _ => false end in
  let '(is_rebalance_day, portfolio') :=
    Portfolio.should_rebalance (portfolio s) current_date in
  let* hc :=
    (if is_first_day || is_rebalance_day
     then deploy_cash (Portfolio.target_weights portfolio') (holdings s) cash1 prices
     else ok (holdings s, cash1)) in
  let* total := total_portfolio_value (fst hc) (snd hc) prices in
  ok {| holdings := fst hc;
        cash := snd hc;
        current_monthly_topup := topup;
        portfolio_history := portfolio_history s ++ [(current_date, total)];
        last_month := Some (month current_date);
        last_year := Some (year current_date);
        portfolio := portfolio' |}.

(** The [for] loop: the iterations in order, stopping at the first
    exception. *)
Fixpoint loop (annual_increase : Qc) (s : state)
    (rows : list (Timestamp * gmap string Qc)) : result state :=
  match rows with
  | [] => ok s
  | row :: rest =>
      let* s' := step annual_increase s row in
      loop annual_increase s' rest
  end.

(** The state before the first iteration. *)
Definition initial_state (data : DataFrame) (portfolio : Portfolio.t)
    (initial_investment monthly_topup : Qc) : state :=
  {| holdings := list_to_map ((fun ticker => (ticker, 0%Qc)) <$> columns data);
     cash := initial_investment;
     current_monthly_topup := monthly_topup;
     portfolio_history := [];
     last_month := None;
     last_year := None;
     portfolio := portfolio |}.

(** What a successful call leaves behind: the returned triple and the
    portfolio object as the loop left it. *)
Record outcome : Type := mkOutcome {
  result_df : list (Timestamp * Qc);
  final_holdings : gmap string Qc;
  final_cash : Qc;
  portfolio_after : Portfolio.t
}.

(** [run_backtest].  [pd.DataFrame([]).set_index('Date')] raises
    [KeyError], since a frame built from no records has no columns. *)
Definition run_backtest (data : DataFrame) (portfolio : Portfolio.t)
    (initial_investment monthly_topup annual_increase : Qc) : result outcome :=
  let* s := loop annual_increase
              (initial_state data portfolio initial_investment monthly_topup)
              (iterrows data) in
  match portfolio_history s with
  | [] => raise KeyError
  | _ => ok (mkOutcome (portfolio_history s) (holdings s) (cash s) (Engine.portfolio s))
  end.

(** The number of places where two consecutive dates differ in their
    month number: the rollovers that the loop detects. *)
Fixpoint month_changes (dates : list Timestamp) : nat :=
  match dates with
  | d1 :: ((d2 :: _) as rest) =>
      ((if (month d2 =? month d1)%Z then 0 else 1) + month_changes rest)%nat
  | _ => 0%nat
  end.

End Engine.

(** ** Calendar arithmetic *)

(** Day number of a civil date, counted from 1970-01-01 in the proleptic
    Gregorian calendar, and back.  [Z] division rounds down, which the
    era computation needs. *)
Definition days_from_civil (d : Timestamp) : Z :=
  let y := if month d <=? 2 then year d - 1 else year d in
  let era := y / 400 in
  let yoe := y - era * 400 in
  let mp := if 2 <? month d then month d - 3 else month d + 9 in
  let doy := (153 * mp + 2) / 5 + day d - 1 in
  let doe := yoe * 365 + yoe / 4 - yoe / 100 + doy in
  era * 146097 + doe - 719468.

Definition civil_from_days (z : Z) : Timestamp :=
  let z := z + 719468 in
  let era := z / 146097 in
  let doe := z - era * 146097 in
  let yoe := (doe - doe / 1460 + doe / 36524 - doe / 146096) / 365 in
  let doy := doe - (365 * yoe + yoe / 4 - yoe / 100) in
  let mp := (5 * doy + 2) / 153 in
  let d := doy - (153 * mp + 2) / 5 + 1 in
  let m := if mp <? 10 then mp + 3 else mp - 9 in
  mkTimestamp (if m <=? 2 then yoe + era * 400 + 1 else yoe + era * 400) m d.

(** [date + pd.DateOffset(days=x)]. *)
Definition add_days (d : Timestamp) (x : Z) : Timestamp :=
  civil_from_days (days_from_civil d + x).

(** ** forecasting.py *)

Module Forecasting.

(** A [float64] cell of a pandas or numpy container: a finite value or
    the not-a-number value.  No operation of this module divides by
    zero or overflows in exact arithmetic, so infinities do not occur. *)
Inductive float : Type :=
  | Fin (q : Qc)
  | NaN.

Definition fadd (a b : float) : float :=
  match a, b with
  | Fin x, Fin y => Fin (x + y)%Qc
  | _, _ => NaN
  end.

Definition fmul (a b : float) : float :=
  match a, b with
  | Fin x, Fin y => Fin (x * y)%Qc
  | _, _ => NaN
  end.

(** The entries that pandas keeps when it skips missing values. *)
Fixpoint finite_values (l : list float) : list Qc :=
  match l with
  | [] => []
  | Fin q :: rest => q :: finite_values rest
  | NaN :: rest => finite_values rest
  end.

Definition Qc_sum (l : list Qc) : Qc := fold_right Qcplus 0%Qc l.

Definition Qc_of_nat (n : nat) : Qc := Q2Qc (inject_Z (Z.of_nat n)).

(** [Series.mean()]: missing values are skipped; the mean of nothing
    is [NaN]. *)
Definition mean (values : list float) : float :=
  let xs := finite_values values in
  match xs with
  | [] => NaN
  | _ => Fin (Qc_sum xs / Qc_of_nat (length xs))%Qc
  end.

(** Insertion sort, ascending. *)
Fixpoint insert_sorted (x : Qc) (l : list Qc) : list Qc :=
  match l with
  | [] => [x]
  | y :: rest =>
      if Qle_bool (this x) (this y) then x :: y :: rest
      else y :: insert_sorted x rest
  end.

Definition sort (l : list Qc) : list Qc := fold_right insert_sorted [] l.

(** [DataFrame.quantile(q, axis=1)] on one row, with the default
    linear interpolation: missing values are skipped, the quantile of
    nothing is [NaN]; otherwise the value at position [q * (n - 1)] of
    the sorted entries, interpolated between its two neighbours. *)
Definition quantile (q : Qc) (row : list float) : float :=
  let v := sort (finite_values row) in
  match v with
  | [] => NaN
  | x0 :: _ =>
      let n := length v in
      let pos := (q * Qc_of_nat (n - 1))%Qc in
      let lo := Z.to_nat (Qfloor (this pos)) in
      let frac := (pos - Qc_of_nat lo)%Qc in
      let a := nth lo v x0 in
      let b := nth (Nat.min (lo + 1) (n - 1)) v x0 in
      Fin (a + (b - a) * frac)%Qc
  end.

(** One line of the returned frame, by column label. *)
Record forecast_row : Type := mkRow {
  median : float;
  upper_bound_75 : float;
  lower_bound_25 : float;
  upper_bound_95 : float;
  lower_bound_05 : float
}.

(** [np.zeros((rows, cols))]: negative dimensions raise [ValueError]. *)
Definition zeros (rows cols : Z) : result (list (list float)) :=
  if (rows <? 0) || (cols <? 0) then raise ValueError
  else ok (replicate (Z.to_nat rows) (replicate (Z.to_nat cols) (Fin 0%Qc))).

(** [m[j, i] = v] for indices inside the matrix, the only ones the
    loops below produce. *)
Definition set_cell (m : list (list float)) (j i : nat) (v : float)
    : list (list float) :=
  alter (fun row => <[i := v]> row) j m.

(** [simulation_results[j, i]] are filled for [j] in [range(num_days)]:
    the inner loop, started at day [j0] with [next_price]. *)
Fixpoint price_path (random_shocks : list float) (i j0 : nat)
    (next_price : float) (m : list (list float)) : list (list float) :=
  match random_shocks with
  | [] => m
  | shock :: rest =>
      let next_price := fmul next_price (fadd (Fin 1%Qc) shock) in
      price_path rest i (S j0) next_price (set_cell m j0 i next_price)
  end.

Definition num_simulations_default : Z := 500.

(** A scale that [np.random.normal] accepts: not a negative number. *)
Definition accepted (scale : float) : Prop :=
  match scale with
  | Fin s => ~ (s < 0)%Qc
  | NaN => True
  end.

Section Simulation.

(** [np.sqrt] on the finite non-negative numbers it is applied to. *)
Variable sqrt : Qc -> Qc.

(** The state of numpy's global generator, and one standard normal
    draw from it. *)
Variable G : Type.
Variable standard_normal : G -> Qc * G.

(** [Series.std()], with pandas' default [ddof=1]: with fewer than
    two observations the result is [NaN]. *)
Definition std (values : list float) : float :=
  let xs := finite_values values in
  let n := length xs in
  if (n <=? 1)%nat then NaN
  else
    let m := (Qc_sum xs / Qc_of_nat n)%Qc in
    let ss := Qc_sum ((fun x => ((x - m) * (x - m))%Qc) <$> xs) in
    Fin (sqrt (ss / Qc_of_nat (n - 1))%Qc).

(** [size] standard normal draws, threading the generator. *)
Fixpoint draws (size : nat) (g : G) : list Qc * G :=
  match size with
  | O => ([], g)
  | S k =>
      let '(z, g1) := standard_normal g in
      let '(zs, g2) := draws k g1 in
      (z :: zs, g2)
  end.

(** [np.random.normal(loc, scale, size)]: a negative scale raises
    [ValueError] before anything is drawn; otherwise each sample is
    [loc + scale * z] for a standard normal draw [z]. *)
Definition normal (loc scale : float) (size : nat) (g : G)
    : result (list float) * G :=
  match scale with
  | Fin s =>
      if decide (s < 0)%Qc then (raise ValueError, g)
      else
        let '(zs, g') := draws size g in
        (ok ((fun z => fadd loc (fmul scale (Fin z))) <$> zs), g')
  | NaN =>
      let '(zs, g') := draws size g in
      (ok ((fun z => fadd loc (fmul scale (Fin z))) <$> zs), g')
  end.

(** The loop [for i in range(num_simulations)], from simulation [i]
    on, with [todo] simulations left. *)
Fixpoint simulations (mu sigma initial_value : float) (num_days : nat)
    (todo i : nat) (m : list (list float)) (g : G)
    : result (list (list float)) * G :=
  match todo with
  | O => (ok m, g)
  | S k =>
      match normal mu sigma num_days g with
      | (inl e, g') => (inl e, g')
      | (inr random_shocks, g') =>
          simulations mu sigma initial_value num_days k (S i)
            (price_path random_shocks i 0 initial_value m) g'
      end
  end.

(** [historical_returns.index[-1]]. *)
Definition last_index (historical_returns : list (Timestamp * float))
    : result Timestamp :=
  match last (fst <$> historical_returns) with
  | None => raise IndexError
  | Some d => ok d
  end.

(** The dates [last_date + pd.DateOffset(days=x)] for [x] in
    [range(1, num_days + 1)]. *)
Definition future_dates (last_date : Timestamp) (num_days : nat)
    : list Timestamp :=
  (fun x => add_days last_date (Z.of_nat x)) <$> seq 1 num_days.

Definition quantiles (row : list float) : forecast_row :=
  {| median := quantile (Q2Qc (1 # 2)) row;
     upper_bound_75 := quantile (Q2Qc (3 # 4)) row;
     lower_bound_25 := quantile (Q2Qc (1 # 4)) row;
     upper_bound_95 := quantile (Q2Qc (95 # 100)) row;
     lower_bound_05 := quantile (Q2Qc (5 # 100)) row |}.

(** [run_monte_carlo_simulation]: the returned frame, as the list of
    its lines in index order, or the exception raised; and the
    generator as the call leaves it.  On a frame without lines and
    without columns [results_df.quantile(q, axis=1)] raises
    [ValueError]: pandas asks for the common type of no column. *)
Definition run_monte_carlo_simulation
    (historical_returns : list (Timestamp * float))
    (projection_years : Z) (initial_value : float)
    (num_simulations : Z) (g : G)
    : result (list (Timestamp * forecast_row)) * G :=
  let mu := mean (snd <$> historical_returns) in
  let sigma := std (snd <$> historical_returns) in
  let num_days := projection_years * 252 in
  match zeros num_days num_simulations with
  | inl e => (inl e, g)
  | inr simulation_results =>
      match simulations mu sigma initial_value (Z.to_nat num_days)
              (Z.to_nat num_simulations) 0 simulation_results g with
      | (inl e, g') => (inl e, g')
      | (inr simulation_results, g') =>
          match last_index historical_returns with
          | inl e => (inl e, g')
          | inr last_date =>
              let dates := future_dates last_date (Z.to_nat num_days) in
              if (num_days =? 0) && (num_simulations =? 0)
              then (raise ValueError, g')
              else (ok (zip dates (quantiles <$> simulation_results)), g')
          end
      end
  end.

End Simulation.

End Forecasting.

(** ** risk.py *)

Module Risk.

Section Report.

(** A [float64] cell, with the operations on cells that decide the
    control flow of [generate_risk_report].  The numerical work on
    the cleaned returns (covariance, correlation, eigenvalues, heat
    map) is numpy, pandas and seaborn code; it is one opaque function
    [analyse] of the weights and the cleaned returns. *)
Variable cell : Type.
Variable nan : cell.
Variable isna : cell -> bool.
Variable log_ratio : cell -> cell -> cell.
Variables metrics figure : Type.
Variable analyse : list cell -> list (list cell) -> metrics * figure.

(** A price frame: the column labels and the lines, each with one
    cell per column. *)
Record DataFrame : Type := mkDataFrame {
  columns : list string;
  values : list (Timestamp * list cell)
}.

Definition shape (df : DataFrame) : nat * nat :=
  (length (values df), length (columns df)).

(** [[weights[ticker] for ticker in price_data.columns]]. *)
Fixpoint ordered (weights : gmap string cell) (tickers : list string)
    : result (list cell) :=
  match tickers with
  | [] => ok []
  | ticker :: rest =>
      match weights !! ticker with
      | None => raise KeyError
      | Some w =>
          match ordered weights rest with
          | inl e => inl e
          | inr ws => ok (w :: ws)
          end
      end
  end.

(** [price_data.shift(1)]: every line takes the cells of the line
    above it, the first line is filled with [NaN]. *)
Fixpoint shift_from (previous : list cell) (rows : list (Timestamp * list cell))
    : list (Timestamp * list cell) :=
  match rows with
  | [] => []
  | (d, cells) :: rest => (d, previous) :: shift_from cells rest
  end.

Definition shift1 (df : DataFrame) : list (Timestamp * list cell) :=
  shift_from (replicate (length (columns df)) nan) (values df).

(** [np.log(price_data / price_data.shift(1))], cell by cell. *)
Definition log_of_ratio (df : DataFrame) : list (Timestamp * list cell) :=
  zip_with (fun cur prev => (fst cur, zip_with log_ratio (snd cur) (snd prev)))
    (values df) (shift1 df).

(** [.dropna()]: the lines with a missing cell are removed. *)
Definition dropna (rows : list (Timestamp * list cell))
    : list (Timestamp * list cell) :=
  List.filter (fun row => negb (existsb isna (snd row))) rows.

Definition log_returns (df : DataFrame) : list (Timestamp * list cell) :=
  dropna (log_of_ratio df).

(** [generate_risk_report]: the returned pair, [(None, None)] or the
    metrics and the figure. *)
Definition generate_risk_report (price_data : DataFrame)
    (weights : gmap string cell) : result (option metrics * option figure) :=
  if ((fst (shape price_data) <? 2) || (snd (shape price_data) <? 1))%nat
  then ok (None, None)
  else
    match ordered weights (columns price_data) with
    | inl e => inl e
    | inr ordered_weights =>
        let returns := log_returns price_data in
        if (length returns <? 2)%nat then ok (None, None)
        else
          let '(m, fig) := analyse ordered_weights (snd <$> returns) in
          ok (Some m, Some fig)
    end.

End Report.

End Risk.

(** * Concrete inputs *)

(** The dates of the example of the specification: two days of January
    and one of February. *)
Definition jan15 : Timestamp := mkTimestamp 2024 1 15.
Definition jan20 : Timestamp := mkTimestamp 2024 1 20.
Definition feb03 : Timestamp := mkTimestamp 2024 2 3.

Definition monthly_policy : Portfolio.t :=
  Portfolio.mk {[ "AAPL"%string := 1%Qc ]} (Some "monthly"%string) None.

Definition buy_and_hold_policy : Portfolio.t :=
  Portfolio.mk {[ "AAPL"%string := 1%Qc ]} None None.

(** The tolerance that the specification gives for the sum of the
    weights. *)
Definition tolerance : Qc := Q2Qc (1 # 100000).

(** Weights that sum to one, and weights that sum to 0.95 and to 1.05. *)
Definition weights_60_40 : gmap string Qc :=
  {[ "AAPL"%string := Q2Qc (6 # 10); "GOOG"%string := Q2Qc (4 # 10) ]}.

Definition weights_sum_095 : gmap string Qc :=
  {[ "AAPL"%string := Q2Qc (55 # 100); "GOOG"%string := Q2Qc (40 # 100) ]}.

Definition weights_sum_105 : gmap string Qc :=
  {[ "AAPL"%string := Q2Qc (65 # 100); "GOOG"%string := Q2Qc (40 # 100) ]}.

(** A small instance of the cell operations of [Risk]: cells are
    rationals or [NaN], and the logarithm of a ratio is replaced by its
    first-order value [a / b - 1], undefined where the logarithm is. *)
Definition cell_isna (c : Forecasting.float) : bool :=
  match c with
  | Forecasting.NaN => true
  | Forecasting.Fin _ => false
  end.

Definition cell_log_ratio (a b : Forecasting.float) : Forecasting.float :=
  match a, b with
  | Forecasting.Fin x, Forecasting.Fin y =>
      if decide (0 < x / y)%Qc then Forecasting.Fin (x / y - 1)%Qc
      else Forecasting.NaN
  | _, _ => Forecasting.NaN
  end.

Definition cell_analyse (ws : list Forecasting.float)
    (returns : list (list Forecasting.float)) : nat * nat :=
  (length ws, length returns).

Definition one_row_prices : Risk.DataFrame Forecasting.float :=
  Risk.mkDataFrame _ ["AAPL"%string]
    [(jan15, [Forecasting.Fin (Q2Qc 10)])].

Definition two_row_prices : Risk.DataFrame Forecasting.float :=
  Risk.mkDataFrame _ ["AAPL"%string]
    [(jan15, [Forecasting.Fin (Q2Qc 10)]); (jan20, [Forecasting.Fin (Q2Qc 11)])].

Definition unit_weight : gmap string Forecasting.float :=
  {[ "AAPL"%string := Forecasting.Fin 1%Qc ]}.

(** An instance of the parameters of [Forecasting]: a square root that
    is exact on the squares of rationals and rounds down elsewhere, and a
    generator that counts its draws and yields a fixed cycle of values. *)
Definition sqrt_floor (x : Qc) : Qc :=
  Q2Qc (inject_Z (Z.sqrt (Qnum x * Zpos (Qden x))) / inject_Z (Zpos (Qden x)))%Q.

Definition counting_normal (g : nat) : Qc * nat :=
  (Q2Qc ((Z.of_nat (g mod 7) - 3) # 2), S g).

Definition one_zero_return : list (Timestamp * Forecasting.float) :=
  [(jan15, Forecasting.Fin 0%Qc)].

Definition two_zero_returns : list (Timestamp * Forecasting.float) :=
  [(jan15, Forecasting.Fin 0%Qc); (jan20, Forecasting.Fin 0%Qc)].

Definition three_returns : list (Timestamp * Forecasting.float) :=
  [(jan15, Forecasting.Fin (Q2Qc (1 # 100)));
   (jan20, Forecasting.Fin (Q2Qc (-2 # 100)));
   (feb03, Forecasting.Fin (Q2Qc (3 # 100)))].

Definition nan_row : Forecasting.forecast_row :=
  Forecasting.mkRow Forecasting.NaN Forecasting.NaN Forecasting.NaN
    Forecasting.NaN Forecasting.NaN.

(** ** Notions used to state the properties of the engine *)

(** The sum of [f ticker x] over the entries of a dictionary. *)
Definition weighted_sum (f : string -> Qc -> Qc) (m : gmap string Qc) : Qc :=
  map_fold (fun t x acc => (acc + f t x)%Qc) 0%Qc m.

(** What an entry contributes to [weighted_sum], zero when absent. *)
Definition contribution (f : string -> Qc -> Qc) (m : gmap string Qc)
    (t : string) : Qc :=
  match m !! t with
  | Some x => f t x
  | None => 0%Qc
  end.

(** The price of a ticker in a row, zero when the row does not have it. *)
Definition price_of (prices : gmap string Qc) (t : string) : Qc :=
  default 0%Qc (prices !! t).

(** The market value of holdings at the prices of a row. *)
Definition holdings_value (prices holdings : gmap string Qc) : Qc :=
  weighted_sum (fun t h => (h * price_of prices t)%Qc) holdings.

(** The holdings after a deployment of [total_value] at the target
    weights: the tickers of the weights with a positive price get their
    share, the other entries stay. *)
Definition deployed (prices target_weights holdings : gmap string Qc)
    (total_value : Qc) : gmap string Qc :=
  map_imap (fun t w => if decide (0 < price_of prices t)%Qc
                       then Some (total_value * w / price_of prices t)%Qc
                       else None) target_weights
  ∪ holdings.

(** The entries of the holdings outside the target weights. *)
Definition undeployed (target_weights holdings : gmap string Qc) : gmap string Qc :=
  filter (fun e => target_weights !! fst e = None) holdings.

(** Every asset of the table and of the portfolio has a strictly
    positive price in the row. *)
Definition positive_prices (columns : list string) (target_weights prices : gmap string Qc)
    : Prop :=
  forall t, t ∈ columns \/ is_Some (target_weights !! t) ->
            exists p, prices !! t = Some p /\ (0 < p)%Qc.

(** Every asset of the table and of the portfolio has a price in the
    row. *)
Definition all_priced (columns : list string) (target_weights prices : gmap string Qc)
    : Prop :=
  forall t, t ∈ columns \/ is_Some (target_weights !! t) -> is_Some (prices !! t).

(** The day is a deployment day: the first of the run, or one on which
    the policy asks for a rebalance. *)
Definition deployment_day (s : Engine.state) (current_date : Timestamp) : bool :=
  match Engine.portfolio_history s with [] => true | _ => false end
  || fst (Portfolio.should_rebalance (Engine.portfolio s) current_date).

(** What the states of a run keep true: the portfolio keeps its weights,
    the holdings have no other tickers than the columns and the weights,
    and hold nothing outside the weights. *)
Record run_invariant (columns : list string) (target_weights : gmap string Qc)
    (s : Engine.state) : Prop := mkInvariant {
  inv_weights : Portfolio.target_weights (Engine.portfolio s) = target_weights;
  inv_keys : forall t, is_Some (Engine.holdings s !! t) ->
               t ∈ columns \/ is_Some (target_weights !! t);
  inv_outside : forall t x, Engine.holdings s !! t = Some x ->
               target_weights !! t = None -> x = 0%Qc
}.

(** The state that an iteration of the loop leaves when no price lookup
    fails. *)
Definition next_state (annual_increase : Qc) (s : Engine.state)
    (current_date : Timestamp) (prices : gmap string Qc) : Engine.state :=
  let cash1 := Engine.cash_on annual_increase s current_date in
  let portfolio' := snd (Portfolio.should_rebalance (Engine.portfolio s) current_date) in
  let holdings' :=
    if deployment_day s current_date
    then deployed prices (Portfolio.target_weights portfolio') (Engine.holdings s)
           (holdings_value prices (Engine.holdings s) + cash1)%Qc
    else Engine.holdings s in
  let cash' := if deployment_day s current_date then 0%Qc else cash1 in
  {| Engine.holdings := holdings';
     Engine.cash := cash';
     Engine.current_monthly_topup := Engine.topup_on annual_increase s current_date;
     Engine.portfolio_history :=
       Engine.portfolio_history s
       ++ [(current_date, (holdings_value prices holdings' + cash')%Qc)];
     Engine.last_month := Some (month current_date);
     Engine.last_year := Some (year current_date);
     Engine.portfolio := portfolio' |}.

(** The total value of a state at the prices of a row: the holdings at
    those prices plus the cash. *)
Definition state_value (prices : gmap string Qc) (s : Engine.state) : Qc :=
  (holdings_value prices (Engine.holdings s) + Engine.cash s)%Qc.

(** A decision procedure for [positive_prices]. *)
Definition positive_at (prices : gmap string Qc) (t : string) : bool :=
  match prices !! t with
  | Some p => bool_decide (0 < p)%Qc
  | None => false
  end.

Definition positive_pricesb (columns : list string)
    (target_weights prices : gmap string Qc) : bool :=
  forallb (positive_at prices) (columns ++ (map_to_list target_weights).*1).

(** What a caller reads off a result: the last value of the series, the
    whole series, and the holdings, as plain fractions. *)
Definition final_value (r : result Engine.outcome) : option Q :=
  match r with
  | inr out => this <$> (snd <$> last (Engine.result_df out))
  | inl _ => None
  end.

Definition series_values (r : result Engine.outcome) : list Q :=
  match r with
  | inr out => this <$> (snd <$> Engine.result_df out)
  | inl _ => []
  end.

Definition holdings_list (r : result Engine.outcome) : list (string * Q) :=
  match r with
  | inr out => prod_map id this <$> map_to_list (Engine.final_holdings out)
  | inl _ => []
  end.

(** The number of calendar-month boundaries between two dates. *)
Definition months_between (first last : Timestamp) : Z :=
  month_index last - month_index first.

(** Tables of the single asset AAPL at the constant price 10: one row in
    each of four consecutive months, and the first and the last of these
    rows only. *)
Definition mar01 : Timestamp := mkTimestamp 2024 3 1.
Definition apr02 : Timestamp := mkTimestamp 2024 4 2.

Definition price_10 : gmap string Qc := {[ "AAPL"%string := Q2Qc 10 ]}.

Definition four_months : Engine.DataFrame :=
  Engine.mkDataFrame ["AAPL"%string]
    [(jan15, price_10); (feb03, price_10); (mar01, price_10); (apr02, price_10)].

Definition january_and_april : Engine.DataFrame :=
  Engine.mkDataFrame ["AAPL"%string] [(jan15, price_10); (apr02, price_10)].

(** A single weight that is not 1 but rounds to 1 at five decimals. *)
Definition weights_tolerated : gmap string Qc :=
  {[ "AAPL"%string := Q2Qc (1000004 # 1000000) ]}.

Definition tolerated_policy : Portfolio.t :=
  Portfolio.mk weights_tolerated None None.

(** A table of two assets with moving prices, and a monthly policy on
    them. *)
Definition two_assets : Engine.DataFrame :=
  Engine.mkDataFrame ["AAPL"%string; "GOOG"%string]
    [(jan15, {[ "AAPL"%string := Q2Qc 10; "GOOG"%string := Q2Qc 20 ]});
     (jan20, {[ "AAPL"%string := Q2Qc 12; "GOOG"%string := Q2Qc 19 ]});
     (feb03, {[ "AAPL"%string := Q2Qc 11; "GOOG"%string := Q2Qc 25 ]})].

Definition policy_60_40 : Portfolio.t :=
  Portfolio.mk weights_60_40 (Some "monthly"%string) None.

Definition three_row_prices : Risk.DataFrame Forecasting.float :=
  Risk.mkDataFrame _ ["AAPL"%string]
    [(jan15, [Forecasting.Fin (Q2Qc 10)]); (jan20, [Forecasting.Fin (Q2Qc 11)]);
     (feb03, [Forecasting.Fin (Q2Qc 12)])].

(** ** Notions used to state further properties of the policy *)

(** The number of calls of a sequence that answer true. *)
Definition rebalance_count (self : Portfolio.t) (dates : list Timestamp) : nat :=
  length (List.filter Portfolio.answer (Portfolio.calls self dates)).

(** The bounds of the sums that [Portfolio.__init__] accepts. *)
Definition accepted_from : Qc := Q2Qc (999996 # 1000000).
Definition accepted_to : Qc := Q2Qc (1000004 # 1000000).
Definition refused_below : Qc := Q2Qc (999994 # 1000000).
Definition refused_above : Qc := Q2Qc (1000006 # 1000000).

(** A policy with a frequency that is none of the three known words. *)
Definition weekly_policy : Portfolio.t :=
  Portfolio.mk {[ "AAPL"%string := 1%Qc ]} (Some "weekly"%string) None.

(** Dates one per month from January to April, and a quarterly policy on
    them. *)
Definition quarterly_policy : Portfolio.t :=
  Portfolio.mk {[ "AAPL"%string := 1%Qc ]} (Some "quarterly"%string) None.

(** ** Notions used to state further properties of the engine *)


(** What [run_backtest] hands back to its caller, without the portfolio
    object: the series, the holdings and the cash, or the exception. *)
Definition returned (r : result Engine.outcome)
    : result (list (Timestamp * Qc) * gmap string Qc * Qc) :=
  match r with
  | inl e => inl e
  | inr out => inr (Engine.result_df out, Engine.final_holdings out, Engine.final_cash out)
  end.





Definition four_months_outcome : Engine.outcome :=
  Eval vm_compute in
    match Engine.run_backtest four_months buy_and_hold_policy
            (Q2Qc 1000) (Q2Qc 100) 0%Qc with
    | inr out => out
    | inl _ => Engine.mkOutcome [] ∅ 0%Qc buy_and_hold_policy
    end.


(** Two portfolio objects with the same weights and the same frequency,
    whatever date each of them stores. *)
Definition same_settings (p1 p2 : Portfolio.t) : Prop :=
  Portfolio.target_weights p1 = Portfolio.target_weights p2 /\
  Portfolio.rebalance_frequency p1 = Portfolio.rebalance_frequency p2.

(** Two portfolio objects that answer alike from now on: the same
    settings, and stored dates that the frequency cannot tell apart. *)
Definition agree (p1 p2 : Portfolio.t) : Prop :=
  same_settings p1 p2 /\
  forall freq,
    Portfolio.rebalance_frequency p1 = Some freq ->
    Portfolio.known_frequency freq ->
    exists l1 l2,
      Portfolio._last_rebalance_date p1 = Some l1 /\
      Portfolio._last_rebalance_date p2 = Some l2 /\
      Portfolio.period freq l1 = Portfolio.period freq l2.

(** The state of a run with another portfolio object in it. *)
Definition with_portfolio (s : Engine.state) (p : Portfolio.t) : Engine.state :=
  {| Engine.holdings := Engine.holdings s;
     Engine.cash := Engine.cash s;
     Engine.current_monthly_topup := Engine.current_monthly_topup s;
     Engine.portfolio_history := Engine.portfolio_history s;
     Engine.last_month := Engine.last_month s;
     Engine.last_year := Engine.last_year s;
     Engine.portfolio := p |}.

(** A monthly policy that has been used before and stores a date of the
    year before. *)
Definition used_policy_60_40 : Portfolio.t :=
  Portfolio.mk weights_60_40 (Some "monthly"%string) (Some (mkTimestamp 2023 6 30)).

(** ** Notions used to state further properties of the forecast *)

(** A list in ascending order: every entry is at most each later one. *)
Fixpoint ascending (l : list Qc) : Prop :=
  match l with
  | [] => True
  | x :: rest => Forall (Qcle x) rest /\ ascending rest
  end.


(** ** metrics.py *)

Module Metrics.

(** A [float64] result: a number, an infinity with its sign, or the
    not-a-number value.  The series that the functions receive are
    series of numbers, as [run_backtest] returns them; the infinities
    come from the divisions by zero, which numpy does not refuse.  As
    in the rest of the development numbers are exact, and zero has no
    sign. *)
Inductive float64 : Type :=
  | Num (q : Qc)
  | Inf (negative : bool)
  | NaN.

(** [x / y] for two numbers. *)
Definition divide (x y : Qc) : float64 :=
  if decide (y = 0%Qc) then
    if decide (x = 0%Qc) then NaN else Inf (bool_decide (x < 0)%Qc)
  else Num (x / y)%Qc.

(** [a - b], [a * b] for a number [b] and [a / b]. *)
Definition fsub (a : float64) (b : Qc) : float64 :=
  match a with
  | Num x => Num (x - b)%Qc
  | Inf s => Inf s
  | NaN => NaN
  end.

Definition fmul (a : float64) (b : Qc) : float64 :=
  match a with
  | Num x => Num (x * b)%Qc
  | Inf s => if decide (b = 0%Qc) then NaN else Inf (xorb s (bool_decide (b < 0)%Qc))
  | NaN => NaN
  end.

Definition fdiv (a b : float64) : float64 :=
  match a, b with
  | Num x, Num y => divide x y
  | Num _, Inf _ => Num 0%Qc
  | Inf s, Num y => Inf (xorb s (bool_decide (y < 0)%Qc))
  | _, _ => NaN
  end.

Definition isna (a : float64) : bool :=
  match a with
  | NaN => true
  | _ => false
  end.

(** [a == 0]. *)
Definition is_zero (a : float64) : bool :=
  match a with
  | Num x => bool_decide (x = 0%Qc)
  | _ => false
  end.

(** [series.pct_change()]: the first entry has no predecessor. *)
Fixpoint pct_change_from (previous : Qc) (values : list Qc) : list float64 :=
  match values with
  | [] => []
  | x :: rest => fsub (divide x previous) 1%Qc :: pct_change_from x rest
  end.

Definition pct_change (values : list Qc) : list float64 :=
  match values with
  | [] => []
  | x :: rest => NaN :: pct_change_from x rest
  end.

Definition dropna (values : list float64) : list float64 :=
  List.filter (fun a => negb (isna a)) values.

(** The entries of a list when all of them are numbers. *)
Fixpoint numbers (values : list float64) : option (list Qc) :=
  match values with
  | [] => Some []
  | Num x :: rest => cons x <$> numbers rest
  | _ :: rest => None
  end.

(** [series.cummax()], the running maximum. *)
Fixpoint cummax_from (m : Qc) (values : list Qc) : list Qc :=
  match values with
  | [] => []
  | x :: rest =>
      let m := if decide (m < x)%Qc then x else m in
      m :: cummax_from m rest
  end.

Definition cummax (values : list Qc) : list Qc :=
  match values with
  | [] => []
  | x :: _ => cummax_from x values
  end.

(** The order of the values that are not [NaN]. *)
Definition fle (a b : float64) : bool :=
  match a, b with
  | Inf true, _ => true
  | _, Inf false => true
  | Num x, Num y => bool_decide (x <= y)%Qc
  | _, _ => false
  end.

(** [series.min()]: missing values are skipped, the minimum of
    nothing is [NaN]. *)
Fixpoint min (values : list float64) : float64 :=
  match values with
  | [] => NaN
  | x :: rest =>
      match x, min rest with
      | NaN, m => m
      | x, NaN => x
      | x, m => if fle x m then x else m
      end
  end.

Definition calculate_max_drawdown (series : list (Timestamp * Qc)) : float64 :=
  let values := snd <$> series in
  let cumulative_max := cummax values in
  let drawdown :=
    zip_with (fun x m => divide (x - m)%Qc m) values cumulative_max in
  min drawdown.

Definition risk_free_rate_default : Qc := Q2Qc (2 # 100).

Section Numerics.

(** [np.sqrt] on a number that is not negative, and [a ** b] for a
    number [b]. *)
Variable sqrt : Qc -> Qc.
Variable pow : float64 -> Qc -> float64.

(** [series.std()] with [ddof=1]: missing values are skipped, fewer
    than two observations give [NaN], and an infinite entry makes the
    mean, and with it the result, [NaN]. *)
Definition std (values : list float64) : float64 :=
  let present := dropna values in
  let n := length present in
  if (n <=? 1)%nat then NaN
  else
    match numbers present with
    | None => NaN
    | Some xs =>
        let m := (Forecasting.Qc_sum xs / Forecasting.Qc_of_nat n)%Qc in
        let ss := Forecasting.Qc_sum ((fun x => ((x - m) * (x - m))%Qc) <$> xs) in
        Num (sqrt (ss / Forecasting.Qc_of_nat (n - 1))%Qc)
    end.

(** [series.iloc[0]] and [series.iloc[-1]], with their index labels. *)
Definition iloc_first (series : list (Timestamp * Qc)) : result (Timestamp * Qc) :=
  match series with
  | [] => raise IndexError
  | r :: _ => ok r
  end.

Definition iloc_last (series : list (Timestamp * Qc)) : result (Timestamp * Qc) :=
  match last series with
  | None => raise IndexError
  | Some r => ok r
  end.

Definition calculate_cagr (series : list (Timestamp * Qc)) : result float64 :=
  (let* first := iloc_first series in
   let* last := iloc_last series in
   let start_value := snd first in
   let end_value := snd last in
   let num_days := days_from_civil (fst last) - days_from_civil (fst first) in
   if num_days =? 0 then ok (Num 0%Qc)
   else
     let num_years := (Q2Qc (inject_Z num_days) / Q2Qc (36525 # 100))%Qc in
     ok (fsub (pow (divide end_value start_value) (1 / num_years)%Qc) 1%Qc))%result.

Definition calculate_volatility (series : list (Timestamp * Qc)) : float64 :=
  let daily_returns := dropna (pct_change (snd <$> series)) in
  fmul (std daily_returns) (sqrt (Q2Qc 252)).

Definition calculate_sharpe_ratio (series : list (Timestamp * Qc))
    (risk_free_rate : Qc) : result float64 :=
  match calculate_cagr series with
  | inl e => inl e
  | inr cagr =>
      let volatility := calculate_volatility series in
      if is_zero volatility then ok NaN
      else ok (fdiv (fsub cagr risk_free_rate) volatility)
  end.

End Numerics.

End Metrics.

(** ** Inputs of the metrics *)

(** An instance of the power function of [Metrics]: its first-order
    value around one, [1 + b * (a - 1)]. *)
Definition pow_first_order (a : Metrics.float64) (b : Qc) : Metrics.float64 :=
  match a with
  | Metrics.Num x => Metrics.Num (1 + b * (x - 1))%Qc
  | other => other
  end.

Definition flat_series : list (Timestamp * Qc) :=
  [(jan15, Q2Qc 100); (jan20, Q2Qc 100); (feb03, Q2Qc 100)].

Definition two_values : list (Timestamp * Qc) :=
  [(jan15, Q2Qc 100); (jan20, Q2Qc 110)].

Definition rise_and_fall : list (Timestamp * Qc) :=
  [(jan15, Q2Qc 100); (jan20, Q2Qc 120); (feb03, Q2Qc 90)].

Definition rising_series : list (Timestamp * Qc) :=
  [(jan15, Q2Qc 100); (jan20, Q2Qc 120); (feb03, Q2Qc 120)].

(** ** app.py *)

Module App.

(** The default of the weight input of ticker number [i] out of [n]:
    [100 // n], and one more for the first [100 - (100 // n) * n]
    tickers. *)
Definition default_value (n i : Z) : Z :=
  let default_weight := 100 / n in
  let remainder := 100 - default_weight * n in
  if i <? remainder then default_weight + 1 else default_weight.

(** [weights[ticker] = value] for each entry in turn: a later entry
    replaces an earlier one with the same ticker. *)
Definition weights_of (entries : list (string * Z)) : gmap string Z :=
  fold_left (fun weights entry => <[fst entry := snd entry]> weights) entries ∅.

(** The weights when the user keeps the defaults. *)
Definition default_weights (tickers : list string) : gmap string Z :=
  let n := Z.of_nat (length tickers) in
  weights_of (zip tickers (default_value n <$> (Z.of_nat <$> seq 0 (length tickers)))).

(** [sum(weights.values())]. *)
Definition total_weight (weights : gmap string Z) : Z :=
  map_fold (fun _ w acc => acc + w) 0 weights.

(** The run button is disabled when [total_weight != 100 or not
    tickers]. *)
Definition run_enabled (tickers : list string) (weights : gmap string Z) : bool :=
  negb (negb (total_weight weights =? 100)
        || match tickers with [] => true | _ => false end).

(** [{ticker: w / 100 for ticker, w in weights.items()}]. *)
Definition normalized_weights (weights : gmap string Z) : gmap string Qc :=
  (fun w => (Q2Qc (inject_Z w) / Q2Qc 100)%Qc) <$> weights.

End App.

(** ** Notions used to state that the engine never goes short *)

(** A dictionary without negative entries. *)
Definition nonnegative (m : gmap string Qc) : Prop :=
  forall t x, m !! t = Some x -> (0 <= x)%Qc.

(** A state without short positions and without debt, whose recorded
    values are not negative either. *)
Record solvent (target_weights : gmap string Qc) (s : Engine.state) : Prop :=
  mkSolvent {
  solvent_weights : Portfolio.target_weights (Engine.portfolio s) = target_weights;
  solvent_holdings : nonnegative (Engine.holdings s);
  solvent_cash : (0 <= Engine.cash s)%Qc;
  solvent_topup : (0 <= Engine.current_monthly_topup s)%Qc;
  solvent_history : Forall (fun line => (0 <= snd line)%Qc) (Engine.portfolio_history s)
}.

(** ** plotting.py: the asset values of [generate_contribution_plots] *)

Module Plotting.

Local Open Scope result_scope.

(** [{ticker: final_holdings[ticker] * final_prices[ticker] for ticker
    in final_holdings}]: a holding without a final price raises
    [KeyError]. *)
Definition asset_values (final_holdings final_prices : gmap string Qc)
    : result (gmap string Qc) :=
  map_fold (fun ticker h acc =>
              let* values := acc in
              match final_prices !! ticker with
              | None => raise KeyError
              | Some p => ok (<[ticker := (h * p)%Qc]> values)
              end) (ok ∅) final_holdings.

(** [v / final_total_value > 0.001], a comparison of [float64]
    values: false for [NaN]. *)
Definition above_threshold (v final_total_value : Qc) : bool :=
  match Metrics.divide v final_total_value with
  | Metrics.Num share => bool_decide (Q2Qc (1 # 1000) < share)%Qc
  | Metrics.Inf negative => negb negative
  | Metrics.NaN => false
  end.

(** The assets that are left after the negligible ones are filtered
    out. *)
Definition filtered (values : gmap string Qc) : gmap string Qc :=
  let final_total_value := sum_values values in
  filter (fun e => above_threshold (snd e) final_total_value = true) values.

End Plotting.

(** Asset values of which one is negligible. *)
Definition one_negligible : gmap string Qc :=
  {[ "AAPL"%string := Q2Qc 1200; "GOOG"%string := Q2Qc (1 # 10) ]}.

(** ** engine.py in floating point *)

(** The same code once more, with the arithmetic left open: the
    operations of [float] that [run_backtest] performs are the fields
    of [arithmetic], so that the engine can be run on binary64 numbers
    and on rationals that are rounded after every operation.  A [dict]
    is a list of entries in insertion order here, since the order of a
    floating-point sum matters. *)
Module FloatEngine.

Record arithmetic (F : Type) : Type := mkArithmetic {
  zero : F;
  one : F;
  hundred : F;
  add : F -> F -> F;
  mul : F -> F -> F;
  div : F -> F -> F;
  positive : F -> bool
}.

Arguments zero {F}.
Arguments one {F}.
Arguments hundred {F}.
Arguments add {F}.
Arguments mul {F}.
Arguments div {F}.
Arguments positive {F}.

(** [d[k]] and [d[k] = v] for a [dict] or a row of prices: a lookup of
    a key that is not there raises [KeyError], an assignment replaces
    the entry where it stands or appends a new one. *)
Fixpoint dict_get {A : Type} (d : list (string * A)) (k : string) : result A :=
  match d with
  | [] => raise KeyError
  | (k', v) :: rest => if String.eqb k' k then ok v else dict_get rest k
  end.

Fixpoint dict_set {A : Type} (d : list (string * A)) (k : string) (v : A)
    : list (string * A) :=
  match d with
  | [] => [(k, v)]
  | (k', v') :: rest =>
      if String.eqb k' k then (k', v) :: rest else (k', v') :: dict_set rest k v
  end.

Section Engine.

Context {F : Type} (A : arithmetic F).

Record DataFrame : Type := mkDataFrame {
  columns : list string;
  iterrows : list (Timestamp * list (string * F))
}.

(** The portfolio object: its weights, and the two attributes that
    [should_rebalance] reads and writes. *)
Record portfolio : Type := mkPortfolio {
  target_weights : list (string * F);
  rebalance_frequency : option string;
  _last_rebalance_date : option Timestamp
}.

(** [portfolio.should_rebalance(current_date)], which does not look at
    the weights. *)
Definition should_rebalance (self : portfolio) (current_date : Timestamp)
    : bool * portfolio :=
  let '(answer, p) :=
    Portfolio.should_rebalance
      (Portfolio.mk ∅ (rebalance_frequency self) (_last_rebalance_date self))
      current_date in
  (answer, mkPortfolio (target_weights self) (Portfolio.rebalance_frequency p)
             (Portfolio._last_rebalance_date p)).

Record state : Type := mkState {
  holdings : list (string * F);
  cash : F;
  current_monthly_topup : F;
  portfolio_history : list (Timestamp * F);
  last_month : option Z;
  last_year : option Z;
  the_portfolio : portfolio
}.

Local Open Scope result_scope.

(** [sum(holdings[ticker] * prices[ticker] for ticker in holdings)]:
    the products, which are [numpy.float64] numbers since the prices
    are, are added one by one in the order of the dictionary, starting
    from [acc], which is 0. *)
Fixpoint market_value_from (acc : F) (holdings prices : list (string * F))
    : result F :=
  match holdings with
  | [] => ok acc
  | (ticker, h) :: rest =>
      let* p := dict_get prices ticker in
      market_value_from (add A acc (mul A h p)) rest prices
  end.

Definition market_value (holdings prices : list (string * F)) : result F :=
  market_value_from (zero A) holdings prices.

(** The loop over [portfolio.target_weights.items()]. *)
Fixpoint invest (weights prices : list (string * F)) (total_value : F)
    (holdings : list (string * F)) : result (list (string * F)) :=
  match weights with
  | [] => ok holdings
  | (ticker, target_weight) :: rest =>
      let* p := dict_get prices ticker in
      if positive A p
      then
        let amount_to_invest := mul A total_value target_weight in
        invest rest prices total_value
          (dict_set holdings ticker (div A amount_to_invest p))
      else invest rest prices total_value holdings
  end.

(** The block under [if is_first_day or is_rebalance_day]. *)
Definition deploy_cash (weights holdings : list (string * F)) (cash : F)
    (prices : list (string * F)) : result (list (string * F) * F) :=
  let* market := market_value holdings prices in
  let total_value := add A market cash in
  let* holdings' := invest weights prices total_value holdings in
  ok (holdings', zero A).

(** [current_market_value + cash]. *)
Definition total_portfolio_value (holdings : list (string * F)) (cash : F)
    (prices : list (string * F)) : result F :=
  let* market := market_value holdings prices in
  ok (add A market cash).

Definition topup_on (annual_increase : F) (s : state) (current_date : Timestamp) : F :=
  match last_year s with
  | Some ly =>
      if ly <? year current_date
      then mul A (current_monthly_topup s)
             (add A (one A) (div A annual_increase (hundred A)))
      else current_monthly_topup s
  | None => current_monthly_topup s
  end.

Definition cash_on (annual_increase : F) (s : state) (current_date : Timestamp) : F :=
  match last_month s with
  | Some lm =>
      if negb (month current_date =? lm)
      then add A (cash s) (topup_on annual_increase s current_date)
      else cash s
  | None => cash s
  end.

(** [is_first_day or is_rebalance_day], as the iteration of a date will
    find it. *)
Definition deployment_day (s : state) (current_date : Timestamp) : bool :=
  match portfolio_history s with [] => true | _ => false end
  || fst (should_rebalance (the_portfolio s) current_date).

(** One iteration of the main simulation loop. *)
Definition step (annual_increase : F) (s : state)
    (row : Timestamp * list (string * F)) : result state :=
  let '(current_date, prices) := row in
  let topup := topup_on annual_increase s current_date in
  let cash1 := cash_on annual_increase s current_date in
  let is_first_day := match portfolio_history s with [] => true | _ => false end in
  let '(is_rebalance_day, portfolio') :=
    should_rebalance (the_portfolio s) current_date in
  let* hc :=
    (if is_first_day || is_rebalance_day
     then deploy_cash (target_weights portfolio') (holdings s) cash1 prices
     else ok (holdings s, cash1)) in
  let* total := total_portfolio_value (fst hc) (snd hc) prices in
  ok {| holdings := fst hc;
        cash := snd hc;
        current_monthly_topup := topup;
        portfolio_history := portfolio_history s ++ [(current_date, total)];
        last_month := Some (month current_date);
        last_year := Some (year current_date);
        the_portfolio := portfolio' |}.

Fixpoint loop (annual_increase : F) (s : state)
    (rows : list (Timestamp * list (string * F))) : result state :=
  match rows with
  | [] => ok s
  | row :: rest =>
      let* s' := step annual_increase s row in
      loop annual_increase s' rest
  end.

(** [{ticker: 0.0 for ticker in data.columns}]. *)
Definition initial_holdings (columns : list string) : list (string * F) :=
  foldl (fun d ticker => dict_set d ticker (zero A)) [] columns.

Definition initial_state (data : DataFrame) (p : portfolio)
    (initial_investment monthly_topup : F) : state :=
  {| holdings := initial_holdings (columns data);
     cash := initial_investment;
     current_monthly_topup := monthly_topup;
     portfolio_history := [];
     last_month := None;
     last_year := None;
     the_portfolio := p |}.

(** [run_backtest]: the series, the holdings and the cash. *)
Definition run_backtest (data : DataFrame) (p : portfolio)
    (initial_investment monthly_topup annual_increase : F)
    : result (list (Timestamp * F) * list (string * F) * F) :=
  let* s := loop annual_increase
              (initial_state data p initial_investment monthly_topup)
              (iterrows data) in
  match portfolio_history s with
  | [] => raise KeyError
  | _ => ok (portfolio_history s, holdings s, cash s)
  end.

End Engine.

Arguments DataFrame : clear implicits.
Arguments portfolio : clear implicits.
Arguments state : clear implicits.

(** Rationals that are rounded by [rnd] after every operation. *)
Definition rounded (rnd : Qc -> Qc) : arithmetic Qc :=
  {| zero := 0%Qc;
     one := 1%Qc;
     hundred := Q2Qc 100;
     add := fun a b => rnd (a + b)%Qc;
     mul := fun a b => rnd (a * b)%Qc;
     div := fun a b => rnd (a / b)%Qc;
     positive := fun p => bool_decide (0 < p)%Qc |}.

End FloatEngine.

(** The binary64 numbers of the machine, with the operations of IEEE
    754 in the rounding to nearest, ties to even. *)
Module Binary64.

Import PrimFloat.

Definition arithmetic : FloatEngine.arithmetic float :=
  {| FloatEngine.zero := 0%float;
     FloatEngine.one := 1%float;
     FloatEngine.hundred := 100%float;
     FloatEngine.add := PrimFloat.add;
     FloatEngine.mul := PrimFloat.mul;
     FloatEngine.div := PrimFloat.div;
     FloatEngine.positive := fun p => PrimFloat.ltb 0%float p |}.

(** One asset with the weight 1.0. *)
Definition one_asset : list (string * float) := [("AAPL"%string, 1%float)].

Definition monthly_one_asset : FloatEngine.portfolio float :=
  FloatEngine.mkPortfolio one_asset (Some "monthly"%string) None.

(** A table of one row at the price 0.11. *)
Definition price_011 : list (string * float) :=
  [("AAPL"%string, (11 / 100)%float)].

Definition one_day_011 : FloatEngine.DataFrame float :=
  FloatEngine.mkDataFrame ["AAPL"%string] [(jan15, price_011)].

(** Four rows in four consecutive months, at the constant price 0.3. *)
Definition price_03 : list (string * float) :=
  [("AAPL"%string, (3 / 10)%float)].

Definition four_months_03 : FloatEngine.DataFrame float :=
  FloatEngine.mkDataFrame ["AAPL"%string]
    [(jan15, price_03); (feb03, price_03); (mar01, price_03); (apr02, price_03)].

(** The state of the run on [four_months_03] from 1000 with a monthly
    top-up of 100, after the rows of January, February and March. *)
Definition state_after_march : FloatEngine.state float :=
  Eval vm_compute in
    match FloatEngine.loop arithmetic 0%float
            (FloatEngine.initial_state arithmetic four_months_03 monthly_one_asset
               1000%float 100%float)
            (take 3 (FloatEngine.iterrows four_months_03)) with
    | inr s => s
    | inl _ => FloatEngine.initial_state arithmetic four_months_03 monthly_one_asset
                 1000%float 100%float
    end.

End Binary64.

(** ** Notions used to state the properties of the engine in floating point *)

(** [x] is [e] up to [k] roundings of relative error at most [u]. *)
Definition within (u : Qc) (k : nat) (x e : Qc) : Prop :=
  ((1 - u) ^ k * e <= x)%Qc /\ (x <= (1 + u) ^ k * e)%Qc.

(** A rounding of relative error at most [u] on the numbers that are
    not negative: binary64 with [u] = 2^-53, as long as no result
    overflows or falls below the normal range. *)
Definition rounds_within (u : Qc) (rnd : Qc -> Qc) : Prop :=
  (0 <= u)%Qc /\ (u <= 1)%Qc /\
  forall x, (0 <= x)%Qc -> ((1 - u) * x <= rnd x)%Qc /\ (rnd x <= (1 + u) * x)%Qc.

(** The entry of a ticker in a row of prices or in the weights, zero
    where there is none. *)
Definition entry_of (d : list (string * Qc)) (t : string) : Qc :=
  match FloatEngine.dict_get d t with
  | inr v => v
  | inl _ => 0%Qc
  end.

(** The value of holdings at the prices of a row, and the sum of
    weights, without rounding. *)
Definition exact_value (prices holdings : list (string * Qc)) : Qc :=
  foldr (fun e acc => (snd e * entry_of prices (fst e) + acc)%Qc) 0%Qc holdings.

Definition sum_weights (weights : list (string * Qc)) : Qc :=
  foldr (fun e acc => (snd e + acc)%Qc) 0%Qc weights.

(** A row with a strictly positive price for every column. *)
Definition priced (columns : list string) (prices : list (string * Qc)) : Prop :=
  forall t, t ∈ columns ->
    exists p, FloatEngine.dict_get prices t = ok p /\ (0 < p)%Qc.

(** A row with a price that is not negative for every ticker of a
    list. *)
Definition quoted (tickers : list string) (prices : list (string * Qc)) : Prop :=
  forall t, t ∈ tickers ->
    exists p, FloatEngine.dict_get prices t = ok p /\ (0 <= p)%Qc.

(** A row without a negative price. *)
Definition nonnegative_row (prices : list (string * Qc)) : Prop :=
  Forall (fun e => (0 <= snd e)%Qc) prices.

(** Weights of a portfolio over the columns of a table: one entry for a
    ticker, none negative, for columns only. *)
Record weights_over (columns : list string) (weights : list (string * Qc)) : Prop :=
  mkWeightsOver {
  weights_nodup : NoDup (fst <$> weights);
  weights_columns : forall t, t ∈ (fst <$> weights) -> t ∈ columns;
  weights_nonneg : Forall (fun e => (0 <= snd e)%Qc) weights
}.

(** What the states of a run keep true when no input is negative: the
    holdings are those of the columns, none negative and zero outside
    the weights, and neither the cash nor the top-up is negative. *)
Record sound (columns : list string) (weights : list (string * Qc))
    (s : FloatEngine.state Qc) : Prop := mkSound {
  sound_keys : fst <$> FloatEngine.holdings s = columns;
  sound_weights :
    FloatEngine.target_weights (FloatEngine.the_portfolio s) = weights;
  sound_holdings : Forall (fun e => (0 <= snd e)%Qc) (FloatEngine.holdings s);
  sound_outside :
    Forall (fun e => FloatEngine.dict_get weights (fst e) = raise KeyError ->
                     snd e = 0%Qc) (FloatEngine.holdings s);
  sound_cash : (0 <= FloatEngine.cash s)%Qc;
  sound_topup : (0 <= FloatEngine.current_monthly_topup s)%Qc
}.

(** The exact worth of a state at the prices of a row. *)
Definition worth (prices : list (string * Qc)) (s : FloatEngine.state Qc) : Qc :=
  (exact_value prices (FloatEngine.holdings s) + FloatEngine.cash s)%Qc.

(** The entry of the holdings after the loop over the target weights:
    the units bought for a ticker that has a weight and a positive
    price, the old entry for any other. *)
Definition bought (rnd : Qc -> Qc) (weights prices : list (string * Qc))
    (total_value : Qc) (e : string * Qc) : string * Qc :=
  match FloatEngine.dict_get weights (fst e), FloatEngine.dict_get prices (fst e) with
  | inr w, inr p =>
      if bool_decide (0 < p)%Qc
      then (fst e, rnd (rnd (total_value * w) / p)%Qc)
      else e
  | _, _ => e
  end.

(** The weights of a list of tickers, added up. *)
Definition total_weight_on (weights : list (string * Qc)) (keys : list string) : Qc :=
  foldr (fun t acc => (entry_of weights t + acc)%Qc) 0%Qc keys.

(** What a run at constant prices keeps true of its state after [i]
    rows, where [E] is the initial investment with the top-ups added so
    far and [n] the number of columns: the worth of the state and the
    value of the last line are [E], and the top-up is its first amount,
    each up to a number of roundings that grows with [i]. *)
Definition tracks (u : Qc) (n : nat) (prices : list (string * Qc))
    (first_topup : Qc) (i : nat) (E : Qc) (s : FloatEngine.state Qc) : Prop :=
  within u ((n + 7) * i) (worth prices s) E /\
  within u (2 * i) (FloatEngine.current_monthly_topup s) first_topup /\
  (0 < i)%nat /\
  exists (d : Timestamp) (v : Qc),
    last (FloatEngine.portfolio_history s) = Some (d, v) /\
    within u ((n + 7) * i + n + 2) v E.

(** The rounding of binary64 on the rationals: to the nearest number
    with a significand of 53 bits, ties to the even one, with no bound
    on the exponent.  [ilog2 x] is the exponent of a positive [x]. *)
Definition ilog2 (x : Q) : Z :=
  let e := (Z.log2 (Qnum x) - Z.log2 (Zpos (Qden x)))%Z in
  if Qle_bool (2 ^ e) x then e else (e - 1)%Z.

Definition round_significand (x : Q) : Q :=
  let scale := (2 ^ (52 - ilog2 x))%Q in
  (inject_Z (round_half_even (Q2Qc (x * scale))) / scale)%Q.

Definition round_binary64 (x : Qc) : Qc :=
  match Qnum x with
  | Z0 => 0%Qc
  | Zpos _ => Q2Qc (round_significand x)
  | Zneg _ => Q2Qc (- round_significand (- x))
  end.

(** Half a unit in the last place of 1: 2^-53. *)
Definition unit_roundoff : Qc := Q2Qc (1 # 9007199254740992).

(** The engine on rationals that are rounded as binary64 numbers are. *)
Module Rounded64.

Definition arithmetic : FloatEngine.arithmetic Qc :=
  FloatEngine.rounded round_binary64.

Definition one_asset : list (string * Qc) := [("AAPL"%string, 1%Qc)].

Definition monthly_one_asset : FloatEngine.portfolio Qc :=
  FloatEngine.mkPortfolio one_asset (Some "monthly"%string) None.

(** The binary64 number that the literal [0.3] denotes. *)
Definition price_03 : list (string * Qc) :=
  [("AAPL"%string, round_binary64 (Q2Qc (3 # 10)))].

Definition four_months_03 : FloatEngine.DataFrame Qc :=
  FloatEngine.mkDataFrame ["AAPL"%string]
    [(jan15, price_03); (feb03, price_03); (mar01, price_03); (apr02, price_03)].

Definition state_after_march : FloatEngine.state Qc :=
  Eval vm_compute in
    match FloatEngine.loop arithmetic 0%Qc
            (FloatEngine.initial_state arithmetic four_months_03 monthly_one_asset
               (Q2Qc 1000) (Q2Qc 100))
            (take 3 (FloatEngine.iterrows four_months_03)) with
    | inr s => s
    | inl _ => FloatEngine.initial_state arithmetic four_months_03 monthly_one_asset
                 (Q2Qc 1000) (Q2Qc 100)
    end.


End Rounded64.

(** * Properties *)

(** ** The rebalancing policy *)

Section RebalancePolicy.

Import Portfolio.

Lemma should_rebalance_keeps_settings (self : t) (d : Timestamp) :
  target_weights (snd (should_rebalance self d)) = target_weights self /\
  rebalance_frequency (snd (should_rebalance self d)) = rebalance_frequency self.
Proof.
  unfold should_rebalance. destruct self as [w [freq|] [last|]]; simpl; try done.
  repeat match goal with
         | |- context [if ?b then _ else _] => destruct b
         end; done.
Qed.

(** A call on a portfolio that already stores a date. *)
Lemma should_rebalance_stored (self : t) (freq : string) (last d : Timestamp) :
  rebalance_frequency self = Some freq ->
  known_frequency freq ->
  _last_rebalance_date self = Some last ->
  should_rebalance self d =
    if decide (period freq d = period freq last)
    then (false, self) else (true, set_last self d).
Proof.
  intros Hf Hk Hl. unfold should_rebalance, period. rewrite Hf, Hl.
  destruct Hk as [-> | [-> | ->]]; simpl;
    match goal with
    | |- context [(?a =? ?b)%Z] => destruct (Z.eqb_spec a b)
    end; simpl; case_decide; congruence.
Qed.

(** The first call on a fresh portfolio with a frequency. *)
Lemma should_rebalance_first (self : t) (freq : string) (d : Timestamp) :
  rebalance_frequency self = Some freq ->
  _last_rebalance_date self = None ->
  should_rebalance self d = (false, set_last self d).
Proof. intros Hf Hl. unfold should_rebalance. by rewrite Hf, Hl. Qed.

(** Once a date is stored, every later call of a sequence finds one. *)
Lemma calls_stored (freq : string) (dates : list Timestamp) :
  forall (self : t) (last : Timestamp) (k : nat) (c : call),
    rebalance_frequency self = Some freq ->
    known_frequency freq ->
    _last_rebalance_date self = Some last ->
    calls self dates !! k = Some c ->
    dates !! k = Some (date c) /\
    rebalance_frequency (before c) = Some freq /\
    exists last', _last_rebalance_date (before c) = Some last' /\
      should_rebalance (before c) (date c) = (answer c, after c).
Proof.
  induction dates as [|d rest IH]; intros self last k c Hf Hk Hl Hc; [done|].
  simpl in Hc.
  destruct (should_rebalance self d) as [b self'] eqn:Hs.
  destruct k as [|k]; simpl in Hc.
  - injection Hc as <-. simpl. eauto 6.
  - pose proof (should_rebalance_keeps_settings self d) as [_ Hf'].
    rewrite Hs in Hf'. simpl in Hf'. rewrite Hf in Hf'.
    rewrite (should_rebalance_stored self freq last d Hf Hk Hl) in Hs.
    case_decide; injection Hs as <- <-.
    + eapply IH; eauto.
    + eapply (IH _ d); eauto.
Qed.

(** Every date of a sequence gets its call. *)
Lemma calls_length (self : t) (dates : list Timestamp) :
  length (calls self dates) = length dates.
Proof.
  revert self. induction dates as [|d rest IH]; intros self; simpl; [done|].
  destruct (should_rebalance self d) as [b self']. simpl. by rewrite IH.
Qed.

(** A portfolio with one of the three frequencies is asked about a
    sequence of dates, starting with no stored date.  Every call after
    the first finds a stored last-rebalance date; it answers true
    exactly when the attribute of the frequency (the month number for
    monthly, the quarter number for quarterly, the year for annually)
    of the current date differs from that of the stored date; when it
    answers true the stored date becomes the current date, and when it
    answers false the portfolio is left as it was. *)
Lemma should_rebalance_iff_period_differs
    (self : t) (freq : string) (dates : list Timestamp) (k : nat) (c : call) :
  rebalance_frequency self = Some freq ->
  known_frequency freq ->
  _last_rebalance_date self = None ->
  (0 < k)%nat ->
  calls self dates !! k = Some c ->
  dates !! k = Some (date c) /\
  exists last,
    _last_rebalance_date (before c) = Some last /\
    (answer c = true <-> period freq (date c) <> period freq last) /\
    (answer c = true -> _last_rebalance_date (after c) = Some (date c)) /\
    (answer c = false -> after c = before c).
Proof.
  intros Hf Hk Hl Hpos Hc.
  destruct dates as [|d0 rest]; [done|].
  destruct k as [|k]; [lia|].
  simpl in Hc. rewrite (should_rebalance_first self freq d0 Hf Hl) in Hc.
  simpl in Hc.
  destruct (calls_stored freq rest (set_last self d0) d0 k c)
    as (Hd & Hfc & last & Hlast & Hcall); try done.
  split; [done|]. exists last. split; [done|].
  rewrite (should_rebalance_stored _ freq last _ Hfc Hk Hlast) in Hcall.
  case_decide; injection Hcall as <- <-; simpl; intuition congruence.
Qed.

(** C10.  With frequency [None] every call of every sequence of calls
    answers false and returns the portfolio it was given: the stored
    last-rebalance date is never written, not by the first call and not
    by a later one. *)
Theorem buy_and_hold_never_rebalances
    (self : t) (dates : list Timestamp) (k : nat) (c : call) :
  rebalance_frequency self = None ->
  calls self dates !! k = Some c ->
  answer c = false /\ before c = self /\ after c = self /\
  _last_rebalance_date (after c) = _last_rebalance_date self.
Proof.
  intros Hf. revert k. induction dates as [|d rest IH]; intros k Hc; [done|].
  simpl in Hc. unfold should_rebalance in Hc. rewrite Hf in Hc.
  destruct k as [|k]; simpl in Hc.
  - by injection Hc as <-.
  - by apply (IH k).
Qed.

End RebalancePolicy.

Example monthly_answers :
  Portfolio.answer <$> Portfolio.calls monthly_policy [jan15; jan20; feb03]
  = [false; false; true].
Proof. reflexivity. Qed.

(** The month number is compared, not the month of a given year: a date
    one year later, in the same month, is not a new period. *)
Example monthly_same_month_next_year :
  Portfolio.answer <$>
    Portfolio.calls monthly_policy [jan15; mkTimestamp 2025 1 15]
  = [false; false].
Proof. reflexivity. Qed.

Lemma buy_and_hold_never_rebalances_witness :
  false = false /\ buy_and_hold_policy = buy_and_hold_policy /\
  buy_and_hold_policy = buy_and_hold_policy /\
  @None Timestamp = None.
Proof.
  apply (buy_and_hold_never_rebalances buy_and_hold_policy [jan15; jan20; feb03] 2
           (Portfolio.mkCall buy_and_hold_policy feb03 false buy_and_hold_policy)).
  - reflexivity.
  - reflexivity.
Defined.

(** ** Construction of a portfolio *)

Section Rounding.

Local Open Scope Q_scope.

(** The nearest integer lies within one half of the number. *)
Lemma round_half_even_near (q : Qc) :
  inject_Z (round_half_even q) - (1 # 2) <= this q /\
  this q <= inject_Z (round_half_even q) + (1 # 2).
Proof.
  unfold round_half_even. destruct q as [[n d] Hc]. simpl.
  pose proof (Z.div_mod n (Zpos d) ltac:(lia)) as Hdm.
  pose proof (Z.mod_pos_bound n (Zpos d) ltac:(lia)) as Hb.
  set (fl := (n / Zpos d)%Z) in *. set (r := (n mod Zpos d)%Z) in *.
  unfold Qle, Qplus, Qminus, Qopp, inject_Z; simpl.
  repeat match goal with
         | |- context [if ?b then _ else _] => destruct b eqn:?
         end; split; nia.
Qed.

Lemma this_Qcmult (a b : Qc) : this (a * b)%Qc == this a * this b.
Proof. simpl. apply Qred_correct. Qed.

(** A number whose rounding to five decimals is [1] is within
    [5e-6] of [1]. *)
Lemma py_round5_one (x : Qc) :
  py_round x 5 = 1%Qc ->
  1 - (1 # 200000) <= this x /\ this x <= 1 + (1 # 200000).
Proof.
  unfold py_round. intros H.
  apply (f_equal this) in H. simpl in H.
  set (y := (x * Q2Qc (inject_Z (10 ^ Z.of_nat 5)))%Qc) in *.
  assert (Hr : round_half_even y = 100000%Z).
  { pose proof (Qred_correct (inject_Z (round_half_even y) / inject_Z (10 ^ Z.of_nat 5))) as Hq.
    rewrite H in Hq. change (10 ^ Z.of_nat 5)%Z with 100000%Z in Hq.
    unfold Qeq, Qdiv, Qmult, Qinv, inject_Z in Hq. simpl in Hq. lia. }
  pose proof (round_half_even_near y) as [Hlo Hhi]. rewrite Hr in Hlo, Hhi.
  pose proof (this_Qcmult x (Q2Qc (inject_Z (10 ^ Z.of_nat 5)))) as Hy.
  fold y in Hy. change (this (Q2Qc (inject_Z (10 ^ Z.of_nat 5)))) with (100000 # 1) in Hy.
  rewrite Hy in Hlo, Hhi. change (inject_Z 100000) with (100000 # 1) in Hlo, Hhi.
  clear H Hr Hy. clearbody y. split; lra.
Qed.

End Rounding.

Section Construction.

Import Portfolio.

(** What [__init__] decides: it builds the portfolio exactly when the
    sum of the weights rounds to [1] at five decimals. *)
Lemma init_cases (w : gmap string Qc) (f : option string) :
  (py_round (sum_values w) 5 = 1%Qc /\ __init__ w f = ok (mk w f None)) \/
  (py_round (sum_values w) 5 <> 1%Qc /\ __init__ w f = raise ValueError).
Proof. unfold __init__. case_decide; [left|right]; done. Qed.

(** C7.  The constructor succeeds only for weights whose sum is within
    [1e-5] of [1]; weights whose sum is 0.95 or 1.05 are refused with
    [ValueError], the validation error of the constructor. *)
Theorem init_requires_unit_sum (w : gmap string Qc) (f : option string) :
  (forall p : t, __init__ w f = ok p ->
     p = mk w f None /\
     (1 - tolerance <= sum_values w)%Qc /\ (sum_values w <= 1 + tolerance)%Qc) /\
  (sum_values w = Q2Qc (95 # 100) \/ sum_values w = Q2Qc (105 # 100) ->
     __init__ w f = raise ValueError).
Proof.
  split.
  - intros p Hp.
    destruct (init_cases w f) as [[Hr Hi] | [_ Hi]]; rewrite Hi in Hp; [|done].
    injection Hp as <-. split; [done|].
    destruct (py_round5_one _ Hr) as [Hlo Hhi].
    unfold Qcle. split.
    + eapply Qle_trans; [|exact Hlo]. by vm_compute.
    + eapply Qle_trans; [exact Hhi|]. by vm_compute.
  - intros Hs.
    destruct (init_cases w f) as [[Hr _] | [_ Hi]]; [|done].
    exfalso. apply (f_equal this) in Hr.
    destruct Hs as [Hs | Hs]; rewrite Hs in Hr; vm_compute in Hr; discriminate.
Qed.

End Construction.

Lemma init_requires_unit_sum_witness :
  (Portfolio.mk weights_60_40 (Some "monthly"%string) None
   = Portfolio.mk weights_60_40 (Some "monthly"%string) None /\
   (1 - tolerance <= sum_values weights_60_40)%Qc /\
   (sum_values weights_60_40 <= 1 + tolerance)%Qc) /\
  Portfolio.__init__ weights_sum_095 None = raise ValueError /\
  Portfolio.__init__ weights_sum_105 None = raise ValueError.
Proof.
  split; [|split].
  - apply (proj1 (init_requires_unit_sum weights_60_40 (Some "monthly"%string))).
    reflexivity.
  - apply (proj2 (init_requires_unit_sum weights_sum_095 None)).
    left. apply Qc_is_canon. reflexivity.
  - apply (proj2 (init_requires_unit_sum weights_sum_105 None)).
    right. apply Qc_is_canon. reflexivity.
Defined.

(** ** The risk report *)

Section RiskReport.

Context {cell metrics figure : Type}.
Context (nan : cell) (isna : cell -> bool) (log_ratio : cell -> cell -> cell).
Context (analyse : list cell -> list (list cell) -> metrics * figure).

Local Abbreviation DataFrame := (Risk.DataFrame cell).
Local Abbreviation report := (Risk.generate_risk_report cell nan isna log_ratio metrics figure analyse).
Local Abbreviation returns := (Risk.log_returns cell nan isna log_ratio).

(** The weights of all the columns are found when every column has a
    weight. *)
Lemma ordered_covered (weights : gmap string cell) (tickers : list string) :
  (forall ticker, ticker ∈ tickers -> is_Some (weights !! ticker)) ->
  exists ws, Risk.ordered cell weights tickers = ok ws.
Proof.
  induction tickers as [|ticker rest IH]; intros Hcov; simpl; [by eexists|].
  destruct (Hcov ticker) as [w ->]; [by left|].
  destruct IH as [ws ->]; [|by eexists].
  intros t Ht. apply Hcov. by right.
Qed.

(** C6.  A frame with fewer than two lines gets [(None, None)].  A
    frame restricted to the held assets (every column has a weight),
    of which fewer than two lines of returns remain after the
    differencing and the removal of incomplete lines, gets
    [(None, None)] as well. *)
Theorem risk_report_insufficient_data
    (price_data : DataFrame) (weights : gmap string cell) :
  ((length (Risk.values cell price_data) < 2)%nat ->
     report price_data weights = ok (None, None)) /\
  ((forall ticker, ticker ∈ Risk.columns cell price_data ->
                   is_Some (weights !! ticker)) ->
   (length (returns price_data) < 2)%nat ->
     report price_data weights = ok (None, None)).
Proof.
  unfold Risk.generate_risk_report, Risk.shape. simpl. split.
  - intros Hrows.
    destruct (Nat.ltb_spec (length (Risk.values cell price_data)) 2); [done|lia].
  - intros Hcov Hret.
    destruct (_ || _); [done|].
    destruct (ordered_covered weights _ Hcov) as [ws ->].
    destruct (Nat.ltb_spec (length (returns price_data)) 2); [done|lia].
Qed.

(** The differencing loses the first line: its cells are compared with
    the [NaN] fill, so that the line is removed with the incomplete
    ones. *)
Lemma log_returns_lose_first_line (price_data : DataFrame) :
  (forall x, isna (log_ratio x nan) = true) ->
  Risk.columns cell price_data <> [] ->
  Forall (fun row => snd row <> []) (Risk.values cell price_data) ->
  (length (returns price_data) <= length (Risk.values cell price_data) - 1)%nat.
Proof.
  intros Hnan Hcols Hcells.
  unfold Risk.log_returns, Risk.log_of_ratio, Risk.shift1, Risk.dropna.
  destruct (Risk.values cell price_data) as [|[d0 cells0] rest]; [done|].
  apply Forall_cons in Hcells as [Hc0 _]. simpl in Hc0.
  destruct cells0 as [|c0 cells0]; [done|].
  destruct (Risk.columns cell price_data) as [|col cols']; [done|].
  cbn [Risk.shift_from zip_with length replicate List.filter snd fst existsb].
  rewrite Hnan. cbn [orb negb].
  etransitivity; [apply List.filter_length_le|].
  rewrite length_zip_with. simpl. lia.
Qed.

End RiskReport.

Lemma risk_report_insufficient_data_witness :
  Risk.generate_risk_report _ Forecasting.NaN cell_isna cell_log_ratio _ _
    cell_analyse one_row_prices unit_weight = ok (None, None) /\
  Risk.generate_risk_report _ Forecasting.NaN cell_isna cell_log_ratio _ _
    cell_analyse two_row_prices unit_weight = ok (None, None).
Proof.
  split.
  - apply (proj1 (risk_report_insufficient_data Forecasting.NaN cell_isna
                    cell_log_ratio cell_analyse one_row_prices unit_weight)).
    simpl. lia.
  - apply (proj2 (risk_report_insufficient_data Forecasting.NaN cell_isna
                    cell_log_ratio cell_analyse two_row_prices unit_weight)).
    + intros ticker Ht. apply list_elem_of_singleton in Ht. subst ticker.
      by eexists.
    + vm_compute. lia.
Defined.

(** Three rows leave two lines of returns, which are analysed; two rows
    without a weight for the column stop at the lookup of the weight. *)
Example risk_report_three_rows :
  Risk.generate_risk_report _ Forecasting.NaN cell_isna cell_log_ratio _ _
    cell_analyse three_row_prices unit_weight = ok (Some 1%nat, Some 2%nat).
Proof. vm_compute. reflexivity. Qed.

Example risk_report_missing_weight :
  Risk.generate_risk_report _ Forecasting.NaN cell_isna cell_log_ratio _ _
    cell_analyse two_row_prices ∅ = raise KeyError.
Proof. reflexivity. Qed.

(** ** The Monte Carlo forecast *)

Section Forecast.

Import Forecasting.

Context (sqrt : Qc -> Qc) {G : Type} (standard_normal : G -> Qc * G).

Local Abbreviation run := (run_monte_carlo_simulation sqrt G standard_normal).
Local Abbreviation draws := (Forecasting.draws G standard_normal).
Local Abbreviation normal := (Forecasting.normal G standard_normal).
Local Abbreviation simulations := (Forecasting.simulations G standard_normal).

Lemma draws_length (n : nat) (g : G) : length (fst (draws n g)) = n.
Proof.
  revert g. induction n as [|n IH]; intros g; simpl; [done|].
  destruct (standard_normal g) as [z g1]. specialize (IH g1).
  destruct (draws n g1) as [zs g2]. simpl in *. by rewrite IH.
Qed.

Lemma draws_add (n m : nat) (g : G) :
  snd (draws (n + m) g) = snd (draws m (snd (draws n g))).
Proof.
  revert g. induction n as [|n IH]; intros g; simpl; [done|].
  destruct (standard_normal g) as [z g1]. specialize (IH g1).
  destruct (draws (n + m) g1) as [zs g2]. destruct (draws n g1) as [zs' g2'].
  simpl in *. done.
Qed.

Lemma normal_accepted (loc scale : float) (size : nat) (g : G) :
  accepted scale ->
  normal loc scale size g =
    (ok ((fun z => fadd loc (fmul scale (Fin z))) <$> fst (draws size g)),
     snd (draws size g)).
Proof.
  intros Ha. unfold Forecasting.normal.
  destruct scale as [s|]; simpl in Ha.
  - case_decide; [done|]. by destruct (draws size g).
  - by destruct (draws size g).
Qed.

Lemma price_path_length (shocks : list float) (i : nat) :
  forall (j0 : nat) (p : float) (m : list (list float)),
    length (price_path shocks i j0 p m) = length m.
Proof.
  induction shocks as [|s rest IH]; intros j0 p m; simpl; [done|].
  rewrite IH. unfold set_cell. apply length_alter.
Qed.

(** With an accepted scale the loop over the simulations ends without
    an exception, keeps the number of lines of the matrix, and has taken
    [num_days] draws for each simulation. *)
Lemma simulations_accepted (mu sigma v : float) (num_days : nat) :
  accepted sigma ->
  forall (todo i : nat) (m : list (list float)) (g : G),
    exists m',
      simulations mu sigma v num_days todo i m g
        = (ok m', snd (draws (todo * num_days) g)) /\
      length m' = length m.
Proof.
  intros Ha. induction todo as [|todo IH]; intros i m g; simpl; [by eexists|].
  rewrite (normal_accepted mu sigma num_days g Ha). unfold ok. cbv beta iota.
  destruct (IH (S i)
     (price_path ((fun z => fadd mu (fmul sigma (Fin z))) <$> fst (draws num_days g))
        i 0 v m) (snd (draws num_days g))) as (m' & Hm' & Hlen).
  exists m'. rewrite Hm', Hlen, price_path_length, draws_add. done.
Qed.

Lemma std_accepted (values : list float) :
  (forall x, (0 <= sqrt x)%Qc) -> accepted (std sqrt values).
Proof.
  intros Hs. unfold std. destruct (_ <=? _)%nat; simpl; [done|].
  apply Qcle_not_lt, Hs.
Qed.

Lemma zeros_ok (rows cols : Z) :
  0 <= rows -> 0 <= cols ->
  zeros rows cols
    = ok (replicate (Z.to_nat rows) (replicate (Z.to_nat cols) (Fin 0%Qc))).
Proof.
  intros Hr Hc. unfold zeros.
  destruct (Z.ltb_spec rows 0); [lia|]. destruct (Z.ltb_spec cols 0); [lia|]. done.
Qed.

(** A call with an accepted scale and dimensions that are not negative:
    the loop over the simulations runs to its end, and only then is the
    last date of the history read. *)
Lemma run_accepted (historical_returns : list (Timestamp * float))
    (projection_years : Z) (initial_value : float) (num_simulations : Z) (g : G) :
  accepted (std sqrt (snd <$> historical_returns)) ->
  0 <= projection_years -> 0 <= num_simulations ->
  exists m,
    simulations (mean (snd <$> historical_returns))
      (std sqrt (snd <$> historical_returns)) initial_value
      (Z.to_nat (projection_years * 252)) (Z.to_nat num_simulations) 0
      (replicate (Z.to_nat (projection_years * 252))
         (replicate (Z.to_nat num_simulations) (Fin 0%Qc))) g
      = (ok m, snd (draws (Z.to_nat num_simulations * Z.to_nat (projection_years * 252)) g)) /\
    length m = Z.to_nat (projection_years * 252) /\
    run historical_returns projection_years initial_value num_simulations g
      = (match last (fst <$> historical_returns) with
         | None => raise IndexError
         | Some last_date =>
             if (projection_years * 252 =? 0) && (num_simulations =? 0)
             then raise ValueError
             else ok (zip (future_dates last_date (Z.to_nat (projection_years * 252)))
                        (quantiles <$> m))
         end,
         snd (draws (Z.to_nat num_simulations * Z.to_nat (projection_years * 252)) g)).
Proof.
  intros Ha Hy Hn. unfold run_monte_carlo_simulation.
  rewrite zeros_ok by lia.
  destruct (simulations_accepted (mean (snd <$> historical_returns)) _ initial_value
              (Z.to_nat (projection_years * 252)) Ha (Z.to_nat num_simulations) 0
              (replicate (Z.to_nat (projection_years * 252))
                 (replicate (Z.to_nat num_simulations) (Fin 0%Qc))) g)
    as (m & Hm & Hlen).
  rewrite length_replicate in Hlen.
  exists m. split; [exact Hm|]. split; [exact Hlen|].
  unfold ok in *. cbv beta iota. rewrite Hm.
  unfold last_index. destruct (last _); [|done].
  cbv beta iota zeta. by destruct ((_ =? 0) && (_ =? 0)).
Qed.

(** [quantile] has columns or lines to work on as soon as one of the two
    dimensions is positive. *)
Lemma some_dimension_positive (projection_years num_simulations : Z) :
  0 < projection_years \/ 0 < num_simulations ->
  (projection_years * 252 =? 0) && (num_simulations =? 0) = false.
Proof.
  intros H. apply andb_false_iff.
  destruct H; [left|right]; apply Z.eqb_neq; lia.
Qed.

(** C9.  For a history with at least one return, a positive number of
    years and a positive number of paths, the call returns a frame, and
    the frame has [projection_years * 252] lines.  The square root is any
    function without negative values. *)
Theorem forecast_row_count
    (historical_returns : list (Timestamp * float))
    (projection_years : Z) (initial_value : float) (num_simulations : Z) (g : G) :
  (forall x, (0 <= sqrt x)%Qc) ->
  historical_returns <> [] ->
  0 < projection_years ->
  0 < num_simulations ->
  exists forecast_df g',
    run historical_returns projection_years initial_value num_simulations g
      = (ok forecast_df, g') /\
    Z.of_nat (length forecast_df) = projection_years * 252.
Proof.
  intros Hs Hne Hy Hn.
  destruct (last (fst <$> historical_returns)) as [last_date|] eqn:Hlast.
  2: { apply last_None, fmap_nil_inv in Hlast. done. }
  destruct (run_accepted historical_returns projection_years initial_value
              num_simulations g) as (m & _ & Hlen & Hrun);
    [by apply std_accepted | lia | lia |].
  rewrite Hlast, some_dimension_positive in Hrun by (left; lia).
  eexists _, _. split; [exact Hrun|].
  rewrite length_zip, length_fmap, Hlen. unfold future_dates.
  rewrite length_fmap, length_seq. lia.
Qed.

(** C2, as the code has it.  On an empty history the call raises, but
    never [InsufficientDataError]: a negative number of years or of
    paths raises [ValueError] when the matrix is allocated; otherwise
    the mean and the deviation are [NaN], the whole simulation loop runs
    on them, taking all its draws from the generator, and [IndexError]
    is raised afterwards, when the last date of the history is read. *)
Theorem empty_history_raises_index_error
    (projection_years : Z) (initial_value : float) (num_simulations : Z) (g : G) :
  run [] projection_years initial_value num_simulations g
  = (if (projection_years <? 0) || (num_simulations <? 0)
     then (raise ValueError, g)
     else (raise IndexError,
           snd (draws (Z.to_nat num_simulations * Z.to_nat (projection_years * 252)) g))) /\
  fst (run [] projection_years initial_value num_simulations g)
  <> raise InsufficientDataError.
Proof.
  assert (Hrun :
    run [] projection_years initial_value num_simulations g
    = (if (projection_years <? 0) || (num_simulations <? 0)
       then (raise ValueError, g)
       else (raise IndexError,
             snd (draws (Z.to_nat num_simulations
                         * Z.to_nat (projection_years * 252)) g)))).
  { destruct (Z.ltb_spec projection_years 0) as [Hy|Hy];
      [|destruct (Z.ltb_spec num_simulations 0) as [Hn|Hn]]; cbn [orb].
    - unfold run_monte_carlo_simulation, zeros.
      by destruct (Z.ltb_spec (projection_years * 252) 0); [|lia].
    - unfold run_monte_carlo_simulation, zeros.
      destruct (Z.ltb_spec num_simulations 0); [|lia]. by rewrite orb_true_r.
    - destruct (run_accepted [] projection_years initial_value num_simulations g)
        as (m & _ & _ & Hrun); [done | lia | lia |].
      exact Hrun. }
  split; [exact Hrun|]. rewrite Hrun.
  by destruct (_ || _).
Qed.

(** The mean and the deviation of a history of zero returns. *)
Lemma finite_values_zero (historical_returns : list (Timestamp * float)) :
  Forall (fun r => snd r = Fin 0%Qc) historical_returns ->
  finite_values (snd <$> historical_returns)
    = replicate (length historical_returns) 0%Qc.
Proof.
  induction 1 as [|[d x] rest Hx _ IH]; [done|]. simpl in Hx. subst x.
  cbn. f_equal. exact IH.
Qed.

Lemma Qc_sum_zero (n : nat) : Qc_sum (replicate n 0%Qc) = 0%Qc.
Proof. induction n as [|n IH]; simpl; [done|]. rewrite IH. ring. Qed.

Lemma mean_zero (historical_returns : list (Timestamp * float)) :
  historical_returns <> [] ->
  Forall (fun r => snd r = Fin 0%Qc) historical_returns ->
  mean (snd <$> historical_returns) = Fin 0%Qc.
Proof.
  intros Hne Hz. unfold mean. rewrite (finite_values_zero _ Hz).
  destruct historical_returns as [|r rest]; [done|].
  rewrite Qc_sum_zero. simpl. f_equal. unfold Qcdiv. ring.
Qed.

Lemma std_zero (historical_returns : list (Timestamp * float)) :
  sqrt 0%Qc = 0%Qc ->
  (2 <= length historical_returns)%nat ->
  Forall (fun r => snd r = Fin 0%Qc) historical_returns ->
  std sqrt (snd <$> historical_returns) = Fin 0%Qc.
Proof.
  intros Hs Hlen Hz. unfold std. rewrite (finite_values_zero _ Hz).
  rewrite length_replicate.
  destruct (Nat.leb_spec (length historical_returns) 1); [lia|].
  rewrite fmap_replicate, !Qc_sum_zero.
  replace (0 / Qc_of_nat (length historical_returns - 1))%Qc with 0%Qc
    by (unfold Qcdiv; ring).
  by rewrite Hs.
Qed.

(** With a zero mean and a zero deviation every price of a path is the
    initial value: the inner loop writes it into column [i] of every
    line it visits. *)
Lemma price_path_flat (v : Qc) (i n : nat) (R : list float) :
  forall (pre post : list (list float)),
    price_path (replicate n (Fin 0%Qc)) i (length pre) (Fin v)
      (pre ++ replicate n R ++ post)
    = pre ++ replicate n (<[i := Fin v]> R) ++ post.
Proof.
  induction n as [|n IH]; intros pre post; simpl; [done|].
  replace (v * (1 + 0))%Qc with v by ring.
  unfold set_cell.
  replace (length pre) with (length pre + 0)%nat at 2 by lia.
  rewrite alter_app_r. simpl.
  specialize (IH (pre ++ [<[i := Fin v]> R]) post).
  rewrite length_app in IH. simpl in IH.
  replace (length pre + 1)%nat with (S (length pre)) in IH by lia.
  rewrite <- !app_assoc in IH. simpl in IH. exact IH.
Qed.

Lemma price_path_flat_all (v : Qc) (i n : nat) (R : list float) :
  price_path (replicate n (Fin 0%Qc)) i 0 (Fin v) (replicate n R)
  = replicate n (<[i := Fin v]> R).
Proof.
  pose proof (price_path_flat v i n R [] []) as Hp.
  rewrite !app_nil_r in Hp. exact Hp.
Qed.

Lemma simulations_flat (v : Qc) (num_days : nat) :
  forall (todo i : nat) (g : G),
    simulations (Fin 0%Qc) (Fin 0%Qc) (Fin v) num_days todo i
      (replicate num_days (replicate i (Fin v) ++ replicate todo (Fin 0%Qc))) g
    = (ok (replicate num_days (replicate (i + todo) (Fin v))),
       snd (draws (todo * num_days) g)).
Proof.
  induction todo as [|todo IH]; intros i g.
  - simpl. by rewrite app_nil_r, Nat.add_0_r.
  - cbn [Forecasting.simulations].
    rewrite normal_accepted by (simpl; apply Qcle_not_lt, Qcle_refl).
    unfold ok. cbv beta iota.
    assert (Hshocks :
      (fun z => fadd (Fin 0%Qc) (fmul (Fin 0%Qc) (Fin z))) <$> fst (draws num_days g)
      = replicate num_days (Fin 0%Qc)).
    { rewrite <- (draws_length num_days g) at 2.
      generalize (fst (draws num_days g)). intros zs.
      induction zs as [|z zs IHz]; [done|]. cbn. f_equal. exact IHz. }
    rewrite Hshocks.
    rewrite price_path_flat_all.
    replace (<[i := Fin v]> (replicate i (Fin v) ++ replicate (S todo) (Fin 0%Qc)))
      with (replicate (S i) (Fin v) ++ replicate todo (Fin 0%Qc)).
    2: { rewrite insert_app_r_alt by (rewrite length_replicate; lia).
         rewrite length_replicate, Nat.sub_diag.
         rewrite replicate_S_end, <- app_assoc. reflexivity. }
    rewrite IH. unfold ok.
    replace (S i + todo)%nat with (i + S todo)%nat by lia.
    replace (S todo * num_days)%nat with (num_days + todo * num_days)%nat by lia.
    by rewrite draws_add.
Qed.

(** The quantiles of a line whose entries are all the same number. *)
Lemma sort_replicate (n : nat) (v : Qc) : sort (replicate n v) = replicate n v.
Proof.
  induction n as [|n IH]; [done|].
  change (sort (replicate (S n) v)) with (insert_sorted v (sort (replicate n v))).
  rewrite IH. destruct n as [|n]; simpl; [done|].
  by rewrite (proj2 (Qle_bool_iff v v) (Qle_refl v)).
Qed.

Lemma nth_replicate_same (n k : nat) (v : Qc) : nth k (replicate n v) v = v.
Proof. revert k. induction n as [|n IH]; intros [|k]; simpl; auto. Qed.

Lemma quantile_flat (q v : Qc) (n : nat) :
  (0 < n)%nat -> quantile q (replicate n (Fin v)) = Fin v.
Proof.
  intros Hn. unfold quantile.
  assert (Hf : finite_values (replicate n (Fin v)) = replicate n v).
  { clear Hn. induction n as [|n IH]; simpl; [done|]. by rewrite IH. }
  rewrite Hf, sort_replicate. destruct n as [|n]; [lia|].
  change (replicate (S n) v) with (v :: replicate n v) at 1.
  cbv beta iota. rewrite !nth_replicate_same. f_equal. ring.
Qed.

(** C5, with the bound on the history that the code needs.  For a
    history of at least two returns, all zero, a positive number of
    years and of paths and any finite initial value (a positive one in
    particular), the call returns a frame with one line for each future
    day, and the five quantile columns equal the initial value on every
    line.  The square root is any function that maps zero to zero. *)
Theorem zero_returns_flat_forecast
    (historical_returns : list (Timestamp * float))
    (projection_years : Z) (v : Qc) (num_simulations : Z) (g : G) :
  sqrt 0%Qc = 0%Qc ->
  (2 <= length historical_returns)%nat ->
  Forall (fun r => snd r = Fin 0%Qc) historical_returns ->
  0 < projection_years ->
  0 < num_simulations ->
  exists forecast_df g',
    run historical_returns projection_years (Fin v) num_simulations g
      = (ok forecast_df, g') /\
    Z.of_nat (length forecast_df) = projection_years * 252 /\
    forall line, line ∈ forecast_df ->
      snd line = mkRow (Fin v) (Fin v) (Fin v) (Fin v) (Fin v).
Proof.
  intros Hs Hlen Hz Hy Hn.
  assert (Hne : historical_returns <> []) by (destruct historical_returns; simpl in *; [lia|done]).
  destruct (last (fst <$> historical_returns)) as [last_date|] eqn:Hlast.
  2: { apply last_None, fmap_nil_inv in Hlast. done. }
  destruct (run_accepted historical_returns projection_years (Fin v)
              num_simulations g) as (m & Hm & Hlenm & Hrun);
    [rewrite (std_zero _ Hs Hlen Hz); simpl; apply Qcle_not_lt, Qcle_refl | lia | lia |].
  rewrite Hlast, some_dimension_positive in Hrun by (left; lia).
  rewrite (mean_zero _ Hne Hz), (std_zero _ Hs Hlen Hz) in Hm.
  pose proof (simulations_flat v (Z.to_nat (projection_years * 252))
                (Z.to_nat num_simulations) 0 g) as Hflat.
  simpl in Hflat. rewrite Hflat in Hm. injection Hm as Hm. subst m.
  eexists _, _. split; [exact Hrun|]. split.
  - rewrite length_zip, length_fmap, length_replicate. unfold future_dates.
    rewrite length_fmap, length_seq. lia.
  - intros [d row] Hin. apply elem_of_zip_r in Hin. simpl.
    rewrite fmap_replicate in Hin. apply elem_of_replicate_inv in Hin. subst row.
    unfold quantiles. rewrite !quantile_flat by lia. done.
Qed.

End Forecast.

Lemma sqrt_floor_nonneg (x : Qc) : (0 <= sqrt_floor x)%Qc.
Proof.
  unfold sqrt_floor, Qcle.
  change (0 <= Qred (inject_Z (Z.sqrt (Qnum x * Zpos (Qden x)))
                     / inject_Z (Zpos (Qden x))))%Q.
  rewrite Qred_correct.
  apply Qle_shift_div_l; [reflexivity|].
  rewrite Qmult_0_l. unfold Qle. simpl.
  pose proof (Z.sqrt_nonneg (Qnum x * Z.pos (Qden x))). lia.
Qed.

Lemma sqrt_floor_zero : sqrt_floor 0%Qc = 0%Qc.
Proof. apply Qc_is_canon. reflexivity. Qed.

Lemma forecast_row_count_witness :
  exists forecast_df g',
    Forecasting.run_monte_carlo_simulation sqrt_floor nat counting_normal
      three_returns 10 (Forecasting.Fin (Q2Qc 1000))
      Forecasting.num_simulations_default 0%nat = (ok forecast_df, g') /\
    Z.of_nat (length forecast_df) = 10 * 252.
Proof.
  apply (forecast_row_count sqrt_floor counting_normal three_returns 10
           (Forecasting.Fin (Q2Qc 1000)) Forecasting.num_simulations_default 0%nat).
  - apply sqrt_floor_nonneg.
  - discriminate.
  - lia.
  - reflexivity.
Defined.

Lemma zero_returns_flat_forecast_witness :
  exists forecast_df g',
    Forecasting.run_monte_carlo_simulation sqrt_floor nat counting_normal
      two_zero_returns 1 (Forecasting.Fin (Q2Qc 1000))
      Forecasting.num_simulations_default 0%nat = (ok forecast_df, g') /\
    Z.of_nat (length forecast_df) = 1 * 252 /\
    forall line, line ∈ forecast_df ->
      snd line = Forecasting.mkRow (Forecasting.Fin (Q2Qc 1000))
                   (Forecasting.Fin (Q2Qc 1000)) (Forecasting.Fin (Q2Qc 1000))
                   (Forecasting.Fin (Q2Qc 1000)) (Forecasting.Fin (Q2Qc 1000)).
Proof.
  apply (zero_returns_flat_forecast sqrt_floor counting_normal two_zero_returns 1
           (Q2Qc 1000) Forecasting.num_simulations_default 0%nat).
  - apply sqrt_floor_zero.
  - simpl. lia.
  - repeat constructor.
  - lia.
  - reflexivity.
Defined.

(** One zero return, one year, two paths: the deviation of a single
    observation is [NaN], and so is every quantile of every line, where
    C5 as stated promises the initial value. *)
Lemma single_zero_return_counterexample :
  one_zero_return <> [] /\
  Forall (fun r => snd r = Forecasting.Fin 0%Qc) one_zero_return /\
  fst (Forecasting.run_monte_carlo_simulation sqrt_floor nat counting_normal
         one_zero_return 1 (Forecasting.Fin (Q2Qc 1000)) 2 0%nat)
  = ok (zip (Forecasting.future_dates jan15 252) (replicate 252 nan_row)) /\
  Forecasting.median nan_row <> Forecasting.Fin (Q2Qc 1000).
Proof.
  split; [discriminate|]. split; [repeat constructor|].
  split; [vm_compute; reflexivity | discriminate].
Qed.

(** An empty history, one year, the default 500 paths: the exception is
    [IndexError], raised after the simulation loop, where C2 as stated
    promises [InsufficientDataError] and no computation. *)
Lemma empty_history_counterexample :
  fst (Forecasting.run_monte_carlo_simulation sqrt_floor nat counting_normal
         [] 1 (Forecasting.Fin (Q2Qc 1000)) Forecasting.num_simulations_default 0%nat)
  = raise IndexError /\
  fst (Forecasting.run_monte_carlo_simulation sqrt_floor nat counting_normal
         [] 1 (Forecasting.Fin (Q2Qc 1000)) Forecasting.num_simulations_default 0%nat)
  <> raise InsufficientDataError.
Proof.
  destruct (run_accepted sqrt_floor counting_normal [] 1
              (Forecasting.Fin (Q2Qc 1000)) Forecasting.num_simulations_default 0%nat)
    as (m & _ & _ & Hrun); [exact I | lia | discriminate |].
  rewrite Hrun. split; [reflexivity | discriminate].
Qed.

(** An empty history with two paths: the exception comes after all the
    504 draws of the simulation loop. *)
Example empty_history_two_paths :
  Forecasting.run_monte_carlo_simulation sqrt_floor nat counting_normal
    [] 1 (Forecasting.Fin (Q2Qc 1000)) 2 0%nat
  = (raise IndexError, 504%nat).
Proof. vm_compute. reflexivity. Qed.

(** A negative number of years is refused before anything is drawn. *)
Example empty_history_negative_years :
  Forecasting.run_monte_carlo_simulation sqrt_floor nat counting_normal
    [] (-1) (Forecasting.Fin (Q2Qc 1000)) 2 0%nat
  = (raise ValueError, 0%nat).
Proof. reflexivity. Qed.

(** ** Sums over dictionaries *)

Section Sums.

Context (f : string -> Qc -> Qc).

Lemma weighted_sum_empty : weighted_sum f ∅ = 0%Qc.
Proof. unfold weighted_sum. apply map_fold_empty. Qed.

Lemma weighted_sum_insert_fresh (m : gmap string Qc) (t : string) (x : Qc) :
  m !! t = None ->
  weighted_sum f (<[t := x]> m) = (weighted_sum f m + f t x)%Qc.
Proof.
  intros Hm. unfold weighted_sum.
  rewrite map_fold_insert_L; [done| |done].
  intros. ring.
Qed.

Lemma weighted_sum_delete (m : gmap string Qc) (t : string) :
  weighted_sum f m = (weighted_sum f (delete t m) + contribution f m t)%Qc.
Proof.
  unfold contribution. destruct (m !! t) as [x|] eqn:Hm.
  - rewrite <- (insert_delete_id m t x Hm) at 1.
    apply weighted_sum_insert_fresh, lookup_delete_eq.
  - rewrite delete_id by done. ring.
Qed.

(** Writing an entry replaces its contribution. *)
Lemma weighted_sum_insert (m : gmap string Qc) (t : string) (x : Qc) :
  weighted_sum f (<[t := x]> m)
  = (weighted_sum f m - contribution f m t + f t x)%Qc.
Proof.
  rewrite <- insert_delete_eq.
  rewrite weighted_sum_insert_fresh by apply lookup_delete_eq.
  rewrite (weighted_sum_delete m t). ring.
Qed.


End Sums.

Lemma sum_values_weighted (m : gmap string Qc) :
  sum_values m = weighted_sum (fun _ w => w) m.
Proof. reflexivity. Qed.

(** ** The backtest engine *)

Section Deployment.

Import Engine.

Context (prices : gmap string Qc).

Local Abbreviation value := (holdings_value prices).

(** Without a missing price the market value is the sum of the
    holdings at their prices. *)
Lemma market_value_priced (h : gmap string Qc) :
  (forall t, is_Some (h !! t) -> is_Some (prices !! t)) ->
  market_value h prices = ok (value h).
Proof.
  unfold market_value, holdings_value, weighted_sum.
  induction h as [|t x h Hh Hfirst IH] using map_first_key_ind; intros Hp.
  - by rewrite !map_fold_empty.
  - rewrite !map_fold_insert_first_key by done.
    rewrite IH.
    2: { intros t' Ht'. apply Hp. rewrite lookup_insert_ne; [done|].
         intros ->. rewrite Hh in Ht'. by destruct Ht'. }
    destruct (Hp t) as [p Hpt]; [by rewrite lookup_insert_eq|].
    simpl. unfold price_of. by rewrite Hpt.
Qed.

(** Without a missing price the loop over the target weights ends
    without an exception and leaves the holdings [deployed]. *)
Lemma invest_all_priced (w h : gmap string Qc) (total_value : Qc) :
  (forall t, is_Some (w !! t) -> is_Some (prices !! t)) ->
  map_fold (invest prices total_value) (ok h) w
  = ok (deployed prices w h total_value).
Proof.
  unfold deployed.
  induction w as [|t x w Hw Hfirst IH] using map_first_key_ind; intros Hp.
  - by rewrite map_fold_empty, map_imap_empty, (left_id_L ∅ (∪)).
  - rewrite map_fold_insert_first_key by done.
    rewrite IH.
    2: { intros t' Ht'. apply Hp. rewrite lookup_insert_ne; [done|].
         intros ->. rewrite Hw in Ht'. by destruct Ht'. }
    destruct (Hp t) as [p Hpt]; [by rewrite lookup_insert_eq|].
    unfold invest. simpl. rewrite Hpt, map_imap_insert.
    unfold price_of. rewrite Hpt. simpl.
    destruct (decide (0 < p)%Qc) as [Hpos|Hneg].
    + by rewrite insert_union_l.
    + f_equal. rewrite delete_id; [done|].
      rewrite map_lookup_imap, Hw. done.
Qed.

Lemma undeployed_insert (w h : gmap string Qc) (t : string) (x : Qc) :
  undeployed (<[t := x]> w) h = delete t (undeployed w h).
Proof.
  unfold undeployed. apply map_eq. intros t'.
  destruct (decide (t = t')) as [<-|Hne].
  - rewrite lookup_delete_eq. apply map_lookup_filter_None. right.
    intros y _. simpl. by rewrite lookup_insert_eq.
  - rewrite lookup_delete_ne by done.
    rewrite !map_lookup_filter. destruct (h !! t') as [y|]; simpl; [|done].
    rewrite lookup_insert_ne by done. done.
Qed.

End Deployment.

Section Iteration.

Import Engine.

Context (prices : gmap string Qc).

(** A market value that was computed had all its prices. *)
Lemma market_value_ok_inv (h : gmap string Qc) (v : Qc) :
  market_value h prices = ok v ->
  forall t, is_Some (h !! t) -> is_Some (prices !! t).
Proof.
  unfold market_value. revert v.
  induction h as [|t x h Hh Hfirst IH] using map_first_key_ind; intros v Hv t' Ht'.
  - rewrite lookup_empty in Ht'. by destruct Ht'.
  - rewrite map_fold_insert_first_key in Hv by done.
    destruct (map_fold _ _ h) as [e|a] eqn:Hfold; [done|]. simpl in Hv.
    destruct (decide (t = t')) as [<-|Hne].
    + destruct (prices !! t); [by eexists|done].
    + rewrite lookup_insert_ne in Ht' by done. by eapply IH.
Qed.

(** A deployment loop that ended had a price for every target weight. *)
Lemma invest_ok_inv (w h h' : gmap string Qc) (total_value : Qc) :
  map_fold (invest prices total_value) (ok h) w = ok h' ->
  forall t, is_Some (w !! t) -> is_Some (prices !! t).
Proof.
  revert h'.
  induction w as [|t x w Hw Hfirst IH] using map_first_key_ind; intros h' Hv t' Ht'.
  - rewrite lookup_empty in Ht'. by destruct Ht'.
  - rewrite map_fold_insert_first_key in Hv by done.
    destruct (map_fold _ _ w) as [e|a] eqn:Hfold; [done|].
    unfold invest in Hv. simpl in Hv.
    destruct (decide (t = t')) as [<-|Hne].
    + destruct (prices !! t); [by eexists|done].
    + rewrite lookup_insert_ne in Ht' by done. by eapply IH.
Qed.

Lemma deployed_lookup_outside (w h : gmap string Qc) (total_value : Qc) (t : string) :
  w !! t = None -> deployed prices w h total_value !! t = h !! t.
Proof.
  intros Hw. unfold deployed. apply lookup_union_r.
  by rewrite map_lookup_imap, Hw.
Qed.

Lemma deployed_keys (w h : gmap string Qc) (total_value : Qc) (t : string) :
  is_Some (deployed prices w h total_value !! t) ->
  is_Some (w !! t) \/ is_Some (h !! t).
Proof.
  destruct (w !! t) as [x|] eqn:Hw; [left; by eexists|].
  rewrite deployed_lookup_outside by done. by right.
Qed.

(** The cash deployment, when it ends without an exception. *)
Lemma deploy_cash_ok_inv (w h : gmap string Qc) (c : Qc) (hc : gmap string Qc * Qc) :
  deploy_cash w h c prices = ok hc ->
  hc = (deployed prices w h (holdings_value prices h + c), 0%Qc) /\
  (forall t, is_Some (h !! t) \/ is_Some (w !! t) -> is_Some (prices !! t)).
Proof.
  unfold deploy_cash. intros Hd.
  destruct (market_value h prices) as [e|mv] eqn:Hmv; [done|]. simpl in Hd.
  pose proof (market_value_ok_inv h mv Hmv) as Hhp.
  rewrite (market_value_priced prices h Hhp) in Hmv. injection Hmv as <-.
  destruct (map_fold _ _ w) as [e|h'] eqn:Hfold; [done|]. simpl in Hd.
  pose proof (invest_ok_inv w h h' _ Hfold) as Hwp.
  rewrite (invest_all_priced prices w h _ Hwp) in Hfold. injection Hfold as <-.
  injection Hd as <-. split; [done|]. intros t [Ht|Ht]; auto.
Qed.

Lemma deploy_cash_priced (w h : gmap string Qc) (c : Qc) :
  (forall t, is_Some (h !! t) \/ is_Some (w !! t) -> is_Some (prices !! t)) ->
  deploy_cash w h c prices
  = ok (deployed prices w h (holdings_value prices h + c), 0%Qc).
Proof.
  intros Hp. unfold deploy_cash.
  rewrite (market_value_priced prices h) by auto. simpl.
  rewrite (invest_all_priced prices w h) by auto. done.
Qed.

Lemma total_portfolio_value_priced (h : gmap string Qc) (c : Qc) :
  (forall t, is_Some (h !! t) -> is_Some (prices !! t)) ->
  total_portfolio_value h c prices = ok (holdings_value prices h + c)%Qc.
Proof.
  intros Hp. unfold total_portfolio_value.
  by rewrite (market_value_priced prices h Hp).
Qed.

Lemma total_portfolio_value_ok_inv (h : gmap string Qc) (c v : Qc) :
  total_portfolio_value h c prices = ok v ->
  v = (holdings_value prices h + c)%Qc /\
  (forall t, is_Some (h !! t) -> is_Some (prices !! t)).
Proof.
  unfold total_portfolio_value. intros Hv.
  destruct (market_value h prices) as [e|mv] eqn:Hmv; [done|]. simpl in Hv.
  pose proof (market_value_ok_inv h mv Hmv) as Hhp.
  rewrite (market_value_priced prices h Hhp) in Hmv. injection Hmv as <-.
  injection Hv as <-. done.
Qed.

(** An iteration that ends without an exception leaves [next_state]. *)
Lemma step_ok_inv (annual_increase : Qc) (s s' : state) (d : Timestamp) :
  step annual_increase s (d, prices) = ok s' ->
  s' = next_state annual_increase s d prices.
Proof.
  unfold step, next_state, deployment_day.
  destruct (Portfolio.should_rebalance (portfolio s) d) as [b pf'] eqn:Hsr. simpl.
  set (first := match portfolio_history s with [] => true | _ => false end).
  destruct (first || b).
  - destruct (deploy_cash _ _ _ _) as [e|hc] eqn:Hd; [done|].
    apply deploy_cash_ok_inv in Hd as [-> _]. simpl.
    destruct (total_portfolio_value _ _ _) as [e|v] eqn:Hv; [done|].
    apply total_portfolio_value_ok_inv in Hv as [-> _]. simpl.
    by intros [= <-].
  - simpl.
    destruct (total_portfolio_value _ _ _) as [e|v] eqn:Hv; [done|].
    apply total_portfolio_value_ok_inv in Hv as [-> _]. simpl.
    by intros [= <-].
Qed.

End Iteration.

Section Run.

Import Engine.

Context (cols : list string) (w : gmap string Qc) (annual_increase : Qc).

Lemma next_state_invariant (s : state) (d : Timestamp) (prices : gmap string Qc) :
  run_invariant cols w s ->
  run_invariant cols w (next_state annual_increase s d prices).
Proof.
  intros [Hw Hk Ho].
  pose proof (should_rebalance_keeps_settings (portfolio s) d) as [Hw' _].
  rewrite Hw in Hw'.
  split; unfold next_state; simpl.
  - exact Hw'.
  - destruct (deployment_day s d); intros t Ht; [|by apply Hk].
    rewrite Hw' in Ht. apply deployed_keys in Ht as [Ht|Ht]; [by right|by apply Hk].
  - destruct (deployment_day s d); intros t x Ht Hwt; [|by eapply Ho].
    rewrite Hw', deployed_lookup_outside in Ht by done. by eapply Ho.
Qed.

(** With a price for every asset, an iteration ends without an
    exception. *)
Lemma step_priced (s : state) (d : Timestamp) (prices : gmap string Qc) :
  run_invariant cols w s ->
  all_priced cols w prices ->
  step annual_increase s (d, prices) = ok (next_state annual_increase s d prices).
Proof.
  intros Hinv Hp.
  pose proof (next_state_invariant s d prices Hinv) as [_ Hk' _].
  destruct Hinv as [Hw Hk Ho].
  pose proof (should_rebalance_keeps_settings (portfolio s) d) as [Hw' _].
  rewrite Hw in Hw'.
  revert Hk'. unfold step, next_state, deployment_day.
  destruct (Portfolio.should_rebalance (portfolio s) d) as [b pf'] eqn:Hsr.
  simpl in *.
  set (first := match portfolio_history s with [] => true | _ => false end).
  destruct (first || b); intros Hk'.
  - rewrite deploy_cash_priced.
    2: { intros t [Ht|Ht]; apply Hp; [by apply Hk | right; by rewrite <- Hw']. }
    simpl. rewrite total_portfolio_value_priced by (intros t Ht; by apply Hp, Hk').
    done.
  - simpl. rewrite total_portfolio_value_priced by (intros t Ht; by apply Hp, Hk).
    done.
Qed.

Lemma loop_invariant (rows : list (Timestamp * gmap string Qc)) :
  forall s s' : state,
    run_invariant cols w s ->
    loop annual_increase s rows = ok s' ->
    run_invariant cols w s'.
Proof.
  induction rows as [|[d prices] rest IH]; intros s s' Hinv Hl; cbn [loop] in Hl.
  - by injection Hl as <-.
  - destruct (step annual_increase s (d, prices)) as [e|s1] eqn:Hs; [done|].
    cbn [bind] in Hl. apply step_ok_inv in Hs. subst s1.
    eapply IH; [|exact Hl]. by apply next_state_invariant.
Qed.

Lemma loop_app (rows1 rows2 : list (Timestamp * gmap string Qc)) (s : state) :
  loop annual_increase s (rows1 ++ rows2)
  = bind (loop annual_increase s rows1) (fun s1 => loop annual_increase s1 rows2).
Proof.
  revert s. induction rows1 as [|row rest IH]; intros s; cbn [loop app bind]; [done|].
  destruct (step annual_increase s row) as [e|s1]; cbn [bind]; [done|]. apply IH.
Qed.

End Run.

Lemma initial_invariant (data : Engine.DataFrame) (pf : Portfolio.t)
    (initial_investment monthly_topup : Qc) :
  run_invariant (Engine.columns data) (Portfolio.target_weights pf)
    (Engine.initial_state data pf initial_investment monthly_topup).
Proof.
  split; simpl.
  - done.
  - intros t [x Ht]. left.
    apply elem_of_list_to_map_2, list_elem_of_fmap in Ht as (t' & [= -> _] & Ht').
    done.
  - intros t x Ht _.
    apply elem_of_list_to_map_2, list_elem_of_fmap in Ht as (t' & [= _ ->] & Ht').
    done.
Qed.

Section Series.

Import Engine.

Context (cols : list string) (w : gmap string Qc) (annual_increase : Qc).

Local Abbreviation loop := (Engine.loop annual_increase).
Local Abbreviation next := (next_state annual_increase).

(** The line that an iteration appends to the history: the date of the
    row and the value of the new state at the prices of the row. *)
Lemma next_state_history (s : state) (d : Timestamp) (prices : gmap string Qc) :
  portfolio_history (next s d prices)
  = portfolio_history s ++ [(d, state_value prices (next s d prices))].
Proof. reflexivity. Qed.

Lemma loop_snoc (rows : list (Timestamp * gmap string Qc)) (d : Timestamp)
    (prices : gmap string Qc) (s s' : state) :
  loop s (rows ++ [(d, prices)]) = ok s' ->
  exists s1, loop s rows = ok s1 /\ s' = next s1 d prices.
Proof.
  rewrite loop_app. destruct (loop s rows) as [e|s1]; [done|].
  cbn [bind Engine.loop].
  destruct (step annual_increase s1 (d, prices)) as [e|s2] eqn:Hs; [done|].
  cbn [bind]. intros [= <-]. apply step_ok_inv in Hs. by exists s1.
Qed.

(** A run that ends without an exception has appended one line for
    each row, in the order of the rows. *)
Lemma loop_history (rows : list (Timestamp * gmap string Qc)) :
  forall s s' : state,
    loop s rows = ok s' ->
    exists l, portfolio_history s' = portfolio_history s ++ l /\
              fst <$> l = fst <$> rows.
Proof.
  induction rows as [|[d prices] rest IH]; intros s s' Hl; cbn [Engine.loop] in Hl.
  - injection Hl as <-. exists []. by rewrite app_nil_r.
  - destruct (step annual_increase s (d, prices)) as [e|s1] eqn:Hs; [done|].
    cbn [bind] in Hl. apply step_ok_inv in Hs. subst s1.
    destruct (IH _ _ Hl) as (l & Hh & Hd).
    exists ((d, state_value prices (next s d prices)) :: l). split.
    + by rewrite Hh, next_state_history, <- app_assoc.
    + cbn. by rewrite Hd.
Qed.

(** With a price for every asset in every row, the run ends without an
    exception. *)
Lemma loop_priced (rows : list (Timestamp * gmap string Qc)) :
  forall s : state,
    run_invariant cols w s ->
    Forall (fun row => all_priced cols w (snd row)) rows ->
    exists s', loop s rows = ok s'.
Proof.
  induction rows as [|[d prices] rest IH]; intros s Hinv Hp; cbn [Engine.loop].
  - by eexists.
  - apply Forall_cons in Hp as [Hp Hrest]. simpl in Hp.
    rewrite (step_priced cols w annual_increase s d prices Hinv Hp). cbn [bind].
    apply IH; [|done]. by apply next_state_invariant.
Qed.

(** A run over a prefix of the rows ends if the run over the rows does. *)
Lemma loop_prefix (rows1 rows2 : list (Timestamp * gmap string Qc)) (s s' : state) :
  loop s (rows1 ++ rows2) = ok s' ->
  exists s1, loop s rows1 = ok s1 /\ loop s1 rows2 = ok s'.
Proof.
  rewrite loop_app. destruct (loop s rows1) as [e|s1]; [done|].
  cbn [bind]. intros Hl. by exists s1.
Qed.

(** The line of row [k] in the history of a run. *)
Lemma loop_history_lookup (rows : list (Timestamp * gmap string Qc))
    (s s' : state) (k : nat) (d : Timestamp) (prices : gmap string Qc) :
  portfolio_history s = [] ->
  loop s rows = ok s' ->
  rows !! k = Some (d, prices) ->
  exists s_k,
    loop s (take (S k) rows) = ok s_k /\
    portfolio_history s' !! k = Some (d, state_value prices s_k).
Proof.
  intros Hempty Hl Hk.
  rewrite <- (take_drop (S k) rows) in Hl.
  apply loop_prefix in Hl as (s_k & Hpre & Hpost).
  exists s_k. split; [done|].
  rewrite (take_S_r rows k _ Hk) in Hpre.
  apply loop_snoc in Hpre as (s1 & Hs1 & ->).
  destruct (loop_history _ _ _ Hs1) as (l1 & Hh1 & Hd1).
  destruct (loop_history _ _ _ Hpost) as (l2 & Hh2 & _).
  rewrite Hempty in Hh1. simpl in Hh1.
  assert (Hlen : length l1 = k).
  { rewrite <- (length_fmap fst l1), Hd1, length_fmap, length_take.
    apply lookup_lt_Some in Hk. lia. }
  rewrite Hh2, next_state_history, Hh1.
  rewrite lookup_app_l by (rewrite length_app; simpl; lia).
  rewrite lookup_app_r by lia. by rewrite Hlen, Nat.sub_diag.
Qed.

End Series.

(** C4.  Whenever [run_backtest] returns, the value series has one line
    for each row of the table, with the dates of the rows in their
    order; line [k] is the total value, at the prices of row [k], of the
    state that the loop has reached after rows [0] to [k]; and the
    returned holdings and cash, and the portfolio object, are those of
    the state after the last row.  It does return for every table with
    at least one row in which every row has a price for every column and
    for every ticker of the target weights; on a table without rows it
    raises [KeyError]. *)
Theorem run_backtest_series
    (data : Engine.DataFrame) (pf : Portfolio.t)
    (initial_investment monthly_topup annual_increase : Qc) :
  (forall out : Engine.outcome,
     Engine.run_backtest data pf initial_investment monthly_topup annual_increase
     = ok out ->
     exists s : Engine.state,
       Engine.loop annual_increase
         (Engine.initial_state data pf initial_investment monthly_topup)
         (Engine.iterrows data) = ok s /\
       length (Engine.result_df out) = length (Engine.iterrows data) /\
       fst <$> Engine.result_df out = fst <$> Engine.iterrows data /\
       Engine.final_holdings out = Engine.holdings s /\
       Engine.final_cash out = Engine.cash s /\
       Engine.portfolio_after out = Engine.portfolio s /\
       forall (k : nat) (d : Timestamp) (prices : gmap string Qc),
         Engine.iterrows data !! k = Some (d, prices) ->
         exists s_k,
           Engine.loop annual_increase
             (Engine.initial_state data pf initial_investment monthly_topup)
             (take (S k) (Engine.iterrows data)) = ok s_k /\
           Engine.result_df out !! k = Some (d, state_value prices s_k)) /\
  (Engine.iterrows data <> [] ->
   Forall (fun row => all_priced (Engine.columns data) (Portfolio.target_weights pf)
                        (snd row)) (Engine.iterrows data) ->
   exists out : Engine.outcome,
     Engine.run_backtest data pf initial_investment monthly_topup annual_increase
     = ok out) /\
  (Engine.iterrows data = [] ->
   Engine.run_backtest data pf initial_investment monthly_topup annual_increase
   = raise KeyError).
Proof.
  split; [|split].
  - intros out Hrun. unfold Engine.run_backtest in Hrun.
    destruct (Engine.loop _ _ _) as [e|s] eqn:Hl; [done|]. cbn [bind] in Hrun.
    destruct (Engine.portfolio_history s) as [|line lines] eqn:Hhist; [done|].
    injection Hrun as <-. exists s. cbn [Engine.result_df Engine.final_holdings
      Engine.final_cash Engine.portfolio_after]. rewrite <- Hhist.
    destruct (loop_history annual_increase _ _ _ Hl) as (l & Hh & Hd).
    simpl in Hh.
    split; [done|]. split; [by rewrite Hh, <- (length_fmap fst l), Hd, length_fmap|].
    split; [by rewrite Hh|]. repeat split.
    intros k d prices Hk.
    by apply (loop_history_lookup annual_increase (Engine.iterrows data)).
  - intros Hne Hp.
    destruct (loop_priced _ _ annual_increase (Engine.iterrows data) _
                (initial_invariant data pf initial_investment monthly_topup) Hp)
      as [s Hl].
    destruct (loop_history annual_increase _ _ _ Hl) as (l & Hh & Hd).
    simpl in Hh.
    unfold Engine.run_backtest. rewrite Hl. unfold ok, bind.
    destruct (Engine.portfolio_history s) eqn:Hhist; [|by eexists].
    subst l. destruct (Engine.iterrows data); done.
  - intros Hempty. unfold Engine.run_backtest. by rewrite Hempty.
Qed.

Lemma Qc_of_nat_S (n : nat) :
  Forecasting.Qc_of_nat (S n) = (1 + Forecasting.Qc_of_nat n)%Qc.
Proof.
  apply Qc_is_canon. unfold Forecasting.Qc_of_nat.
  change (Qred (inject_Z (Z.of_nat (S n)))
          == Qred (1 + Qred (inject_Z (Z.of_nat n))))%Q.
  rewrite !Qred_correct, Nat2Z.inj_succ. unfold Z.succ.
  rewrite inject_Z_plus. ring.
Qed.


(** ** The engine on concrete tables *)

Lemma positive_pricesb_correct (columns : list string)
    (target_weights prices : gmap string Qc) :
  positive_pricesb columns target_weights prices = true ->
  positive_prices columns target_weights prices.
Proof.
  unfold positive_pricesb. rewrite forallb_forall. intros Hall t Ht.
  assert (Hin : In t (columns ++ (map_to_list target_weights).*1)).
  { apply in_or_app. destruct Ht as [Ht|[x Ht]].
    - left. by apply list_elem_of_In.
    - right. apply list_elem_of_In, list_elem_of_fmap.
      exists (t, x). split; [done|]. by apply elem_of_map_to_list. }
  specialize (Hall t Hin). unfold positive_at in Hall.
  destruct (prices !! t) as [p|]; [|done].
  exists p. split; [done|]. by apply bool_decide_eq_true in Hall.
Qed.

Lemma positive_all_priced (columns : list string)
    (target_weights prices : gmap string Qc) :
  positive_prices columns target_weights prices ->
  all_priced columns target_weights prices.
Proof. intros Hpos t Ht. destruct (Hpos t Ht) as (p & -> & _). by eexists. Qed.

(** The example of the specification: one asset at weight 1, constant
    price 10, initial investment 1000 and no top-up.  The series is
    constantly 1000 and the final holdings are 100 units. *)
Example single_asset_constant_price :
  series_values (Engine.run_backtest four_months buy_and_hold_policy
                   (Q2Qc 1000) 0%Qc 0%Qc)
  = [1000 # 1; 1000 # 1; 1000 # 1; 1000 # 1]%Q /\
  holdings_list (Engine.run_backtest four_months buy_and_hold_policy
                   (Q2Qc 1000) 0%Qc 0%Qc)
  = [("AAPL"%string, (100 # 1)%Q)].
Proof. split; vm_compute; reflexivity. Qed.

(** A run with a rebalance: 60 and 20 units are bought on the first day;
    on the first day of February 100 is added and the whole 1260 is
    deployed again at the target weights. *)
Example two_assets_monthly_rebalance :
  series_values (Engine.run_backtest two_assets policy_60_40
                   (Q2Qc 1000) (Q2Qc 100) (Q2Qc 5))
  = [1000 # 1; 1100 # 1; 1260 # 1]%Q /\
  holdings_list (Engine.run_backtest two_assets policy_60_40
                   (Q2Qc 1000) (Q2Qc 100) (Q2Qc 5))
  = [("GOOG"%string, (504 # 25)%Q); ("AAPL"%string, (756 # 11)%Q)].
Proof. split; vm_compute; reflexivity. Qed.

Lemma run_backtest_series_witness :
  exists (out : Engine.outcome),
    Engine.run_backtest two_assets policy_60_40 (Q2Qc 1000) (Q2Qc 100) (Q2Qc 5) = ok out /\
    length (Engine.result_df out) = 3%nat /\
    fst <$> Engine.result_df out = [jan15; jan20; feb03].
Proof.
  destruct (run_backtest_series two_assets policy_60_40 (Q2Qc 1000) (Q2Qc 100) (Q2Qc 5))
    as (Hshape & Hreturns & _).
  destruct Hreturns as [out Hout].
  - discriminate.
  - repeat constructor; apply positive_all_priced, positive_pricesb_correct;
      vm_compute; reflexivity.
  - destruct (Hshape out Hout) as (s & _ & Hlen & Hdates & _).
    exists out. split; [exact Hout|]. split; [exact Hlen | exact Hdates].
Defined.

(** Two runs with a monthly top-up of 100, no annual increase and the
    constant price 10, from an initial investment of 1000, where C8 as
    stated promises a final value of 1300.

    In the first the table has a row in each of four consecutive months,
    and the single weight is 1.000004, which the constructor accepts:
    the first-day deployment buys holdings worth 1000.004, and the final
    value is 1300.004.

    In the second the weight is 1 and the table has the rows of January
    and April only: its dates cross three month boundaries, the loop
    sees one change of month, and the final value is 1100. *)
Lemma three_topups_counterexample :
  (Portfolio.__init__ weights_tolerated None = ok tolerated_policy /\
   Engine.month_changes (fst <$> Engine.iterrows four_months) = 3%nat /\
   final_value (Engine.run_backtest four_months tolerated_policy
                  (Q2Qc 1000) (Q2Qc 100) 0%Qc) = Some (325001 # 250)%Q /\
   ~ (325001 # 250 == 1000 + 300)%Q) /\
  (Portfolio.__init__ {[ "AAPL"%string := 1%Qc ]} None = ok buy_and_hold_policy /\
   months_between jan15 apr02 = 3 /\
   final_value (Engine.run_backtest january_and_april buy_and_hold_policy
                  (Q2Qc 1000) (Q2Qc 100) 0%Qc) = Some (1100 # 1)%Q /\
   ~ (1100 # 1 == 1000 + 300)%Q).
Proof.
  repeat split; try (vm_compute; reflexivity); try (vm_compute; discriminate).
Qed.

(** ** Month numbers and calendar months *)

(** The policy and the engine compare the month number, the quarter
    number or the year of two dates.  On sequences of dates that skip no
    period, which daily data are, this is the comparison of the calendar
    periods themselves. *)

Section CalendarPeriods.

Import Portfolio.

Lemma quarter_range (d : Timestamp) : valid_month d -> 1 <= quarter d <= 4.
Proof. unfold valid_month, quarter. intros Hm. Z.div_mod_to_equations. lia. Qed.

(** For two valid dates at most one period apart, the compared
    attribute differs exactly when the calendar period does. *)
Lemma period_calendar_period (freq : string) (a b : Timestamp) :
  known_frequency freq ->
  valid_month a -> valid_month b ->
  calendar_period freq a <= calendar_period freq b <= calendar_period freq a + 1 ->
  (period freq b = period freq a <-> calendar_period freq b = calendar_period freq a).
Proof.
  intros Hk Ha Hb.
  pose proof (quarter_range a Ha). pose proof (quarter_range b Hb).
  unfold valid_month in *.
  destruct Hk as [-> | [-> | ->]];
    unfold period, calendar_period, month_index, quarter_index; simpl; lia.
Qed.

(** The stored date stays in the calendar period of the date of the
    last call. *)
Lemma calls_calendar (freq : string) (dates : list Timestamp) :
  forall (self : t) (last prev : Timestamp) (k : nat) (c : call),
    rebalance_frequency self = Some freq ->
    known_frequency freq ->
    _last_rebalance_date self = Some last ->
    calendar_period freq last = calendar_period freq prev ->
    valid_month last ->
    Forall valid_month dates ->
    gap_free (calendar_period freq) (prev :: dates) ->
    calls self dates !! k = Some c ->
    exists last',
      _last_rebalance_date (before c) = Some last' /\
      (answer c = true <->
       calendar_period freq (date c) <> calendar_period freq last').
Proof.
  induction dates as [|d rest IH];
    intros self last prev k c Hf Hk Hl Hcp Hvl Hv Hgap Hc; [done|].
  apply Forall_cons in Hv as [Hvd Hvrest].
  destruct Hgap as [Hstep Hgap]. rewrite <- Hcp in Hstep.
  pose proof (period_calendar_period freq last d Hk Hvl Hvd Hstep) as Hiff.
  cbn [calls] in Hc.
  rewrite (should_rebalance_stored self freq last d Hf Hk Hl) in Hc.
  pose proof (should_rebalance_keeps_settings self d) as [_ Hf'].
  rewrite (should_rebalance_stored self freq last d Hf Hk Hl) in Hf'.
  case_decide as Hp; simpl in Hf'; rewrite Hf in Hf'.
  - destruct k as [|k]; simpl in Hc.
    + injection Hc as <-. exists last. simpl. intuition congruence.
    + apply (IH self last d k c); try done. symmetry. by apply Hiff.
  - destruct k as [|k]; simpl in Hc.
    + injection Hc as <-. exists last. simpl. intuition congruence.
    + by apply (IH (set_last self d) d d k c).
Qed.

(** On dates that skip no period, every call after the first answers
    true exactly when the calendar period of the current date (the month,
    quarter or year it lies in) is not the calendar period of the stored
    date. *)
Lemma should_rebalance_iff_calendar_period_differs
    (self : t) (freq : string) (dates : list Timestamp) (k : nat) (c : call) :
  rebalance_frequency self = Some freq ->
  known_frequency freq ->
  _last_rebalance_date self = None ->
  Forall valid_month dates ->
  gap_free (calendar_period freq) dates ->
  (0 < k)%nat ->
  calls self dates !! k = Some c ->
  exists last,
    _last_rebalance_date (before c) = Some last /\
    (answer c = true <->
     calendar_period freq (date c) <> calendar_period freq last).
Proof.
  intros Hf Hk Hl Hv Hgap Hpos Hc.
  destruct dates as [|d0 rest]; [done|].
  destruct k as [|k]; [lia|].
  apply Forall_cons in Hv as [Hv0 Hvrest].
  cbn [calls] in Hc. rewrite (should_rebalance_first self freq d0 Hf Hl) in Hc.
  simpl in Hc.
  by apply (calls_calendar freq rest (set_last self d0) d0 d0 k c).
Qed.

(** C1, as the code has it.  A portfolio with one of the three
    frequencies is asked about a sequence of dates, starting with no
    stored date.  Every call after the first finds a stored
    last-rebalance date and answers true exactly when the number that
    the frequency compares (the month number 1 to 12, the quarter number
    1 to 4, or the year) of the current date differs from that of the
    stored date; on true the stored date becomes the current date, on
    false the portfolio is left as it was.  The answer is the comparison
    of the calendar periods themselves when the dates skip no period:
    each date in the month, quarter or year of its predecessor or in the
    next one. *)
Theorem should_rebalance_compares_period_numbers
    (self : Portfolio.t) (freq : string) (dates : list Timestamp) (k : nat)
    (c : Portfolio.call) :
  Portfolio.rebalance_frequency self = Some freq ->
  Portfolio.known_frequency freq ->
  Portfolio._last_rebalance_date self = None ->
  (0 < k)%nat ->
  Portfolio.calls self dates !! k = Some c ->
  dates !! k = Some (Portfolio.date c) /\
  exists last,
    Portfolio._last_rebalance_date (Portfolio.before c) = Some last /\
    (Portfolio.answer c = true <->
     Portfolio.period freq (Portfolio.date c) <> Portfolio.period freq last) /\
    (Portfolio.answer c = true ->
     Portfolio._last_rebalance_date (Portfolio.after c) = Some (Portfolio.date c)) /\
    (Portfolio.answer c = false -> Portfolio.after c = Portfolio.before c) /\
    (Forall valid_month dates ->
     gap_free (calendar_period freq) dates ->
     (Portfolio.answer c = true <->
      calendar_period freq (Portfolio.date c) <> calendar_period freq last)).
Proof.
  intros Hf Hk Hl Hpos Hc.
  destruct (should_rebalance_iff_period_differs self freq dates k c Hf Hk Hl Hpos Hc)
    as (Hd & last & Hlast & Hiff & Htrue & Hfalse).
  split; [exact Hd|]. exists last. repeat split; try done; try apply Hiff.
  - intros Hans.
    destruct (should_rebalance_iff_calendar_period_differs self freq dates k c
                Hf Hk Hl H H0 Hpos Hc) as (last' & Hlast' & Hcal).
    rewrite Hlast in Hlast'. injection Hlast' as <-. by apply Hcal.
  - intros Hne.
    destruct (should_rebalance_iff_calendar_period_differs self freq dates k c
                Hf Hk Hl H H0 Hpos Hc) as (last' & Hlast' & Hcal).
    rewrite Hlast in Hlast'. injection Hlast' as <-. by apply Hcal.
Qed.

Lemma should_rebalance_compares_period_numbers_witness :
  [jan15; jan20; feb03] !! 2%nat = Some feb03 /\
  exists last,
    Some jan15 = Some last /\
    (true = true <->
     Portfolio.period "monthly" feb03 <> Portfolio.period "monthly" last) /\
    (true = true -> Some feb03 = Some feb03) /\
    (true = false ->
     Portfolio.set_last monthly_policy feb03
     = Portfolio.set_last monthly_policy jan15) /\
    (Forall valid_month [jan15; jan20; feb03] ->
     gap_free (calendar_period "monthly") [jan15; jan20; feb03] ->
     (true = true <->
      calendar_period "monthly" feb03 <> calendar_period "monthly" last)).
Proof.
  apply (should_rebalance_compares_period_numbers monthly_policy "monthly"
           [jan15; jan20; feb03] 2
           (Portfolio.mkCall (Portfolio.set_last monthly_policy jan15) feb03 true
              (Portfolio.set_last monthly_policy feb03))).
  - reflexivity.
  - left; reflexivity.
  - reflexivity.
  - lia.
  - reflexivity.
Defined.

(** Two calls in date order, one day each, a year apart: the second date
    lies in another calendar month than the stored one, and the call
    answers false, where C1 as stated promises true. *)
Lemma same_month_next_year_counterexample :
  days_from_civil jan15 < days_from_civil (mkTimestamp 2025 1 15) /\
  calendar_period "monthly" (mkTimestamp 2025 1 15)
    <> calendar_period "monthly" jan15 /\
  Portfolio.calls monthly_policy [jan15; mkTimestamp 2025 1 15] !! 1%nat
  = Some (Portfolio.mkCall (Portfolio.set_last monthly_policy jan15)
            (mkTimestamp 2025 1 15) false
            (Portfolio.set_last monthly_policy jan15)).
Proof. split; [reflexivity|]. split; [discriminate|reflexivity]. Qed.

(** On dates that skip no month, the changes of month number between
    consecutive rows are the calendar-month boundaries between the first
    date and the last. *)
Lemma month_changes_months_between (dates : list Timestamp) :
  forall first : Timestamp,
    Forall valid_month (first :: dates) ->
    gap_free month_index (first :: dates) ->
    Z.of_nat (Engine.month_changes (first :: dates))
    = months_between first (default first (last dates)).
Proof.
  unfold months_between.
  induction dates as [|d rest IH]; intros first Hv Hgap.
  - simpl. lia.
  - apply Forall_cons in Hv as [Hvf Hv]. pose proof Hv as Hv'.
    apply Forall_cons in Hv' as [Hvd _].
    destruct Hgap as [Hstep Hgap].
    specialize (IH d Hv Hgap).
    change (Engine.month_changes (first :: d :: rest))
      with ((if (month d =? month first)%Z then 0 else 1)
            + Engine.month_changes (d :: rest))%nat.
    rewrite Nat2Z.inj_add, IH.
    assert (Hlast : default first (last (d :: rest)) = default d (last rest)).
    { rewrite last_cons. by destruct (last rest). }
    rewrite Hlast. unfold month_index, valid_month in *.
    destruct (Z.eqb_spec (month d) (month first)); simpl; lia.
Qed.

End CalendarPeriods.

(** * Further properties *)

(** ** The constructor and the policy *)

Section AcceptedSums.

Local Open Scope Q_scope.

(** The rationals that round to 100000: those within one half of it,
    both ends included, since 100000 is even. *)
Lemma round_half_even_100000 (q : Qc) :
  round_half_even q = 100000%Z <-> (199999 # 2) <= this q /\ this q <= (200001 # 2).
Proof.
  unfold round_half_even. destruct q as [[n d] Hc]. simpl.
  pose proof (Z.div_mod n (Zpos d) ltac:(lia)) as Hdm.
  pose proof (Z.mod_pos_bound n (Zpos d) ltac:(lia)) as Hb.
  set (fl := (n / Zpos d)%Z) in *. set (r := (n mod Zpos d)%Z) in *.
  unfold Qle. simpl.
  destruct (Z.ltb_spec (2 * r) (Zpos d)) as [H1|H1];
    [|destruct (Z.ltb_spec (Zpos d) (2 * r)) as [H2|H2]].
  - split; [intros ->; nia | intros [Hlo Hhi]; nia].
  - split; [intros Hfl; nia | intros [Hlo Hhi]; nia].
  - assert (Hr : (2 * r = Zpos d)%Z) by lia.
    split.
    + destruct (Z.even fl) eqn:He; intros Hfl; nia.
    + intros [Hlo Hhi].
      assert (fl = 99999 \/ fl = 100000)%Z as [Hfl|Hfl] by nia;
        rewrite Hfl; simpl; [reflexivity | reflexivity].
Qed.

Lemma py_round5_one_iff (x : Qc) :
  py_round x 5 = 1%Qc <->
  (999995 # 1000000) <= this x /\ this x <= (1000005 # 1000000).
Proof.
  assert (Hy : this (x * Q2Qc (inject_Z (10 ^ Z.of_nat 5)))%Qc == this x * (100000 # 1)).
  { apply this_Qcmult. }
  unfold py_round.
  set (y := (x * Q2Qc (inject_Z (10 ^ Z.of_nat 5)))%Qc) in *.
  change (10 ^ Z.of_nat 5)%Z with 100000%Z.
  assert (Hround : Q2Qc (inject_Z (round_half_even y) / inject_Z 100000) = 1%Qc
                   <-> round_half_even y = 100000%Z).
  { split.
    - intros H. apply (f_equal this) in H. simpl in H.
      pose proof (Qred_correct (inject_Z (round_half_even y) / inject_Z 100000)) as Hq.
      rewrite H in Hq.
      unfold Qeq, Qdiv, Qmult, Qinv, inject_Z in Hq. simpl in Hq. lia.
    - intros ->. apply Qc_is_canon. reflexivity. }
  rewrite Hround, round_half_even_100000, Hy. clearbody y. clear.
  split; intros [Hlo Hhi]; split; lra.
Qed.

End AcceptedSums.

Section PolicyExtras.

Import Portfolio.

(** X1.  [Portfolio.__init__] accepts the weights whose sum is within
    0.000004 of 1 and raises [ValueError] for those whose sum is
    further than 0.000006 from 1.  The threshold of the rounding to
    five decimals lies in the band between, where the rounding of the
    sum itself decides. *)
Theorem init_accepts_near_one (w : gmap string Qc) (f : option string) :
  ((accepted_from <= sum_values w)%Qc /\ (sum_values w <= accepted_to)%Qc ->
   __init__ w f = ok (mk w f None)) /\
  ((sum_values w < refused_below)%Qc \/ (refused_above < sum_values w)%Qc ->
   __init__ w f = raise ValueError).
Proof.
  assert (H1 : (this accepted_from == 999996 # 1000000)%Q) by apply Qred_correct.
  assert (H2 : (this accepted_to == 1000004 # 1000000)%Q) by apply Qred_correct.
  assert (H3 : (this refused_below == 999994 # 1000000)%Q) by apply Qred_correct.
  assert (H4 : (this refused_above == 1000006 # 1000000)%Q) by apply Qred_correct.
  pose proof (py_round5_one_iff (sum_values w)) as Hiff.
  unfold Qcle, Qclt. rewrite H1, H2, H3, H4.
  destruct (init_cases w f) as [[Hr Hi] | [Hr Hi]]; rewrite Hi; split; try done.
  - intros Hout. apply Hiff in Hr. lra.
  - intros Hin. exfalso. apply Hr, Hiff. lra.
Qed.

(** A frequency that is none of the three known words. *)
Lemma should_rebalance_unknown (self : t) (freq : string) (d : Timestamp) :
  rebalance_frequency self = Some freq ->
  ~ known_frequency freq ->
  fst (should_rebalance self d) = false /\
  rebalance_frequency (snd (should_rebalance self d)) = Some freq.
Proof.
  intros Hf Hk. unfold should_rebalance. rewrite Hf.
  destruct (_last_rebalance_date self) as [last|]; [|done].
  destruct (String.eqb_spec freq "monthly") as [->|_];
    [exfalso; apply Hk; by left|].
  destruct (String.eqb_spec freq "quarterly") as [->|_];
    [exfalso; apply Hk; right; by left|].
  destruct (String.eqb_spec freq "annually") as [->|_];
    [exfalso; apply Hk; right; by right|].
  done.
Qed.

(** X2.  A portfolio whose frequency is a word other than monthly,
    quarterly and annually never asks for a rebalance: every call of
    every sequence answers false. *)
Theorem unknown_frequency_never_rebalances
    (self : t) (freq : string) (dates : list Timestamp) (k : nat) (c : call) :
  rebalance_frequency self = Some freq ->
  ~ known_frequency freq ->
  calls self dates !! k = Some c ->
  answer c = false.
Proof.
  intros Hf Hk. revert self k Hf.
  induction dates as [|d rest IH]; intros self k Hf Hc; [done|].
  cbn [calls] in Hc.
  pose proof (should_rebalance_unknown self freq d Hf Hk) as [Hb Hf'].
  destruct (should_rebalance self d) as [b self']. simpl in Hb, Hf'.
  destruct k as [|k]; simpl in Hc.
  - injection Hc as <-. done.
  - by apply (IH self' k).
Qed.

(** X3.  Asking twice about the same date: whatever the first call
    answered, the second answers false and changes nothing. *)
Theorem should_rebalance_same_date_again (self : t) (d : Timestamp) :
  should_rebalance (snd (should_rebalance self d)) d
  = (false, snd (should_rebalance self d)).
Proof.
  unfold should_rebalance.
  destruct self as [w [freq|] [last|]]; cbn [rebalance_frequency
    _last_rebalance_date]; try done.
  - destruct (String.eqb freq "monthly") eqn:Hm;
      [|destruct (String.eqb freq "quarterly") eqn:Hq;
        [|destruct (String.eqb freq "annually") eqn:Ha]].
    + destruct (Z.eqb_spec (month d) (month last)) as [He|He]; simpl;
        rewrite Hm, ?Z.eqb_refl; simpl; [|done].
      by destruct (Z.eqb_spec (month d) (month last)).
    + destruct (Z.eqb_spec (quarter d) (quarter last)) as [He|He]; simpl;
        rewrite Hm, Hq, ?Z.eqb_refl; simpl; [|done].
      by destruct (Z.eqb_spec (quarter d) (quarter last)).
    + destruct (Z.eqb_spec (year d) (year last)) as [He|He]; simpl;
        rewrite Hm, Hq, Ha, ?Z.eqb_refl; simpl; [|done].
      by destruct (Z.eqb_spec (year d) (year last)).
    + simpl. by rewrite Hm, Hq, Ha.
  - simpl. destruct (String.eqb freq "monthly");
      [|destruct (String.eqb freq "quarterly");
        [|destruct (String.eqb freq "annually")]];
      by rewrite ?Z.eqb_refl.
Qed.

(** The count of the rebalances of a sequence of calls that starts with
    a stored date in the calendar period of the date before the first. *)
Lemma rebalance_count_stored (freq : string) (dates : list Timestamp) :
  forall (self : t) (last prev : Timestamp),
    rebalance_frequency self = Some freq ->
    known_frequency freq ->
    _last_rebalance_date self = Some last ->
    calendar_period freq last = calendar_period freq prev ->
    valid_month last ->
    Forall valid_month dates ->
    gap_free (calendar_period freq) (prev :: dates) ->
    Z.of_nat (rebalance_count self dates)
    = calendar_period freq (List.last dates prev) - calendar_period freq prev.
Proof.
  unfold rebalance_count.
  induction dates as [|d rest IH];
    intros self last prev Hf Hk Hl Hcp Hvl Hv Hgap.
  - simpl. lia.
  - apply Forall_cons in Hv as [Hvd Hvrest].
    destruct Hgap as [Hstep Hgap]. pose proof Hstep as Hstep'.
    rewrite <- Hcp in Hstep'.
    pose proof (period_calendar_period freq last d Hk Hvl Hvd Hstep') as Hiff.
    pose proof (should_rebalance_keeps_settings self d) as [_ Hf'].
    cbn [calls].
    rewrite (should_rebalance_stored self freq last d Hf Hk Hl) in *.
    assert (Hlast : List.last (d :: rest) prev = List.last rest d).
    { clear. revert d prev. induction rest as [|d' rest IHr]; intros d prev; [done|].
      change (List.last (d :: d' :: rest) prev) with (List.last (d' :: rest) prev).
      by rewrite !IHr. }
    rewrite Hlast.
    case_decide as Hp; simpl in Hf'; rewrite Hf in Hf';
      cbn [List.filter answer length].
    + rewrite (IH self last d); try done; [|symmetry; by apply Hiff].
      assert (calendar_period freq d = calendar_period freq last) by (by apply Hiff).
      lia.
    + rewrite Nat2Z.inj_succ, (IH (set_last self d) d d); try done.
      assert (calendar_period freq d <> calendar_period freq last)
        by (intros He; by apply Hp, Hiff).
      lia.
Qed.

(** X4.  On dates that skip no period (every date in the period of the
    date before it or in the next one), a fresh portfolio with one of
    the three frequencies asks for exactly one rebalance for each
    calendar period that begins between the first date and the last. *)
Theorem rebalance_count_is_periods_crossed
    (self : t) (freq : string) (first : Timestamp) (rest : list Timestamp) :
  rebalance_frequency self = Some freq ->
  known_frequency freq ->
  _last_rebalance_date self = None ->
  Forall valid_month (first :: rest) ->
  gap_free (calendar_period freq) (first :: rest) ->
  Z.of_nat (rebalance_count self (first :: rest))
  = calendar_period freq (List.last rest first) - calendar_period freq first.
Proof.
  intros Hf Hk Hl Hv Hgap.
  apply Forall_cons in Hv as [Hv0 Hvrest].
  unfold rebalance_count. cbn [calls].
  rewrite (should_rebalance_first self freq first Hf Hl).
  cbn [List.filter answer].
  by apply (rebalance_count_stored freq rest (set_last self first) first first).
Qed.

End PolicyExtras.

Lemma init_accepts_near_one_witness :
  Portfolio.__init__ weights_tolerated None
  = ok (Portfolio.mk weights_tolerated None None) /\
  Portfolio.__init__ weights_sum_095 None = raise ValueError.
Proof.
  split.
  - apply (proj1 (init_accepts_near_one weights_tolerated None)).
    split; unfold Qcle; vm_compute; discriminate.
  - apply (proj2 (init_accepts_near_one weights_sum_095 None)).
    left. unfold Qclt. vm_compute. reflexivity.
Defined.

Lemma unknown_frequency_never_rebalances_witness : false = false.
Proof.
  apply (unknown_frequency_never_rebalances weekly_policy "weekly"
           [jan15; jan20; feb03] 2
           (Portfolio.mkCall (Portfolio.set_last weekly_policy jan15) feb03 false
              (Portfolio.set_last weekly_policy jan15))).
  - reflexivity.
  - intros [H|[H|H]]; discriminate.
  - reflexivity.
Defined.

Lemma rebalance_count_is_periods_crossed_witness :
  Z.of_nat (rebalance_count quarterly_policy [jan15; feb03; mar01; apr02])
  = calendar_period "quarterly" apr02 - calendar_period "quarterly" jan15.
Proof.
  apply (rebalance_count_is_periods_crossed quarterly_policy "quarterly" jan15
           [feb03; mar01; apr02]).
  - reflexivity.
  - right; left; reflexivity.
  - reflexivity.
  - repeat constructor; vm_compute; discriminate.
  - repeat split; vm_compute; discriminate.
Defined.

(** ** The engine: exceptions *)

Section EngineExceptions.

Import Engine.

Lemma market_value_raises (prices h : gmap string Qc) (e : exn) :
  market_value h prices = inl e -> e = KeyError.
Proof.
  unfold market_value. revert e.
  induction h as [|t x h Hh Hfirst IH] using map_first_key_ind; intros e.
  - by rewrite map_fold_empty.
  - rewrite map_fold_insert_first_key by done.
    destruct (map_fold _ _ h) as [e'|a'] eqn:Hfold; simpl.
    + intros [= <-]. by apply IH.
    + destruct (prices !! t); [done|]. by intros [= <-].
Qed.

Lemma invest_raises (prices w h : gmap string Qc) (total_value : Qc) (e : exn) :
  map_fold (invest prices total_value) (ok h) w = inl e -> e = KeyError.
Proof.
  revert e.
  induction w as [|t x w Hw Hfirst IH] using map_first_key_ind; intros e.
  - by rewrite map_fold_empty.
  - rewrite map_fold_insert_first_key by done.
    destruct (map_fold _ _ w) as [e'|a'] eqn:Hfold; unfold invest; simpl.
    + intros [= <-]. by apply IH.
    + destruct (prices !! t) as [p|]; [|by intros [= <-]].
      by destruct (decide (0 < p)%Qc).
Qed.

Lemma step_raises (annual_increase : Qc) (s : state)
    (row : Timestamp * gmap string Qc) (e : exn) :
  step annual_increase s row = inl e -> e = KeyError.
Proof.
  destruct row as [d prices]. unfold step.
  destruct (Portfolio.should_rebalance (portfolio s) d) as [b pf'].
  destruct (_ || b).
  - unfold deploy_cash.
    destruct (market_value (holdings s) prices) as [e1|mv] eqn:Hmv; simpl.
    { intros [= <-]. by eapply market_value_raises. }
    destruct (map_fold _ _ _) as [e2|h'] eqn:Hinv; simpl.
    { intros [= <-]. by eapply invest_raises. }
    unfold total_portfolio_value.
    destruct (market_value h' prices) as [e3|mv'] eqn:Hmv'; simpl; [|done].
    intros [= <-]. by eapply market_value_raises.
  - simpl. unfold total_portfolio_value.
    destruct (market_value (holdings s) prices) as [e3|mv'] eqn:Hmv'; simpl; [|done].
    intros [= <-]. by eapply market_value_raises.
Qed.

Lemma loop_raises (annual_increase : Qc) (rows : list (Timestamp * gmap string Qc)) :
  forall (s : state) (e : exn),
    loop annual_increase s rows = inl e -> e = KeyError.
Proof.
  induction rows as [|row rest IH]; intros s e; cbn [loop]; [done|].
  destruct (step annual_increase s row) as [e1|s1] eqn:Hs; cbn [bind].
  - intros [= <-]. by eapply step_raises.
  - apply IH.
Qed.

(** [KeyError] is the only exception of [run_backtest]. *)
Lemma run_backtest_raises (data : DataFrame) (pf : Portfolio.t)
    (initial_investment monthly_topup annual_increase : Qc) (e : exn) :
  run_backtest data pf initial_investment monthly_topup annual_increase = inl e ->
  e = KeyError.
Proof.
  unfold run_backtest.
  destruct (loop _ _ _) as [e1|s] eqn:Hl; cbn [bind].
  - intros [= <-]. by eapply loop_raises.
  - destruct (portfolio_history s); [by intros [= <-]|done].
Qed.

(** The holdings keep an entry for every column, from the first state
    on. *)
Lemma next_state_keeps_keys (annual_increase : Qc) (s : state) (d : Timestamp)
    (prices : gmap string Qc) (t : string) :
  is_Some (holdings s !! t) ->
  is_Some (holdings (next_state annual_increase s d prices) !! t).
Proof.
  intros Ht. unfold next_state. simpl.
  destruct (deployment_day s d); [|done].
  unfold deployed. apply lookup_union_is_Some. by right.
Qed.

(** An iteration that ended had a price for every ticker of the
    holdings it leaves. *)
Lemma step_ok_priced (annual_increase : Qc) (s s' : state) (d : Timestamp)
    (prices : gmap string Qc) :
  step annual_increase s (d, prices) = ok s' ->
  forall t, is_Some (holdings s' !! t) -> is_Some (prices !! t).
Proof.
  unfold step.
  destruct (Portfolio.should_rebalance (portfolio s) d) as [b pf'] eqn:Hsr.
  set (first := match portfolio_history s with [] => true | _ => false end).
  destruct (first || b).
  - destruct (deploy_cash _ _ _ _) as [e|hc] eqn:Hd; [done|]. cbn [bind].
    destruct (total_portfolio_value _ _ _) as [e|v] eqn:Hv; [done|].
    apply total_portfolio_value_ok_inv in Hv as [_ Hp]. cbn [bind].
    by intros [= <-].
  - simpl.
    destruct (total_portfolio_value _ _ _) as [e|v] eqn:Hv; [done|].
    apply total_portfolio_value_ok_inv in Hv as [_ Hp]. simpl.
    by intros [= <-].
Qed.

(** A deployment that ended had a price for every ticker of the target
    weights. *)
Lemma step_ok_weights_priced (annual_increase : Qc) (s s' : state) (d : Timestamp)
    (prices : gmap string Qc) :
  step annual_increase s (d, prices) = ok s' ->
  deployment_day s d = true ->
  forall t, is_Some (Portfolio.target_weights (portfolio s) !! t) ->
            is_Some (prices !! t).
Proof.
  unfold step, deployment_day.
  pose proof (should_rebalance_keeps_settings (portfolio s) d) as [Hw _].
  destruct (Portfolio.should_rebalance (portfolio s) d) as [b pf'] eqn:Hsr.
  simpl in Hw. simpl.
  set (first := match portfolio_history s with [] => true | _ => false end).
  intros Hs Hday. rewrite Hday in Hs.
  destruct (deploy_cash _ _ _ _) as [e|hc] eqn:Hd; [done|].
  apply deploy_cash_ok_inv in Hd as [_ Hp].
  intros t Ht. apply Hp. right. by rewrite Hw.
Qed.

(** A run that ended had, in every row, a price for every ticker that
    the holdings had before the run. *)
Lemma loop_ok_priced (annual_increase : Qc)
    (rows : list (Timestamp * gmap string Qc)) :
  forall (s s' : state) (t : string),
    loop annual_increase s rows = ok s' ->
    is_Some (holdings s !! t) ->
    Forall (fun row => is_Some (snd row !! t)) rows.
Proof.
  induction rows as [|[d prices] rest IH]; intros s s' t Hl Ht; [done|].
  cbn [loop] in Hl.
  destruct (step annual_increase s (d, prices)) as [e|s1] eqn:Hs; [done|].
  cbn [bind] in Hl.
  pose proof (step_ok_priced annual_increase s s1 d prices Hs) as Hp.
  apply step_ok_inv in Hs. subst s1.
  pose proof (next_state_keeps_keys annual_increase s d prices t Ht) as Ht'.
  constructor; [by apply Hp|by eapply IH].
Qed.

End EngineExceptions.

Lemma initial_holdings_columns (data : Engine.DataFrame) (pf : Portfolio.t)
    (initial_investment monthly_topup : Qc) (t : string) :
  t ∈ Engine.columns data ->
  Engine.holdings (Engine.initial_state data pf initial_investment monthly_topup) !! t
  = Some 0%Qc.
Proof.
  intros Ht. simpl.
  destruct (list_to_map _ !! t) as [x|] eqn:Hx.
  - apply elem_of_list_to_map_2, list_elem_of_fmap in Hx as (t' & [= _ ->] & _).
    done.
  - apply not_elem_of_list_to_map in Hx. exfalso. apply Hx.
    rewrite <- list_fmap_compose. simpl.
    apply list_elem_of_fmap. by exists t.
Qed.

(** X5.  Target weights that name a ticker which is not a column of the
    table, so that the first row does not carry it, make [run_backtest]
    raise [KeyError]: the first day always deploys, and the deployment
    looks up the price of every ticker of the weights. *)
Theorem run_backtest_missing_price
    (data : Engine.DataFrame) (pf : Portfolio.t)
    (initial_investment monthly_topup annual_increase : Qc)
    (d : Timestamp) (prices : gmap string Qc)
    (rest : list (Timestamp * gmap string Qc)) (t : string) :
  Engine.iterrows data = (d, prices) :: rest ->
  is_Some (Portfolio.target_weights pf !! t) ->
  t ∉ Engine.columns data ->
  prices !! t = None ->
  Engine.run_backtest data pf initial_investment monthly_topup annual_increase
  = raise KeyError.
Proof.
  intros Hdata Hw _ Hnone.
  destruct (Engine.run_backtest _ _ _ _ _) as [e|out] eqn:Hrun.
  { apply run_backtest_raises in Hrun. by subst e. }
  exfalso. unfold Engine.run_backtest in Hrun.
  destruct (Engine.loop _ _ _) as [e|s] eqn:Hl; [done|]. clear Hrun.
  rewrite Hdata in Hl. cbn [Engine.loop] in Hl.
  destruct (Engine.step _ _ _) as [e|s1] eqn:Hs; [done|].
  destruct (step_ok_weights_priced _ _ _ _ _ Hs eq_refl t Hw) as [p Hp].
  congruence.
Qed.



Section BuyAndHold.

Import Engine.


End BuyAndHold.


Section Compounding.

Import Engine.


End Compounding.


Lemma run_backtest_missing_price_witness :
  Engine.run_backtest four_months policy_60_40 (Q2Qc 1000) (Q2Qc 100) (Q2Qc 5)
  = raise KeyError.
Proof.
  apply (run_backtest_missing_price four_months policy_60_40
           (Q2Qc 1000) (Q2Qc 100) (Q2Qc 5) jan15 price_10
           [(feb03, price_10); (mar01, price_10); (apr02, price_10)]
           "GOOG"%string).
  - reflexivity.
  - by eexists.
  - intros H. by apply list_elem_of_singleton in H.
  - reflexivity.
Defined.




(** ** The engine and the stored date of the portfolio *)

Section StoredDate.

Import Portfolio.

Lemma known_frequency_dec (freq : string) :
  known_frequency freq \/ ~ known_frequency freq.
Proof.
  unfold known_frequency.
  destruct (String.eqb_spec freq "monthly"); [by left; left|].
  destruct (String.eqb_spec freq "quarterly"); [by left; right; left|].
  destruct (String.eqb_spec freq "annually"); [by left; right; right|].
  right. intuition.
Qed.

(** After any call, the stored date is in the period of the date of the
    call, as far as the frequency can tell. *)
Lemma should_rebalance_stores_period (self : t) (freq : string) (d : Timestamp) :
  rebalance_frequency self = Some freq ->
  known_frequency freq ->
  exists l, _last_rebalance_date (snd (should_rebalance self d)) = Some l /\
            period freq l = period freq d.
Proof.
  intros Hf Hk. destruct (_last_rebalance_date self) as [last|] eqn:Hl.
  - rewrite (should_rebalance_stored self freq last d Hf Hk Hl).
    case_decide; simpl; [exists last|exists d]; by rewrite ?Hl.
  - rewrite (should_rebalance_first self freq d Hf Hl). by exists d.
Qed.

Lemma same_settings_after (p1 p2 : t) (d : Timestamp) :
  same_settings p1 p2 ->
  same_settings (snd (should_rebalance p1 d)) (snd (should_rebalance p2 d)).
Proof.
  intros [Hw Hf].
  pose proof (should_rebalance_keeps_settings p1 d) as [Hw1 Hf1].
  pose proof (should_rebalance_keeps_settings p2 d) as [Hw2 Hf2].
  split; congruence.
Qed.

(** The first call brings any two objects with the same settings to
    agreement. *)
Lemma agree_after_first_call (p1 p2 : t) (d : Timestamp) :
  same_settings p1 p2 ->
  agree (snd (should_rebalance p1 d)) (snd (should_rebalance p2 d)).
Proof.
  intros Hs. split; [by apply same_settings_after|].
  destruct Hs as [Hw Hf]. intros freq Hfreq Hk.
  pose proof (should_rebalance_keeps_settings p1 d) as [_ Hf1].
  rewrite Hf1 in Hfreq.
  destruct (should_rebalance_stores_period p1 freq d Hfreq Hk) as (l1 & Hl1 & Hp1).
  destruct (should_rebalance_stores_period p2 freq d ltac:(congruence) Hk)
    as (l2 & Hl2 & Hp2).
  exists l1, l2. repeat split; congruence.
Qed.

(** Two objects that agree give the same answer and agree afterwards. *)
Lemma agree_step (p1 p2 : t) (d : Timestamp) :
  agree p1 p2 ->
  fst (should_rebalance p1 d) = fst (should_rebalance p2 d) /\
  agree (snd (should_rebalance p1 d)) (snd (should_rebalance p2 d)).
Proof.
  intros [Hs Hag]. split; [|by apply agree_after_first_call].
  destruct Hs as [Hw Hf].
  destruct (rebalance_frequency p1) as [freq|] eqn:Hf1.
  - destruct (known_frequency_dec freq) as [Hk|Hk].
    + destruct (Hag freq eq_refl Hk) as (l1 & l2 & Hl1 & Hl2 & Hp).
      rewrite (should_rebalance_stored p1 freq l1 d Hf1 Hk Hl1).
      rewrite (should_rebalance_stored p2 freq l2 d ltac:(congruence) Hk Hl2).
      rewrite Hp. by case_decide.
    + destruct (should_rebalance_unknown p1 freq d Hf1 Hk) as [-> _].
      by destruct (should_rebalance_unknown p2 freq d ltac:(congruence) Hk) as [-> _].
  - unfold should_rebalance. by rewrite Hf1, <- Hf.
Qed.

End StoredDate.

Section OtherPortfolio.

Import Engine.

Context (annual_increase : Qc).

(** An iteration with another portfolio object that agrees with the one
    of the state, or with the same settings on the first day: the same
    exception, or the same state up to the portfolio object. *)
Lemma step_with_portfolio (s : state) (p2 : Portfolio.t) (d : Timestamp)
    (prices : gmap string Qc) :
  agree (portfolio s) p2 \/
  (portfolio_history s = [] /\ same_settings (portfolio s) p2) ->
  step annual_increase (with_portfolio s p2) (d, prices)
  = match step annual_increase s (d, prices) with
    | inl e => inl e
    | inr s' => inr (with_portfolio s' (snd (Portfolio.should_rebalance p2 d)))
    end.
Proof.
  intros Hrel.
  assert (Hw : Portfolio.target_weights (snd (Portfolio.should_rebalance (portfolio s) d))
               = Portfolio.target_weights (snd (Portfolio.should_rebalance p2 d))).
  { destruct Hrel as [[Hs _]|[_ Hs]]; by apply same_settings_after. }
  assert (Hday :
    match portfolio_history s with [] => true | _ => false end
    || fst (Portfolio.should_rebalance (portfolio s) d)
    = match portfolio_history s with [] => true | _ => false end
      || fst (Portfolio.should_rebalance p2 d)).
  { destruct Hrel as [Ha|[-> _]]; [|done].
    by destruct (agree_step _ _ d Ha) as [-> _]. }
  unfold step, topup_on, cash_on, with_portfolio.
  cbn [holdings cash current_monthly_topup portfolio_history last_month
       last_year portfolio].
  destruct (Portfolio.should_rebalance (portfolio s) d) as [b1 p1'].
  destruct (Portfolio.should_rebalance p2 d) as [b2 p2'].
  cbn [fst snd] in Hw, Hday. rewrite <- Hday, <- Hw.
  destruct (_ || b1).
  - destruct (deploy_cash _ _ _ _) as [e|hc]; [done|]. cbn [bind].
    by destruct (total_portfolio_value _ _ _).
  - simpl. by destruct (total_portfolio_value _ _ _).
Qed.

Lemma loop_with_portfolio (rows : list (Timestamp * gmap string Qc)) :
  forall (s : state) (p2 : Portfolio.t),
    agree (portfolio s) p2 \/
    (portfolio_history s = [] /\ same_settings (portfolio s) p2) ->
    exists p2',
      loop annual_increase (with_portfolio s p2) rows
      = match loop annual_increase s rows with
        | inl e => inl e
        | inr s' => inr (with_portfolio s' p2')
        end.
Proof.
  induction rows as [|[d prices] rest IH]; intros s p2 Hrel; cbn [loop].
  - by exists p2.
  - rewrite (step_with_portfolio s p2 d prices Hrel).
    destruct (step annual_increase s (d, prices)) as [e|s1] eqn:Hs; cbn [bind].
    + by exists p2.
    + apply step_ok_inv in Hs. subst s1. apply IH. left.
      unfold next_state. cbn [portfolio].
      destruct Hrel as [Ha|[_ Hs]].
      * by apply agree_step.
      * by apply agree_after_first_call.
Qed.

End OtherPortfolio.

(** X10.  The date that a portfolio object stores when a run begins has
    no influence on the run: two portfolios with the same weights and the
    same frequency give the same series, holdings and cash, or the same
    exception.  A portfolio that an earlier run has used can be used
    again. *)
Theorem run_backtest_ignores_stored_date
    (data : Engine.DataFrame) (pf1 pf2 : Portfolio.t)
    (initial_investment monthly_topup annual_increase : Qc) :
  same_settings pf1 pf2 ->
  returned (Engine.run_backtest data pf1 initial_investment monthly_topup
              annual_increase)
  = returned (Engine.run_backtest data pf2 initial_investment monthly_topup
                annual_increase).
Proof.
  intros Hs. unfold Engine.run_backtest.
  destruct (loop_with_portfolio annual_increase (Engine.iterrows data)
              (Engine.initial_state data pf1 initial_investment monthly_topup) pf2)
    as [p2' Hl]; [right; by split|].
  change (with_portfolio (Engine.initial_state data pf1 initial_investment
                            monthly_topup) pf2)
    with (Engine.initial_state data pf2 initial_investment monthly_topup) in Hl.
  rewrite Hl.
  destruct (Engine.loop annual_increase
              (Engine.initial_state data pf1 initial_investment monthly_topup)
              (Engine.iterrows data)) as [e|s]; [done|].
  cbn [bind with_portfolio Engine.portfolio_history Engine.holdings Engine.cash].
  by destruct (Engine.portfolio_history s).
Qed.

Lemma run_backtest_ignores_stored_date_witness :
  returned (Engine.run_backtest two_assets policy_60_40 (Q2Qc 1000) (Q2Qc 100)
              (Q2Qc 5))
  = returned (Engine.run_backtest two_assets used_policy_60_40 (Q2Qc 1000)
                (Q2Qc 100) (Q2Qc 5)).
Proof.
  apply (run_backtest_ignores_stored_date two_assets policy_60_40 used_policy_60_40).
  split; reflexivity.
Defined.

(** ** The forecast: exceptions, the generator and the dates *)

(** The calendar functions are inverse to each other on day numbers. *)
Lemma days_from_civil_civil_from_days (z : Z) :
  days_from_civil (civil_from_days z) = z.
Proof.
  unfold days_from_civil, civil_from_days. cbn [year month day].
  set (z1 := z + 719468).
  set (era := z1 / 146097).
  set (doe := z1 - era * 146097).
  assert (Hdoe : 0 <= doe <= 146096)
    by (subst doe era; Z.div_mod_to_equations; lia).
  set (yoe := (doe - doe / 1460 + doe / 36524 - doe / 146096) / 365).
  assert (Hyoe : 0 <= yoe <= 399) by (subst yoe; Z.div_mod_to_equations; lia).
  set (doy := doe - (365 * yoe + yoe / 4 - yoe / 100)).
  assert (Hdoy : 0 <= doy <= 365)
    by (subst doy yoe; Z.div_mod_to_equations; lia).
  set (mp := (5 * doy + 2) / 153).
  assert (Hmp : 0 <= mp <= 11) by (subst mp; Z.div_mod_to_equations; lia).
  assert (Hera : (yoe + era * 400) / 400 = era)
    by (Z.div_mod_to_equations; lia).
  destruct (Z.ltb_spec mp 10) as [Hlt|Hge].
  - destruct (Z.leb_spec (mp + 3) 2); [lia|].
    destruct (Z.ltb_spec 2 (mp + 3)); [|lia].
    rewrite Hera. replace (mp + 3 - 3) with mp by lia.
    replace (yoe + era * 400 - era * 400) with yoe by lia.
    unfold doy, doe, z1. lia.
  - destruct (Z.leb_spec (mp - 9) 2); [|lia].
    destruct (Z.ltb_spec 2 (mp - 9)); [lia|].
    replace (yoe + era * 400 + 1 - 1) with (yoe + era * 400) by lia.
    rewrite Hera. replace (mp - 9 + 9) with mp by lia.
    replace (yoe + era * 400 - era * 400) with yoe by lia.
    unfold doy, doe, z1. lia.
Qed.

Lemma days_from_civil_add_days (d : Timestamp) (x : Z) :
  days_from_civil (add_days d x) = days_from_civil d + x.
Proof. apply days_from_civil_civil_from_days. Qed.

Section ForecastCalls.

Import Forecasting.

Context (sqrt : Qc -> Qc) {G : Type} (standard_normal : G -> Qc * G).

Local Abbreviation run := (run_monte_carlo_simulation sqrt G standard_normal).
Local Abbreviation draws := (Forecasting.draws G standard_normal).

(** A call with a negative number of years or of paths. *)
Lemma run_negative (historical_returns : list (Timestamp * float))
    (projection_years : Z) (initial_value : float) (num_simulations : Z) (g : G) :
  (projection_years <? 0) || (num_simulations <? 0) = true ->
  run historical_returns projection_years initial_value num_simulations g
  = (raise ValueError, g).
Proof.
  intros Hneg. unfold run_monte_carlo_simulation, zeros.
  replace (projection_years * 252 <? 0) with (projection_years <? 0).
  2: { destruct (Z.ltb_spec projection_years 0),
         (Z.ltb_spec (projection_years * 252) 0); done || lia. }
  by rewrite Hneg.
Qed.


(** X12.  The state in which a call leaves the generator depends on the
    number of years and of paths only: after [num_simulations] times
    [projection_years * 252] draws, also when the call ends with
    [IndexError]; untouched when a dimension is negative. *)
Theorem generator_after_call
    (historical_returns : list (Timestamp * float))
    (projection_years : Z) (initial_value : float) (num_simulations : Z) (g : G) :
  (forall x, (0 <= sqrt x)%Qc) ->
  snd (run historical_returns projection_years initial_value num_simulations g)
  = if (projection_years <? 0) || (num_simulations <? 0) then g
    else snd (draws (Z.to_nat num_simulations
                     * Z.to_nat (projection_years * 252)) g).
Proof.
  intros Hs.
  destruct ((projection_years <? 0) || (num_simulations <? 0)) eqn:Hneg.
  - by rewrite run_negative.
  - apply orb_false_iff in Hneg as [Hy Hn].
    apply Z.ltb_ge in Hy. apply Z.ltb_ge in Hn.
    destruct (run_accepted sqrt standard_normal historical_returns
                projection_years initial_value num_simulations g)
      as (m & _ & _ & Hrun); [by apply std_accepted | done | done |].
    by rewrite Hrun.
Qed.

(** What a returned frame is made of. *)
Lemma run_returns (historical_returns : list (Timestamp * float))
    (projection_years : Z) (initial_value : float) (num_simulations : Z) (g : G)
    (forecast_df : list (Timestamp * forecast_row)) :
  fst (run historical_returns projection_years initial_value num_simulations g)
    = ok forecast_df ->
  exists last_date m,
    last (fst <$> historical_returns) = Some last_date /\
    forecast_df
    = zip (future_dates last_date (Z.to_nat (projection_years * 252)))
        (quantiles <$> m).
Proof.
  unfold run_monte_carlo_simulation.
  destruct (zeros _ _) as [e|m0]; [done|].
  destruct (simulations _ _ _ _ _ _ _ _ _ _) as [[e|m] g']; [done|].
  unfold last_index. destruct (last _) as [last_date|]; [|done].
  cbv beta iota zeta. destruct ((_ =? 0) && (_ =? 0)); [done|].
  cbn [fst]. intros [= <-]. by exists last_date, m.
Qed.

Lemma future_dates_lookup (last_date : Timestamp) (n k : nat) (d : Timestamp) :
  future_dates last_date n !! k = Some d ->
  d = add_days last_date (Z.of_nat k + 1).
Proof.
  unfold future_dates. rewrite list_lookup_fmap.
  destruct (seq 1 n !! k) as [x|] eqn:Hx; [|done].
  apply lookup_seq in Hx as [-> _]. intros [= <-]. f_equal. lia.
Qed.

(** X13.  The index of a returned frame continues the history day by
    day: line [k] (from 0) is dated [k + 1] calendar days after the last
    date of the history, so that the dates are consecutive, increasing
    and all later than the history. *)
Theorem forecast_dates_follow_history
    (historical_returns : list (Timestamp * float))
    (projection_years : Z) (initial_value : float) (num_simulations : Z) (g : G)
    (forecast_df : list (Timestamp * forecast_row)) (last_date : Timestamp) :
  fst (run historical_returns projection_years initial_value num_simulations g)
    = ok forecast_df ->
  last (fst <$> historical_returns) = Some last_date ->
  forall (k : nat) (line : Timestamp * forecast_row),
    forecast_df !! k = Some line ->
    days_from_civil (fst line) = days_from_civil last_date + Z.of_nat k + 1.
Proof.
  intros Hrun Hlast k [d row] Hk.
  apply run_returns in Hrun as (last_date' & m & Hlast' & ->).
  rewrite Hlast in Hlast'. injection Hlast' as <-.
  apply lookup_zip_with_Some in Hk as (d' & row' & [= <- <-] & Hd & _).
  apply future_dates_lookup in Hd as ->. cbn [fst].
  rewrite days_from_civil_add_days. lia.
Qed.

End ForecastCalls.


Lemma generator_after_call_witness :
  snd (Forecasting.run_monte_carlo_simulation sqrt_floor nat counting_normal
         three_returns 1 (Forecasting.Fin (Q2Qc 1000)) 2 0%nat)
  = snd (Forecasting.draws nat counting_normal (2 * 252) 0%nat).
Proof.
  apply (generator_after_call sqrt_floor counting_normal three_returns 1
           (Forecasting.Fin (Q2Qc 1000)) 2 0%nat).
  apply sqrt_floor_nonneg.
Defined.

Lemma forecast_dates_follow_history_witness :
  last (fst <$> one_zero_return) = Some jan15 /\
  forall (k : nat) (line : Timestamp * Forecasting.forecast_row),
    zip (Forecasting.future_dates jan15 252) (replicate 252 nan_row) !! k
      = Some line ->
    days_from_civil (fst line) = days_from_civil jan15 + Z.of_nat k + 1.
Proof.
  split; [reflexivity|].
  apply (forecast_dates_follow_history sqrt_floor counting_normal
           one_zero_return 1 (Forecasting.Fin (Q2Qc 1000)) 2 0%nat).
  - vm_compute. reflexivity.
  - reflexivity.
Defined.

(** ** The forecast: histories that are too short *)

Section ShortHistory.

Import Forecasting.

Context (sqrt : Qc -> Qc) {G : Type} (standard_normal : G -> Qc * G).

Local Abbreviation run := (run_monte_carlo_simulation sqrt G standard_normal).
Local Abbreviation draws := (Forecasting.draws G standard_normal).
Local Abbreviation simulations := (Forecasting.simulations G standard_normal).

(** With a deviation that is not a number every shock is [NaN], and so
    is every price that the inner loop writes. *)
Lemma price_path_nan (i n : nat) (R : list float) :
  forall (p : float) (pre post : list (list float)),
    price_path (replicate n NaN) i (length pre) p (pre ++ replicate n R ++ post)
    = pre ++ replicate n (<[i := NaN]> R) ++ post.
Proof.
  induction n as [|n IH]; intros p pre post; [done|].
  cbn [replicate price_path].
  replace (fmul p (fadd (Fin 1%Qc) NaN)) with NaN by (by destruct p).
  unfold set_cell.
  replace (length pre) with (length pre + 0)%nat at 2 by lia.
  rewrite alter_app_r. cbn [alter list_alter app].
  specialize (IH NaN (pre ++ [<[i := NaN]> R]) post).
  rewrite length_app in IH. cbn [length] in IH.
  replace (length pre + 1)%nat with (S (length pre)) in IH by lia.
  rewrite <- !app_assoc in IH. exact IH.
Qed.

Lemma simulations_nan (mu v : float) (num_days : nat) :
  forall (todo i : nat) (g : G),
    simulations mu NaN v num_days todo i
      (replicate num_days (replicate i NaN ++ replicate todo (Fin 0%Qc))) g
    = (ok (replicate num_days (replicate (i + todo) NaN)),
       snd (draws (todo * num_days) g)).
Proof.
  induction todo as [|todo IH]; intros i g.
  - simpl. by rewrite app_nil_r, Nat.add_0_r.
  - cbn [Forecasting.simulations].
    rewrite normal_accepted by done.
    unfold ok. cbv beta iota.
    assert (Hshocks :
      (fun z => fadd mu (fmul NaN (Fin z))) <$> fst (draws num_days g)
      = replicate num_days NaN).
    { rewrite <- (draws_length standard_normal num_days g) at 2.
      generalize (fst (draws num_days g)). intros zs.
      induction zs as [|z zs IHz]; [done|]. cbn. f_equal; [by destruct mu|exact IHz]. }
    rewrite Hshocks.
    pose proof (price_path_nan i num_days
                  (replicate i NaN ++ replicate (S todo) (Fin 0%Qc)) v [] []) as Hp.
    rewrite !app_nil_r in Hp. cbn [app length] in Hp. rewrite Hp.
    replace (<[i := NaN]> (replicate i NaN ++ replicate (S todo) (Fin 0%Qc)))
      with (replicate (S i) NaN ++ replicate todo (Fin 0%Qc)).
    2: { rewrite insert_app_r_alt by (rewrite length_replicate; lia).
         rewrite length_replicate, Nat.sub_diag.
         rewrite replicate_S_end, <- app_assoc. reflexivity. }
    rewrite IH. unfold ok.
    replace (S i + todo)%nat with (i + S todo)%nat by lia.
    replace (S todo * num_days)%nat with (num_days + todo * num_days)%nat by lia.
    by rewrite draws_add.
Qed.

Lemma quantiles_nan (n : nat) : quantiles (replicate n NaN) = nan_row.
Proof.
  assert (Hf : finite_values (replicate n NaN) = []).
  { induction n as [|n IH]; [done|]. exact IH. }
  unfold quantiles, quantile. rewrite Hf. reflexivity.
Qed.

(** X14.  A history with fewer than two returns that are numbers has no
    deviation, and the forecast made from it carries no number at all:
    for any initial value and any positive number of years and of
    paths, the call returns its frame of [projection_years * 252] lines
    with [NaN] in the five columns of every line. *)
Theorem short_history_nan_forecast
    (historical_returns : list (Timestamp * float))
    (projection_years : Z) (initial_value : float) (num_simulations : Z) (g : G)
    (last_date : Timestamp) :
  (length (finite_values (snd <$> historical_returns)) <= 1)%nat ->
  last (fst <$> historical_returns) = Some last_date ->
  0 < projection_years ->
  0 < num_simulations ->
  fst (run historical_returns projection_years initial_value num_simulations g)
  = ok (zip (future_dates last_date (Z.to_nat (projection_years * 252)))
          (replicate (Z.to_nat (projection_years * 252)) nan_row)).
Proof.
  intros Hlen Hlast Hy Hn.
  assert (Hstd : std sqrt (snd <$> historical_returns) = NaN).
  { unfold std. by destruct (Nat.leb_spec
      (length (finite_values (snd <$> historical_returns))) 1); [|lia]. }
  destruct (run_accepted sqrt standard_normal historical_returns
              projection_years initial_value num_simulations g)
    as (m & Hm & _ & Hrun); [by rewrite Hstd | lia | lia |].
  rewrite Hstd in Hm.
  pose proof (simulations_nan (mean (snd <$> historical_returns)) initial_value
                (Z.to_nat (projection_years * 252))
                (Z.to_nat num_simulations) 0 g) as Hnan.
  cbn [replicate app Nat.add] in Hnan. rewrite Hnan in Hm.
  injection Hm as Hm. subst m.
  rewrite Hrun, Hlast, some_dimension_positive by (left; lia).
  cbn [fst]. by rewrite fmap_replicate, quantiles_nan.
Qed.

End ShortHistory.

Lemma short_history_nan_forecast_witness :
  fst (Forecasting.run_monte_carlo_simulation sqrt_floor nat counting_normal
         one_zero_return 2 (Forecasting.Fin (Q2Qc 1000)) 3 0%nat)
  = ok (zip (Forecasting.future_dates jan15 (Z.to_nat (2 * 252)))
          (replicate (Z.to_nat (2 * 252)) nan_row)).
Proof.
  apply (short_history_nan_forecast sqrt_floor counting_normal one_zero_return 2
           (Forecasting.Fin (Q2Qc 1000)) 3 0%nat jan15).
  - simpl. lia.
  - reflexivity.
  - lia.
  - lia.
Defined.

(** ** The forecast: the order of the quantile columns *)

Section QuantileOrder.

Import Forecasting.

Ltac to_Q :=
  unfold Qcle, Qclt, Qcminus, Qcplus, Qcmult, Qcopp, Qc_of_nat in *;
  cbn [this Q2Qc] in *; rewrite ?Qred_correct in *.

Lemma Forall_insert_sorted (P : Qc -> Prop) (x : Qc) (l : list Qc) :
  P x -> Forall P l -> Forall P (insert_sorted x l).
Proof.
  intros Hx. induction 1 as [|y rest Hy Hrest IH]; cbn [insert_sorted].
  - by constructor.
  - destruct (Qle_bool _ _); repeat constructor; done.
Qed.

Lemma insert_sorted_ascending (x : Qc) (l : list Qc) :
  ascending l -> ascending (insert_sorted x l).
Proof.
  induction l as [|y rest IH]; cbn [insert_sorted ascending]; [done|].
  intros [Hy Hrest].
  destruct (Qle_bool (this x) (this y)) eqn:Hle; cbn [ascending].
  - apply Qle_bool_iff in Hle. split; [|done].
    constructor; [exact Hle|].
    eapply Forall_impl; [exact Hy|]. intros z Hz. by eapply Qcle_trans.
  - split; [|by apply IH].
    apply Forall_insert_sorted; [|done].
    apply Qclt_le_weak, Qcnot_le_lt. intros Hxy.
    apply Qle_bool_iff in Hxy. congruence.
Qed.

Lemma sort_ascending (l : list Qc) : ascending (sort l).
Proof.
  induction l as [|x l IH]; [done|]. by apply insert_sorted_ascending.
Qed.

Lemma ascending_nth (v : list Qc) (d : Qc) :
  ascending v ->
  forall i j : nat, (i <= j < length v)%nat -> (nth i v d <= nth j v d)%Qc.
Proof.
  induction v as [|x v IH]; cbn [ascending length]; [lia|].
  intros [Hx Hv] [|i] [|j] Hij; cbn [nth]; try lia.
  - apply Qcle_refl.
  - rewrite Forall_forall in Hx. apply Hx, list_elem_of_In, nth_In. lia.
  - apply IH; [done|lia].
Qed.

Lemma Qc_of_nat_le (a b : nat) :
  (Qc_of_nat a <= Qc_of_nat b)%Qc <-> (a <= b)%nat.
Proof.
  to_Q. rewrite <- Zle_Qle. lia.
Qed.

(** The whole part and the fractional part of a position. *)
Lemma floor_bounds (pos : Qc) :
  (0 <= pos)%Qc ->
  (Qc_of_nat (Z.to_nat (Qfloor pos)) <= pos)%Qc /\
  (pos < Qc_of_nat (Z.to_nat (Qfloor pos)) + 1)%Qc.
Proof.
  intros Hpos.
  assert (Hfl : 0 <= Qfloor pos).
  { change 0 with (Qfloor 0). by apply Qfloor_resp_le. }
  to_Q. rewrite Z2Nat.id by done. split.
  - apply Qfloor_le.
  - pose proof (Qlt_floor pos) as Hlt. rewrite inject_Z_plus in Hlt. exact Hlt.
Qed.

(** Linear interpolation in an ascending list does not decrease with
    the position. *)
Lemma interpolation_monotone (v : list Qc) (d : Qc) (lo1 lo2 : nat) (f1 f2 : Qc) :
  ascending v ->
  (lo2 <= length v - 1)%nat -> (0 < length v)%nat ->
  (0 <= f1)%Qc -> (f1 < 1)%Qc -> (0 <= f2)%Qc -> (f2 < 1)%Qc ->
  (Qc_of_nat lo1 + f1 <= Qc_of_nat lo2 + f2)%Qc ->
  (nth lo1 v d + (nth (Nat.min (lo1 + 1) (length v - 1)) v d - nth lo1 v d) * f1
   <= nth lo2 v d + (nth (Nat.min (lo2 + 1) (length v - 1)) v d - nth lo2 v d) * f2)%Qc.
Proof.
  intros Hv Hlo2 Hn Hf1 Hf1' Hf2 Hf2' Hpos.
  assert (Hle : (lo1 <= lo2)%nat).
  { destruct (Nat.le_gt_cases lo1 lo2) as [|Hgt]; [done|]. exfalso.
    assert (Hq : (Qc_of_nat (S lo2) <= Qc_of_nat lo1)%Qc) by (apply Qc_of_nat_le; lia).
    rewrite Qc_of_nat_S in Hq. to_Q. lra. }
  assert (Hb2 : (nth lo2 v d <= nth (Nat.min (lo2 + 1) (length v - 1)) v d)%Qc)
    by (apply ascending_nth; [done|lia]).
  destruct (decide (lo1 = lo2)) as [->|Hne].
  - assert (Hf : (f1 <= f2)%Qc) by (to_Q; lra).
    to_Q. nra.
  - replace (Nat.min (lo1 + 1) (length v - 1)) with (lo1 + 1)%nat by lia.
    assert (Ha1 : (nth lo1 v d <= nth (lo1 + 1) v d)%Qc)
      by (apply ascending_nth; [done|lia]).
    assert (Hmid : (nth (lo1 + 1) v d <= nth lo2 v d)%Qc)
      by (apply ascending_nth; [done|lia]).
    to_Q. nra.
Qed.

(** The quantile of a line does not decrease with the level. *)
Lemma quantile_monotone (q1 q2 : Qc) (row : list float) (a b : Qc) :
  (0 <= q1)%Qc -> (q1 <= q2)%Qc -> (q2 <= 1)%Qc ->
  quantile q1 row = Fin a -> quantile q2 row = Fin b -> (a <= b)%Qc.
Proof.
  intros H0 H12 H1. unfold quantile.
  pose proof (sort_ascending (finite_values row)) as Hv.
  destruct (sort (finite_values row)) as [|x0 v'] eqn:Hsort; [done|].
  set (v := x0 :: v') in *. cbv zeta.
  set (N := Qc_of_nat (length v - 1)).
  assert (HN : (0 <= N)%Qc) by (apply (Qc_of_nat_le 0); lia).
  assert (Hp1 : (0 <= q1 * N)%Qc) by (to_Q; nra).
  assert (Hp2 : (0 <= q2 * N)%Qc) by (to_Q; nra).
  assert (Hp12 : (q1 * N <= q2 * N)%Qc) by (to_Q; nra).
  assert (Hp2N : (q2 * N <= N)%Qc) by (to_Q; nra).
  destruct (floor_bounds (q1 * N)%Qc Hp1) as [Hl1 Hu1].
  destruct (floor_bounds (q2 * N)%Qc Hp2) as [Hl2 Hu2].
  set (lo1 := Z.to_nat (Qfloor (q1 * N)%Qc)) in *.
  set (lo2 := Z.to_nat (Qfloor (q2 * N)%Qc)) in *.
  intros [= <-] [= <-].
  apply (interpolation_monotone v x0 lo1 lo2 (q1 * N - Qc_of_nat lo1)
           (q2 * N - Qc_of_nat lo2)).
  - exact Hv.
  - apply Qc_of_nat_le. fold N. by eapply Qcle_trans.
  - cbn. lia.
  - clear -Hl1. to_Q. lra.
  - clear -Hu1. to_Q. lra.
  - clear -Hl2. to_Q. lra.
  - clear -Hu2. to_Q. lra.
  - replace (Qc_of_nat lo1 + (q1 * N - Qc_of_nat lo1))%Qc with (q1 * N)%Qc by ring.
    replace (Qc_of_nat lo2 + (q2 * N - Qc_of_nat lo2))%Qc with (q2 * N)%Qc by ring.
    exact Hp12.
Qed.

Lemma quantile_nan (q1 q2 : Qc) (row : list float) :
  quantile q1 row = NaN -> quantile q2 row = NaN.
Proof.
  unfold quantile. by destruct (sort (finite_values row)).
Qed.

(** The five columns of one line. *)
Lemma quantiles_ordered (row : list float) :
  quantiles row = nan_row \/
  exists l05 l25 m u75 u95 : Qc,
    quantiles row = mkRow (Fin m) (Fin u75) (Fin l25) (Fin u95) (Fin l05) /\
    (l05 <= l25)%Qc /\ (l25 <= m)%Qc /\ (m <= u75)%Qc /\ (u75 <= u95)%Qc.
Proof.
  unfold quantiles.
  destruct (quantile (Q2Qc (5 # 100)) row) as [l05|] eqn:H05.
  2: { left. by rewrite !(quantile_nan _ _ row H05). }
  right.
  destruct (quantile (Q2Qc (1 # 4)) row) as [l25|] eqn:H25;
    [|by rewrite (quantile_nan _ _ row H25) in H05].
  destruct (quantile (Q2Qc (1 # 2)) row) as [m|] eqn:H50;
    [|by rewrite (quantile_nan _ _ row H50) in H05].
  destruct (quantile (Q2Qc (3 # 4)) row) as [u75|] eqn:H75;
    [|by rewrite (quantile_nan _ _ row H75) in H05].
  destruct (quantile (Q2Qc (95 # 100)) row) as [u95|] eqn:H95;
    [|by rewrite (quantile_nan _ _ row H95) in H05].
  exists l05, l25, m, u75, u95. split; [done|].
  repeat split.
  - by apply (quantile_monotone (Q2Qc (5 # 100)) (Q2Qc (1 # 4)) row).
  - by apply (quantile_monotone (Q2Qc (1 # 4)) (Q2Qc (1 # 2)) row).
  - by apply (quantile_monotone (Q2Qc (1 # 2)) (Q2Qc (3 # 4)) row).
  - by apply (quantile_monotone (Q2Qc (3 # 4)) (Q2Qc (95 # 100)) row).
Qed.

Context (sqrt : Qc -> Qc) {G : Type} (standard_normal : G -> Qc * G).


End QuantileOrder.


(** ** The risk report: weights and lines *)

Section RiskExtras.

Context {cell metrics figure : Type}.
Context (nan : cell) (isna : cell -> bool) (log_ratio : cell -> cell -> cell).
Context (analyse : list cell -> list (list cell) -> metrics * figure).

Local Abbreviation DataFrame := (Risk.DataFrame cell).
Local Abbreviation report := (Risk.generate_risk_report cell nan isna log_ratio metrics figure analyse).
Local Abbreviation returns := (Risk.log_returns cell nan isna log_ratio).

(** The lookup of the weights fails exactly on a column without a
    weight, and with [KeyError] only. *)
Lemma ordered_raises (weights : gmap string cell) (tickers : list string) (e : exn) :
  Risk.ordered cell weights tickers = raise e <->
  e = KeyError /\ exists ticker, ticker ∈ tickers /\ weights !! ticker = None.
Proof.
  induction tickers as [|ticker rest IH]; cbn [Risk.ordered].
  - split; [done|]. intros (_ & t & Ht & _). by apply elem_of_nil in Ht.
  - destruct (weights !! ticker) as [w|] eqn:Hw.
    + destruct (Risk.ordered cell weights rest) as [e'|ws].
      * split.
        -- intros He. apply IH in He as (-> & t & Ht & Hnone).
           split; [done|]. exists t. split; [by right|done].
        -- intros (-> & t & Ht & Hnone). apply IH. split; [done|].
           exists t. split; [|done].
           apply elem_of_cons in Ht as [->|Ht]; [congruence|done].
      * split; [done|]. intros (-> & t & Ht & Hnone).
        apply elem_of_cons in Ht as [->|Ht]; [congruence|].
        assert (Hr : @inr exn (list cell) ws = raise KeyError); [|done].
        apply IH. split; [done|]. by exists t.
    + split.
      * intros [= <-]. split; [done|]. exists ticker. split; [by left|done].
      * by intros (-> & _).
Qed.

(** The cells that the lookup of the weights reads. *)
Lemma ordered_agree (weights1 weights2 : gmap string cell) (tickers : list string) :
  (forall ticker, ticker ∈ tickers -> weights1 !! ticker = weights2 !! ticker) ->
  Risk.ordered cell weights1 tickers = Risk.ordered cell weights2 tickers.
Proof.
  induction tickers as [|ticker rest IH]; intros Hag; cbn [Risk.ordered]; [done|].
  rewrite (Hag ticker) by by left.
  rewrite IH; [done|]. intros t Ht. apply Hag. by right.
Qed.

(** X16.  The report raises exactly when the frame passes the first
    guard (at least two lines and one column) and some column has no
    weight, and the exception is [KeyError]: the weights are looked up
    before the returns are counted, and a frame with a single line
    never raises. *)
Theorem risk_report_key_error_iff
    (price_data : DataFrame) (weights : gmap string cell) (e : exn) :
  report price_data weights = raise e <->
  e = KeyError /\
  (2 <= length (Risk.values cell price_data))%nat /\
  (1 <= length (Risk.columns cell price_data))%nat /\
  exists ticker, ticker ∈ Risk.columns cell price_data /\ weights !! ticker = None.
Proof.
  unfold Risk.generate_risk_report, Risk.shape. cbn [fst snd].
  destruct (Nat.ltb_spec (length (Risk.values cell price_data)) 2) as [Hr|Hr];
    cbn [orb].
  { split; [done|]. intros (_ & ? & _). lia. }
  destruct (Nat.ltb_spec (length (Risk.columns cell price_data)) 1) as [Hc|Hc].
  { split; [done|]. intros (_ & _ & ? & _). lia. }
  pose proof (ordered_raises weights (Risk.columns cell price_data) e) as Hord.
  destruct (Risk.ordered cell weights (Risk.columns cell price_data)) as [e'|ws].
  - split.
    + intros [= ->]. destruct (proj1 Hord eq_refl) as [-> Hex]. done.
    + intros (-> & _ & _ & Hex).
      assert (He : @inl exn (list cell) e' = raise KeyError) by (by apply Hord).
      by injection He as ->.
  - split.
    + destruct (_ <? _)%nat; [done|]. by destruct (analyse _ _).
    + intros (-> & _ & _ & Hex).
      assert (Hr' : @inr exn (list cell) ws = raise KeyError); [|done].
      apply Hord. done.
Qed.

(** X17.  The report is all or nothing, and nothing for a frame of two
    lines: the two results are both [None] or both present, and they
    are present only for a frame of at least three lines, since the
    first line has no line above it and its returns are removed as
    missing.  The logarithm of a ratio with [NaN] is taken to be
    missing, and every line to have one cell for each column. *)
Theorem risk_report_needs_three_lines
    (price_data : DataFrame) (weights : gmap string cell)
    (m : option metrics) (fig : option figure) :
  (forall x, isna (log_ratio x nan) = true) ->
  Forall (fun row => length (snd row) = length (Risk.columns cell price_data))
    (Risk.values cell price_data) ->
  report price_data weights = ok (m, fig) ->
  (m = None /\ fig = None) \/
  (is_Some m /\ is_Some fig /\ (3 <= length (Risk.values cell price_data))%nat).
Proof.
  intros Hnan Hwf. unfold Risk.generate_risk_report, Risk.shape. cbn [fst snd].
  destruct (Nat.ltb_spec (length (Risk.values cell price_data)) 2) as [Hr|Hr];
    cbn [orb].
  { intros [= <- <-]. by left. }
  destruct (Nat.ltb_spec (length (Risk.columns cell price_data)) 1) as [Hc|Hc].
  { intros [= <- <-]. by left. }
  destruct (Risk.ordered cell weights (Risk.columns cell price_data)) as [e'|ws];
    [done|].
  destruct (Nat.ltb_spec (length (returns price_data)) 2) as [Hl|Hl].
  { intros [= <- <-]. by left. }
  destruct (analyse _ _) as [m' fig']. intros [= <- <-]. right.
  split; [by eexists|]. split; [by eexists|].
  pose proof (log_returns_lose_first_line nan isna log_ratio price_data Hnan)
    as Hlose.
  assert (length (returns price_data)
          <= length (Risk.values cell price_data) - 1)%nat; [|lia].
  apply Hlose.
  - intros Hnil. rewrite Hnil in Hc. cbn in Hc. lia.
  - eapply Forall_impl; [exact Hwf|]. intros row Hrow Hnil.
    cbv beta in Hrow. rewrite Hnil in Hrow. cbn in Hrow. lia.
Qed.

(** X18.  The report reads the weights of the columns of the frame and
    no others: two weight dictionaries that agree on the columns give
    the same report or the same exception. *)
Theorem risk_report_reads_weights_of_columns
    (price_data : DataFrame) (weights1 weights2 : gmap string cell) :
  (forall ticker, ticker ∈ Risk.columns cell price_data ->
                  weights1 !! ticker = weights2 !! ticker) ->
  report price_data weights1 = report price_data weights2.
Proof.
  intros Hag. unfold Risk.generate_risk_report.
  by rewrite (ordered_agree weights1 weights2 _ Hag).
Qed.

End RiskExtras.

Lemma risk_report_key_error_iff_witness :
  Risk.generate_risk_report _ Forecasting.NaN cell_isna cell_log_ratio _ _
    cell_analyse two_row_prices ∅ = raise KeyError <->
  KeyError = KeyError /\
  (2 <= length (Risk.values _ two_row_prices))%nat /\
  (1 <= length (Risk.columns _ two_row_prices))%nat /\
  exists ticker, ticker ∈ Risk.columns _ two_row_prices /\
                 (∅ : gmap string Forecasting.float) !! ticker = None.
Proof.
  apply (risk_report_key_error_iff Forecasting.NaN cell_isna cell_log_ratio
           cell_analyse two_row_prices ∅ KeyError).
Defined.

Lemma risk_report_needs_three_lines_witness :
  (Some 1%nat = None /\ Some 2%nat = None) \/
  (is_Some (Some 1%nat) /\ is_Some (Some 2%nat) /\
   (3 <= length (Risk.values _ three_row_prices))%nat).
Proof.
  apply (risk_report_needs_three_lines Forecasting.NaN cell_isna cell_log_ratio
           cell_analyse three_row_prices unit_weight (Some 1%nat) (Some 2%nat)).
  - intros x. by destruct x.
  - repeat constructor.
  - vm_compute. reflexivity.
Defined.

Lemma risk_report_reads_weights_of_columns_witness :
  Risk.generate_risk_report _ Forecasting.NaN cell_isna cell_log_ratio _ _
    cell_analyse three_row_prices unit_weight
  = Risk.generate_risk_report _ Forecasting.NaN cell_isna cell_log_ratio _ _
      cell_analyse three_row_prices
      (<[ "GOOG"%string := Forecasting.Fin 1%Qc ]> unit_weight).
Proof.
  apply (risk_report_reads_weights_of_columns Forecasting.NaN cell_isna
           cell_log_ratio cell_analyse three_row_prices unit_weight
           (<[ "GOOG"%string := Forecasting.Fin 1%Qc ]> unit_weight)).
  intros ticker Ht. apply list_elem_of_singleton in Ht. subst ticker.
  reflexivity.
Defined.

(** ** The performance metrics *)

Section MetricsShortSeries.

Import Metrics.

Context (sqrt : Qc -> Qc) (pow : float64 -> Qc -> float64).

Local Abbreviation cagr := (calculate_cagr pow).
Local Abbreviation volatility := (calculate_volatility sqrt).
Local Abbreviation sharpe := (calculate_sharpe_ratio sqrt pow).

Lemma calculate_cagr_returns (series : list (Timestamp * Qc)) :
  series <> [] -> exists c, cagr series = ok c.
Proof.
  intros Hne. unfold calculate_cagr, iloc_first, iloc_last, bind, ok.
  destruct series as [|r rest]; [done|].
  destruct (last (r :: rest)) as [l|] eqn:Hl.
  2: { by apply last_None in Hl. }
  cbv zeta. destruct (Z.eqb _ _); by eexists.
Qed.

Lemma fdiv_nan (a : float64) : fdiv a NaN = NaN.
Proof. by destruct a. Qed.

Lemma volatility_short (series : list (Timestamp * Qc)) :
  (length series < 3)%nat -> volatility series = NaN.
Proof.
  intros Hlen. unfold calculate_volatility, std.
  destruct series as [|a [|b [|c rest]]]; cbn in Hlen; try lia; cbn.
  - done.
  - done.
  - by destruct (fsub (divide b.2 a.2) 1).
Qed.

(** X19.  A series of fewer than three values has no volatility: the
    returns of one or two values are at most one number, whose
    deviation is [NaN].  Its Sharpe ratio is [NaN] as well, since
    [NaN == 0] is false and the division goes on; on the empty series
    the ratio raises [IndexError], which the growth rate raises before
    the volatility is computed. *)
Theorem short_series_volatility_and_sharpe
    (series : list (Timestamp * Qc)) (risk_free_rate : Qc) :
  (length series < 3)%nat ->
  volatility series = NaN /\
  sharpe series risk_free_rate
  = match series with
    | [] => raise IndexError
    | _ => ok NaN
    end.
Proof.
  intros Hlen. split; [by apply volatility_short|].
  unfold calculate_sharpe_ratio. rewrite (volatility_short _ Hlen).
  destruct series as [|r rest]; [done|].
  destruct (calculate_cagr_returns (r :: rest)) as [c ->]; [done|].
  unfold ok. cbv beta iota zeta. cbn [is_zero]. by rewrite fdiv_nan.
Qed.

Lemma pct_change_from_constant (c : Qc) (n : nat) :
  c <> 0%Qc ->
  pct_change_from c (replicate n c) = replicate n (Num 0%Qc).
Proof.
  intros Hc. induction n as [|n IH]; [done|].
  cbn [replicate pct_change_from]. rewrite IH. f_equal.
  unfold divide. destruct (decide (c = 0%Qc)); [done|].
  cbn [fsub]. f_equal. field. done.
Qed.

Lemma dropna_zeros (n : nat) :
  dropna (replicate n (Num 0%Qc)) = replicate n (Num 0%Qc).
Proof. induction n as [|n IH]; [done|]. cbn. f_equal. exact IH. Qed.

Lemma numbers_zeros (n : nat) :
  numbers (replicate n (Num 0%Qc)) = Some (replicate n 0%Qc).
Proof. induction n as [|n IH]; [done|]. cbn. by rewrite IH. Qed.

(** X20.  A series that stays at one value other than zero, of at
    least three entries, has the volatility zero, and its Sharpe ratio
    is [NaN] by the test [volatility == 0] rather than a division by
    zero.  The square root is any function that maps zero to zero. *)
Theorem constant_series_sharpe_nan
    (series : list (Timestamp * Qc)) (c risk_free_rate : Qc) :
  sqrt 0%Qc = 0%Qc ->
  c <> 0%Qc ->
  (3 <= length series)%nat ->
  Forall (fun r => snd r = c) series ->
  volatility series = Num 0%Qc /\
  sharpe series risk_free_rate = ok NaN.
Proof.
  intros Hs Hc Hlen Hconst.
  assert (Hvalues : snd <$> series = replicate (length series) c).
  { clear Hlen. induction Hconst as [|r rest Hr _ IH]; [done|].
    cbn. by rewrite Hr, IH. }
  assert (Hvol : volatility series = Num 0%Qc).
  { unfold calculate_volatility. rewrite Hvalues.
    destruct (length series) as [|n] eqn:Hn; [lia|].
    cbn [replicate pct_change]. rewrite pct_change_from_constant by done.
    change (dropna (NaN :: replicate n (Num 0%Qc)))
      with (dropna (replicate n (Num 0%Qc))).
    rewrite dropna_zeros. unfold std.
    rewrite dropna_zeros, length_replicate, numbers_zeros.
    destruct (Nat.leb_spec n 1); [lia|].
    rewrite fmap_replicate, !Qc_sum_zero.
    replace (0 / Forecasting.Qc_of_nat (n - 1))%Qc with 0%Qc
      by (unfold Qcdiv; ring).
    rewrite Hs. cbn [fmul]. f_equal. ring. }
  split; [exact Hvol|].
  unfold calculate_sharpe_ratio. rewrite Hvol.
  destruct (calculate_cagr_returns series) as [g ->].
  { intros ->. cbn in Hlen. lia. }
  reflexivity.
Qed.

(** X21.  The growth rate reads the first and the last entry of the
    series and nothing between them; it is [0.0] whenever the two
    carry the same date, whatever the values, as for a series of one
    entry; and the empty series raises [IndexError]. *)
Theorem cagr_reads_endpoints
    (initial final : Timestamp * Qc) (middle : list (Timestamp * Qc)) :
  cagr (initial :: middle ++ [final]) = cagr [initial; final] /\
  (days_from_civil (fst initial) = days_from_civil (fst final) ->
   cagr (initial :: middle ++ [final]) = ok (Num 0%Qc)) /\
  cagr [initial] = ok (Num 0%Qc) /\
  cagr [] = raise IndexError.
Proof.
  assert (Hlast : forall l : list (Timestamp * Qc),
            iloc_last (initial :: l ++ [final]) = ok final).
  { intros l. unfold iloc_last.
    by rewrite app_comm_cons, last_snoc. }
  assert (Hends : cagr (initial :: middle ++ [final]) = cagr [initial; final]).
  { unfold calculate_cagr. rewrite Hlast.
    change [initial; final] with (initial :: [] ++ [final]). by rewrite Hlast. }
  split; [exact Hends|]. split; [|split].
  - intros Hsame. rewrite Hends.
    unfold calculate_cagr, iloc_first, iloc_last, bind, ok. cbn [last].
    cbv zeta. rewrite Hsame, Z.sub_diag. reflexivity.
  - unfold calculate_cagr, iloc_first, iloc_last, bind, ok. cbn [last].
    cbv zeta. rewrite Z.sub_diag. reflexivity.
  - reflexivity.
Qed.

End MetricsShortSeries.

Lemma short_series_volatility_and_sharpe_witness :
  Metrics.calculate_volatility sqrt_floor two_values = Metrics.NaN /\
  Metrics.calculate_sharpe_ratio sqrt_floor pow_first_order two_values
    Metrics.risk_free_rate_default = ok Metrics.NaN.
Proof.
  apply (short_series_volatility_and_sharpe sqrt_floor pow_first_order
           two_values Metrics.risk_free_rate_default).
  simpl. lia.
Defined.

Lemma constant_series_sharpe_nan_witness :
  Metrics.calculate_volatility sqrt_floor flat_series = Metrics.Num 0%Qc /\
  Metrics.calculate_sharpe_ratio sqrt_floor pow_first_order flat_series
    Metrics.risk_free_rate_default = ok Metrics.NaN.
Proof.
  apply (constant_series_sharpe_nan sqrt_floor pow_first_order flat_series
           (Q2Qc 100) Metrics.risk_free_rate_default).
  - apply sqrt_floor_zero.
  - discriminate.
  - simpl. lia.
  - repeat constructor.
Defined.

Lemma cagr_reads_endpoints_witness :
  Metrics.calculate_cagr pow_first_order rise_and_fall
  = Metrics.calculate_cagr pow_first_order
      [(jan15, Q2Qc 100); (feb03, Q2Qc 90)].
Proof.
  apply (proj1 (cagr_reads_endpoints pow_first_order (jan15, Q2Qc 100)
                  (feb03, Q2Qc 90) [(jan20, Q2Qc 120)])).
Defined.

(** ** The maximum drawdown *)

Section MaxDrawdown.

Import Metrics.

Ltac to_Q :=
  unfold Qcle, Qclt, Qcminus, Qcplus, Qcmult, Qcopp in *;
  cbn [this Q2Qc] in *; rewrite ?Qred_correct in *.

(** One entry of the drawdown series, below a positive running
    maximum. *)
Lemma drawdown_entry (x m : Qc) :
  (0 < x)%Qc -> (x <= m)%Qc ->
  divide (x - m) m = Num ((x - m) / m)%Qc /\
  (-1 < (x - m) / m)%Qc /\ ((x - m) / m <= 0)%Qc /\
  (((x - m) / m)%Qc = 0%Qc <-> x = m).
Proof.
  intros Hx Hxm.
  assert (Hm : (0 < m)%Qc) by (by eapply Qclt_le_trans).
  assert (Hm0 : m <> 0%Qc).
  { intros ->. by apply (Qclt_not_le _ _ Hx). }
  set (d := ((x - m) / m)%Qc).
  assert (Hd : (d * m)%Qc = (x - m)%Qc) by (unfold d; field; done).
  assert (HdQ : (this d * this m == this x - this m)%Q).
  { apply (f_equal this) in Hd. cbn [this Qcmult Qcminus Qcplus Qcopp Q2Qc] in Hd.
    rewrite <- (Qred_correct (this d * this m)), Hd, !Qred_correct.
    reflexivity. }
  split; [|split; [|split]].
  - unfold divide. by destruct (decide (m = 0%Qc)).
  - clearbody d. clear Hd Hm0. to_Q. nra.
  - clearbody d. clear Hd Hm0. to_Q. nra.
  - split.
    + intros Hd0. rewrite Hd0 in Hd.
      replace x with ((x - m) + m)%Qc by ring. rewrite <- Hd. ring.
    + intros ->. unfold d. field. done.
Qed.

(** The drawdowns of positive values below a positive running maximum
    are numbers in the interval from -1 (excluded) to 0, and all of
    them are zero exactly when no value is below an earlier one. *)
Lemma drawdown_from_positive (values : list Qc) :
  Forall (fun x => (0 < x)%Qc) values ->
  forall m : Qc, (0 < m)%Qc ->
    exists ds : list Qc,
      zip_with (fun x m => divide (x - m)%Qc m) values (cummax_from m values)
        = Num <$> ds /\
      length ds = length values /\
      Forall (fun d => (-1 < d)%Qc /\ (d <= 0)%Qc) ds /\
      (Forall (fun d => d = 0%Qc) ds <->
       Forall (Qcle m) values /\ ascending values).
Proof.
  induction 1 as [|x rest Hx Hrest IH]; intros m Hm.
  - exists []. repeat split; by constructor.
  - cbn [cummax_from]. cbv zeta.
    set (m' := if decide (m < x)%Qc then x else m).
    assert (Hm' : (x <= m')%Qc /\ (m <= m')%Qc /\ (x = m' <-> (m <= x)%Qc)).
    { unfold m'. destruct (decide (m < x)%Qc) as [Hlt|Hge].
      - split; [apply Qcle_refl|]. split; [by apply Qclt_le_weak|].
        split; [intros _; by apply Qclt_le_weak|done].
      - apply Qcnot_lt_le in Hge. split; [done|]. split; [apply Qcle_refl|].
        split; [intros ->; apply Qcle_refl|]. intros Hle.
        by apply Qcle_antisym. }
    destruct Hm' as (Hxm' & Hmm' & Heq).
    destruct (IH m') as (ds & Hds & Hlen & Hrange & Hzero).
    { by eapply Qclt_le_trans. }
    destruct (drawdown_entry x m' Hx Hxm') as (Hdiv & Hlo & Hhi & Hd0).
    exists (((x - m') / m')%Qc :: ds). cbn [zip_with fmap list_fmap length].
    rewrite Hdiv.
    split; [by f_equal|]. split; [by f_equal|]. split; [by constructor|].
    cbn [ascending]. rewrite !Forall_cons, Hd0, Hzero, Heq. split.
    + intros (Hmx & Hall & Hasc).
      assert (Hxm : x = m') by (by apply Heq). rewrite <- Hxm in Hall.
      repeat split; try done.
      eapply Forall_impl; [exact Hall|]. intros y Hy. by eapply Qcle_trans.
    + intros ((Hmx & Hall) & Hxall & Hasc).
      assert (Hxm : x = m') by (by apply Heq). rewrite <- Hxm.
      repeat split; done.
Qed.

(** The minimum of a list of numbers is one of them, at most each. *)
Lemma min_numbers (ds : list Qc) :
  ds <> [] ->
  exists d, min (Num <$> ds) = Num d /\ d ∈ ds /\ Forall (Qcle d) ds.
Proof.
  induction ds as [|x rest IH]; [done|]. intros _.
  destruct rest as [|y rest'].
  - exists x. split; [done|]. split; [by left|].
    constructor; [apply Qcle_refl|constructor].
  - destruct IH as (d & Hmin & Hin & Hall); [done|].
    change (min (Num <$> x :: y :: rest'))
      with (match Num x, min (Num <$> y :: rest') with
            | NaN, m => m
            | x, NaN => x
            | x, m => if fle x m then x else m
            end).
    rewrite Hmin. cbn [fle].
    destruct (bool_decide_reflect (x <= d)%Qc) as [Hle|Hgt].
    + exists x. split; [done|]. split; [by left|].
      constructor; [apply Qcle_refl|].
      eapply Forall_impl; [exact Hall|]. intros z Hz. by eapply Qcle_trans.
    + exists d. split; [done|]. split; [by right|].
      constructor; [|done]. by apply Qclt_le_weak, Qcnot_le_lt.
Qed.

Lemma max_drawdown_positive (series : list (Timestamp * Qc)) :
  series <> [] ->
  Forall (fun r => (0 < snd r)%Qc) series ->
  exists (ds : list Qc) (d : Qc),
    calculate_max_drawdown series = Num d /\ d ∈ ds /\ Forall (Qcle d) ds /\
    Forall (fun d => (-1 < d)%Qc /\ (d <= 0)%Qc) ds /\
    (Forall (fun d => d = 0%Qc) ds <-> ascending (snd <$> series)).
Proof.
  intros Hne Hpos. unfold calculate_max_drawdown. cbv zeta.
  assert (Hvalues : Forall (fun x => (0 < x)%Qc) (snd <$> series)).
  { by apply Forall_fmap. }
  destruct (snd <$> series) as [|x rest] eqn:Hv.
  { apply fmap_nil_inv in Hv. done. }
  cbn [cummax].
  destruct (drawdown_from_positive (x :: rest) Hvalues x) as
    (ds & Hds & Hlen & Hrange & Hzero).
  { by apply Forall_cons in Hvalues as [? _]. }
  rewrite Hds.
  destruct (min_numbers ds) as (d & Hmin & Hin & Hall).
  { intros ->. done. }
  exists ds, d. split; [done|]. split; [done|]. split; [done|]. split; [done|].
  rewrite Hzero. cbn [ascending]. rewrite Forall_cons. split; [tauto|].
  intros [Hall' Hasc]. repeat split; done.
Qed.

(** X22.  The maximum drawdown of a series of positive values is a
    number between -1 and 0, both included: it never reports a gain,
    and never more than the loss of everything. *)
Theorem max_drawdown_range (series : list (Timestamp * Qc)) :
  series <> [] ->
  Forall (fun r => (0 < snd r)%Qc) series ->
  exists d : Qc,
    calculate_max_drawdown series = Num d /\ (-1 <= d)%Qc /\ (d <= 0)%Qc.
Proof.
  intros Hne Hpos.
  destruct (max_drawdown_positive series Hne Hpos)
    as (ds & d & Hmd & Hin & _ & Hrange & _).
  exists d. split; [done|].
  rewrite Forall_forall in Hrange. destruct (Hrange d Hin) as [Hlo Hhi].
  split; [by apply Qclt_le_weak|done].
Qed.

(** X23.  The maximum drawdown of a series of positive values is zero
    exactly when the series never falls: no value is below an earlier
    one. *)
Theorem max_drawdown_zero_iff (series : list (Timestamp * Qc)) :
  series <> [] ->
  Forall (fun r => (0 < snd r)%Qc) series ->
  calculate_max_drawdown series = Num 0%Qc <-> ascending (snd <$> series).
Proof.
  intros Hne Hpos.
  destruct (max_drawdown_positive series Hne Hpos)
    as (ds & d & Hmd & Hin & Hall & Hrange & Hzero).
  rewrite Hmd, <- Hzero. split.
  - intros [= ->]. rewrite Forall_forall in Hrange, Hall.
    apply Forall_forall. intros z Hz.
    apply Qcle_antisym; [by apply Hrange | by apply Hall].
  - intros Hz. rewrite Forall_forall in Hz. f_equal. by apply Hz.
Qed.

End MaxDrawdown.

Lemma max_drawdown_range_witness :
  exists d : Qc,
    Metrics.calculate_max_drawdown rise_and_fall = Metrics.Num d /\
    (-1 <= d)%Qc /\ (d <= 0)%Qc.
Proof.
  apply (max_drawdown_range rise_and_fall).
  - discriminate.
  - repeat constructor.
Defined.

Lemma max_drawdown_zero_iff_witness :
  Metrics.calculate_max_drawdown rising_series = Metrics.Num 0%Qc <->
  ascending (snd <$> rising_series).
Proof.
  apply (max_drawdown_zero_iff rising_series).
  - discriminate.
  - repeat constructor.
Defined.

(** ** The application: weights *)

Section AppWeights.

Import App.

Lemma weights_of_snoc (entries : list (string * Z)) (entry : string * Z) :
  weights_of (entries ++ [entry]) = <[fst entry := snd entry]> (weights_of entries).
Proof. unfold weights_of. by rewrite fold_left_app. Qed.

Lemma weights_of_lookup_Some (entries : list (string * Z)) (t : string) (v : Z) :
  weights_of entries !! t = Some v -> (t, v) ∈ entries.
Proof.
  induction entries as [|[k x] entries IH] using rev_ind; [done|].
  rewrite weights_of_snoc. cbn [fst snd]. rewrite elem_of_app.
  destruct (decide (k = t)) as [->|Hne].
  - rewrite lookup_insert_eq. intros [= ->]. right. by left.
  - rewrite lookup_insert_ne by done. intros Ht. left. by apply IH.
Qed.

Lemma sum_snoc (l : list Z) (x : Z) :
  foldr Z.add 0 (l ++ [x]) = foldr Z.add 0 l + x.
Proof. induction l as [|y l IH]; cbn; lia. Qed.

Lemma total_weight_weights_of (entries : list (string * Z)) :
  NoDup (entries.*1) ->
  total_weight (weights_of entries) = foldr Z.add 0 (entries.*2).
Proof.
  induction entries as [|[k x] entries IH] using rev_ind; [done|].
  rewrite !fmap_app. cbn [fmap list_fmap fst snd]. intros Hnd.
  apply NoDup_app in Hnd as (Hnd & Hk & _).
  rewrite weights_of_snoc, sum_snoc. cbn [fst snd]. unfold total_weight.
  rewrite map_fold_insert_L.
  - fold (total_weight (weights_of entries)). by rewrite IH.
  - intros. lia.
  - destruct (weights_of entries !! k) as [v|] eqn:Hv; [|done].
    apply weights_of_lookup_Some in Hv. exfalso. apply (Hk k).
    + apply list_elem_of_fmap. by exists (k, v).
    + by left.
Qed.

(** The defaults of the first [k] tickers out of [n] add up to [k]
    times the quotient, plus one for each of them that is among the
    first [remainder]. *)
Lemma default_values_sum (n : Z) (k : nat) :
  0 <= 100 - 100 / n * n ->
  foldr Z.add 0 (default_value n <$> (Z.of_nat <$> seq 0 k))
  = Z.of_nat k * (100 / n) + Z.min (Z.of_nat k) (100 - 100 / n * n).
Proof.
  intros Hr. induction k as [|k IH]; [cbn; lia|].
  rewrite seq_S, !fmap_app. cbn [fmap list_fmap Nat.add].
  rewrite sum_snoc, IH. unfold default_value. cbv zeta.
  destruct (Z.ltb_spec (Z.of_nat k) (100 - 100 / n * n)); lia.
Qed.

(** X24.  With tickers that are all different the default weights add
    up to 100, each of them between 0 and 100, so that the run button
    is enabled as soon as tickers are entered. *)
Theorem default_weights_total_100 (tickers : list string) :
  NoDup tickers ->
  tickers <> [] ->
  total_weight (default_weights tickers) = 100 /\
  run_enabled tickers (default_weights tickers) = true /\
  forall ticker w, default_weights tickers !! ticker = Some w -> 0 <= w <= 100.
Proof.
  intros Hnd Hne.
  set (n := Z.of_nat (length tickers)).
  assert (Hn : 1 <= n) by (destruct tickers; [done|cbn in n; lia]).
  assert (Hq : 0 <= 100 / n) by (apply Z.div_pos; lia).
  assert (Hr : 0 <= 100 - 100 / n * n < n).
  { pose proof (Z.mod_pos_bound 100 n ltac:(lia)) as Hm.
    rewrite Z.mod_eq in Hm by lia. lia. }
  assert (Htotal : total_weight (default_weights tickers) = 100).
  { unfold default_weights. fold n.
    rewrite total_weight_weights_of.
    - rewrite snd_zip by (rewrite !length_fmap, length_seq; lia).
      rewrite default_values_sum by (fold n; lia). fold n. lia.
    - rewrite fst_zip by (rewrite !length_fmap, length_seq; lia). done. }
  split; [exact Htotal|]. split.
  - unfold run_enabled. rewrite Htotal. by destruct tickers.
  - intros ticker w Hw. unfold default_weights in Hw. fold n in Hw.
    apply weights_of_lookup_Some, elem_of_zip_r in Hw.
    apply list_elem_of_fmap in Hw as (i & -> & Hi).
    apply list_elem_of_fmap in Hi as (j & -> & _).
    unfold default_value. cbv zeta.
    assert (Hqn : 100 / n <= 100 / n * n) by nia.
    destruct (Z.ltb_spec (Z.of_nat j) (100 - 100 / n * n)); lia.
Qed.

Lemma Q2Qc_inject_Z_plus (a b : Z) :
  Q2Qc (inject_Z (a + b)) = (Q2Qc (inject_Z a) + Q2Qc (inject_Z b))%Qc.
Proof.
  apply Qc_is_canon. cbn [this Q2Qc Qcplus].
  rewrite !Qred_correct, inject_Z_plus. reflexivity.
Qed.

Lemma sum_values_normalized (weights : gmap string Z) :
  sum_values (normalized_weights weights)
  = (Q2Qc (inject_Z (total_weight weights)) / Q2Qc 100)%Qc.
Proof.
  unfold normalized_weights, total_weight, sum_values.
  induction weights as [|t x weights Ht IH] using map_ind.
  - rewrite fmap_empty, !map_fold_empty. by apply Qc_is_canon.
  - rewrite fmap_insert.
    rewrite (map_fold_insert_L _ _ t x weights); [|intros; lia|done].
    rewrite map_fold_insert_L; [|intros; ring|by rewrite lookup_fmap, Ht].
    rewrite IH, Q2Qc_inject_Z_plus. field. discriminate.
Qed.

(** X25.  Whenever the run button is enabled, the constructor accepts
    the weights that the application passes to it: whole percentages
    that add up to 100 become weights that add up to 1. *)
Theorem enabled_weights_accepted
    (tickers : list string) (weights : gmap string Z) (frequency : option string) :
  run_enabled tickers weights = true ->
  Portfolio.__init__ (normalized_weights weights) frequency
  = ok (Portfolio.mk (normalized_weights weights) frequency None).
Proof.
  unfold run_enabled. intros Hen.
  apply negb_true_iff, orb_false_iff in Hen as [Htotal _].
  apply negb_false_iff, Z.eqb_eq in Htotal.
  destruct (init_cases (normalized_weights weights) frequency)
    as [[_ Hi] | [Hr _]]; [exact Hi|].
  exfalso. apply Hr. rewrite sum_values_normalized, Htotal.
  apply py_round5_one_iff.
  replace (Q2Qc (inject_Z 100) / Q2Qc 100)%Qc with 1%Qc by (by apply Qc_is_canon).
  split; discriminate.
Qed.

End AppWeights.

Lemma default_weights_total_100_witness :
  App.total_weight (App.default_weights ["AAPL"; "GOOG"; "MSFT"]%string) = 100 /\
  App.run_enabled ["AAPL"; "GOOG"; "MSFT"]%string
    (App.default_weights ["AAPL"; "GOOG"; "MSFT"]%string) = true /\
  forall ticker w,
    App.default_weights ["AAPL"; "GOOG"; "MSFT"]%string !! ticker = Some w ->
    0 <= w <= 100.
Proof.
  apply (default_weights_total_100 ["AAPL"; "GOOG"; "MSFT"]%string).
  - apply NoDup_ListNoDup. repeat constructor; cbn; intuition discriminate.
  - discriminate.
Defined.

Lemma enabled_weights_accepted_witness :
  Portfolio.__init__
    (App.normalized_weights (App.default_weights ["AAPL"; "GOOG"; "MSFT"]%string))
    (Some "monthly"%string)
  = ok (Portfolio.mk
          (App.normalized_weights
             (App.default_weights ["AAPL"; "GOOG"; "MSFT"]%string))
          (Some "monthly"%string) None).
Proof.
  apply (enabled_weights_accepted ["AAPL"; "GOOG"; "MSFT"]%string).
  vm_compute. reflexivity.
Defined.

(** ** The engine: no short positions, no debt *)

Lemma Qc_nonneg_plus (a b : Qc) : (0 <= a)%Qc -> (0 <= b)%Qc -> (0 <= a + b)%Qc.
Proof.
  intros Ha Hb. replace 0%Qc with (0 + 0)%Qc by ring.
  by apply Qcplus_le_compat.
Qed.

Lemma Qc_nonneg_mult (a b : Qc) : (0 <= a)%Qc -> (0 <= b)%Qc -> (0 <= a * b)%Qc.
Proof.
  intros Ha Hb. replace 0%Qc with (0 * b)%Qc by ring.
  by apply Qcmult_le_compat_r.
Qed.

Lemma Qc_nonneg_div (a p : Qc) : (0 <= a)%Qc -> (0 < p)%Qc -> (0 <= a / p)%Qc.
Proof.
  intros Ha Hp. apply (Qcmult_lt_0_le_reg_r _ _ p Hp).
  replace (0 * p)%Qc with 0%Qc by ring.
  replace (a / p * p)%Qc with a; [done|].
  field. intros ->. by apply (Qclt_not_le _ _ Hp).
Qed.

Lemma weighted_sum_nonneg (f : string -> Qc -> Qc) (m : gmap string Qc) :
  (forall t x, m !! t = Some x -> (0 <= f t x)%Qc) ->
  (0 <= weighted_sum f m)%Qc.
Proof.
  induction m as [|t x m Hm IH] using map_ind; intros Hf.
  - rewrite weighted_sum_empty. apply Qcle_refl.
  - rewrite weighted_sum_insert_fresh by done. apply Qc_nonneg_plus.
    + apply IH. intros t' x' Ht'. apply Hf.
      rewrite lookup_insert_ne; [done|]. intros ->. congruence.
    + apply Hf. by rewrite lookup_insert_eq.
Qed.

Lemma price_of_nonneg (prices : gmap string Qc) (t : string) :
  nonnegative prices -> (0 <= price_of prices t)%Qc.
Proof.
  intros Hp. unfold price_of. destruct (prices !! t) as [p|] eqn:Ht; cbn.
  - by eapply Hp.
  - apply Qcle_refl.
Qed.

Lemma holdings_value_nonneg (prices holdings : gmap string Qc) :
  nonnegative prices -> nonnegative holdings ->
  (0 <= holdings_value prices holdings)%Qc.
Proof.
  intros Hp Hh. apply weighted_sum_nonneg. intros t x Ht.
  apply Qc_nonneg_mult; [by eapply Hh|by apply price_of_nonneg].
Qed.

Lemma deployed_nonnegative (prices w h : gmap string Qc) (total_value : Qc) :
  nonnegative w -> nonnegative h -> (0 <= total_value)%Qc ->
  nonnegative (deployed prices w h total_value).
Proof.
  intros Hw Hh Htotal t x. unfold deployed.
  rewrite lookup_union_Some_raw, map_lookup_imap.
  intros [Hx | [_ Hx]]; [|by eapply Hh].
  destruct (w !! t) as [wt|] eqn:Hwt; [|done]. cbn in Hx.
  case_decide as Hpos; [|done]. injection Hx as <-.
  apply Qc_nonneg_div; [|done].
  apply Qc_nonneg_mult; [done|by eapply Hw].
Qed.

Section Solvency.

Import Engine.

Context (w : gmap string Qc) (annual_increase : Qc).
Context (Hw : nonnegative w) (Hinc : (0 <= annual_increase)%Qc).

Lemma topup_on_nonneg (s : state) (d : Timestamp) :
  (0 <= current_monthly_topup s)%Qc -> (0 <= topup_on annual_increase s d)%Qc.
Proof using Hinc.
  intros Ht. unfold topup_on. destruct (last_year s) as [ly|]; [|done].
  destruct (ly <? year d); [|done].
  apply Qc_nonneg_mult; [done|].
  apply Qc_nonneg_plus; [done|]. by apply Qc_nonneg_div.
Qed.

Lemma next_state_solvent (s : state) (d : Timestamp) (prices : gmap string Qc) :
  nonnegative prices ->
  solvent w s -> solvent w (next_state annual_increase s d prices).
Proof using Hw Hinc.
  intros Hp [Hpf Hh Hc Ht Hhist].
  pose proof (should_rebalance_keeps_settings (portfolio s) d) as [Hw' _].
  rewrite Hpf in Hw'.
  pose proof (topup_on_nonneg s d Ht) as Htop.
  assert (Hcash : (0 <= cash_on annual_increase s d)%Qc).
  { unfold cash_on. destruct (last_month s) as [lm|]; [|done].
    destruct (negb _); [|done]. by apply Qc_nonneg_plus. }
  assert (Hheld : nonnegative (holdings (next_state annual_increase s d prices))).
  { unfold next_state. cbn [holdings]. rewrite Hw'.
    destruct (deployment_day s d); [|done].
    apply deployed_nonnegative; [done|done|].
    apply Qc_nonneg_plus; [by apply holdings_value_nonneg|done]. }
  assert (Hcash' : (0 <= cash (next_state annual_increase s d prices))%Qc).
  { unfold next_state. cbn [cash]. by destruct (deployment_day s d). }
  split; try done.
  rewrite next_state_history. apply Forall_app. split; [done|].
  constructor; [|done]. cbn [snd]. unfold state_value.
  apply Qc_nonneg_plus; [by apply holdings_value_nonneg|done].
Qed.

Lemma loop_solvent (rows : list (Timestamp * gmap string Qc)) :
  forall s s' : state,
    Forall (fun row => nonnegative (snd row)) rows ->
    solvent w s ->
    loop annual_increase s rows = ok s' ->
    solvent w s'.
Proof using Hw Hinc.
  induction rows as [|[d prices] rest IH]; intros s s' Hrows Hs Hl;
    cbn [loop] in Hl.
  - by injection Hl as <-.
  - apply Forall_cons in Hrows as [Hp Hrest]. cbn [snd] in Hp.
    destruct (step annual_increase s (d, prices)) as [e|s1] eqn:Hstep; [done|].
    cbn [bind] in Hl. apply step_ok_inv in Hstep. subst s1.
    eapply IH; [done| |exact Hl]. by apply next_state_solvent.
Qed.

End Solvency.

(** X27.  With weights, prices, initial investment, top-up and annual
    increase that are not negative, a run never goes short and never
    into debt: every value of the returned series, every returned
    holding and the returned cash are at least zero. *)
Theorem run_backtest_never_negative
    (data : Engine.DataFrame) (pf : Portfolio.t)
    (initial_investment monthly_topup annual_increase : Qc)
    (out : Engine.outcome) :
  nonnegative (Portfolio.target_weights pf) ->
  Forall (fun row => nonnegative (snd row)) (Engine.iterrows data) ->
  (0 <= initial_investment)%Qc ->
  (0 <= monthly_topup)%Qc ->
  (0 <= annual_increase)%Qc ->
  Engine.run_backtest data pf initial_investment monthly_topup annual_increase
    = ok out ->
  Forall (fun line => (0 <= snd line)%Qc) (Engine.result_df out) /\
  nonnegative (Engine.final_holdings out) /\
  (0 <= Engine.final_cash out)%Qc.
Proof.
  intros Hw Hrows Hi Hm Hinc. unfold Engine.run_backtest.
  destruct (Engine.loop _ _ _) as [e|s] eqn:Hl; [done|]. cbn [bind].
  assert (Hs : solvent (Portfolio.target_weights pf) s).
  { eapply (loop_solvent _ annual_increase Hw Hinc); [exact Hrows| |exact Hl].
    split; cbn; try done.
    intros t x Ht.
    apply elem_of_list_to_map_2, list_elem_of_fmap in Ht as (t' & [= _ ->] & _).
    done. }
  destruct Hs as [_ Hh Hc _ Hhist].
  destruct (Engine.portfolio_history s) as [|line lines] eqn:Hhis; [done|].
  intros [= <-]. cbn. by rewrite <- Hhis in *.
Qed.

Lemma run_backtest_never_negative_witness :
  Forall (fun line => (0 <= snd line)%Qc) (Engine.result_df four_months_outcome) /\
  nonnegative (Engine.final_holdings four_months_outcome) /\
  (0 <= Engine.final_cash four_months_outcome)%Qc.
Proof.
  apply (run_backtest_never_negative four_months buy_and_hold_policy
           (Q2Qc 1000) (Q2Qc 100) 0%Qc four_months_outcome).
  - intros t x Ht. cbn [Portfolio.target_weights buy_and_hold_policy] in Ht.
    apply lookup_singleton_Some in Ht as [_ <-]. done.
  - repeat constructor;
      intros t x Ht; cbn [snd] in Ht; unfold price_10 in Ht;
      apply lookup_singleton_Some in Ht as [_ <-]; done.
  - done.
  - done.
  - done.
  - vm_compute. reflexivity.
Defined.

(** ** The contribution charts *)

Section Charts.

Import Plotting.

(** With a final price for every holding the asset values are the
    holdings times their prices. *)
Lemma asset_values_priced (final_holdings final_prices : gmap string Qc) :
  (forall t, is_Some (final_holdings !! t) -> is_Some (final_prices !! t)) ->
  asset_values final_holdings final_prices
  = ok (map_imap (fun t h => Some (h * price_of final_prices t)%Qc) final_holdings).
Proof.
  unfold asset_values.
  induction final_holdings as [|t x h Hh Hfirst IH] using map_first_key_ind;
    intros Hp.
  - by rewrite map_fold_empty, map_imap_empty.
  - rewrite map_fold_insert_first_key by done.
    rewrite IH.
    2: { intros t' Ht'. apply Hp. rewrite lookup_insert_ne; [done|].
         intros ->. rewrite Hh in Ht'. by destruct Ht'. }
    destruct (Hp t) as [p Hpt]; [by rewrite lookup_insert_eq|].
    cbn [bind]. unfold ok. cbv beta iota. rewrite Hpt.
    rewrite map_imap_insert. unfold price_of. by rewrite Hpt.
Qed.

Lemma asset_values_raises (final_holdings final_prices : gmap string Qc) (e : exn) :
  asset_values final_holdings final_prices = raise e ->
  e = KeyError /\
  exists t, is_Some (final_holdings !! t) /\ final_prices !! t = None.
Proof.
  unfold asset_values.
  induction final_holdings as [|t x h Hh Hfirst IH] using map_first_key_ind.
  - by rewrite map_fold_empty.
  - rewrite map_fold_insert_first_key by done.
    destruct (map_fold _ _ h) as [e'|values].
    + cbn [bind]. intros [= ->]. destruct IH as [-> (t' & Ht' & Hnone)]; [done|].
      split; [done|]. exists t'. split; [|done].
      rewrite lookup_insert_ne; [done|]. intros ->. rewrite Hh in Ht'.
      by destruct Ht'.
    + cbn [bind]. destruct (final_prices !! t) as [p|] eqn:Hpt; [done|].
      intros [= <-]. split; [done|]. exists t.
      by rewrite lookup_insert_eq.
Qed.

Lemma sum_values_imap (g : string -> Qc -> Qc) (m : gmap string Qc) :
  sum_values (map_imap (fun t x => Some (g t x)) m) = weighted_sum g m.
Proof.
  rewrite sum_values_weighted.
  induction m as [|t x m Hm IH] using map_ind.
  - by rewrite map_imap_empty, !weighted_sum_empty.
  - rewrite map_imap_insert, !weighted_sum_insert_fresh;
      [by rewrite IH|done|by rewrite map_lookup_imap, Hm].
Qed.

Lemma sum_values_insert_fresh (m : gmap string Qc) (t : string) (x : Qc) :
  m !! t = None -> sum_values (<[t := x]> m) = (sum_values m + x)%Qc.
Proof. intros Hm. rewrite !sum_values_weighted. by apply weighted_sum_insert_fresh. Qed.

Lemma sum_values_delete (m : gmap string Qc) (t : string) (x : Qc) :
  m !! t = Some x -> sum_values m = (sum_values (delete t m) + x)%Qc.
Proof.
  intros Hm. rewrite <- (insert_delete_id m t x Hm) at 1.
  apply sum_values_insert_fresh, lookup_delete_eq.
Qed.

(** X28.  The asset values of the contribution charts can always be
    computed from what a run returns and the last row of its table:
    every returned holding has a price in that row, so that no
    [KeyError] is raised, and the last value of the series is the sum
    of the asset values plus the returned cash: the engine adds the
    same products in the same order. *)
Theorem asset_values_of_a_run
    (data : Engine.DataFrame) (pf : Portfolio.t)
    (initial_investment monthly_topup annual_increase : Qc)
    (out : Engine.outcome) (d : Timestamp) (final_prices : gmap string Qc) :
  Engine.run_backtest data pf initial_investment monthly_topup annual_increase
    = ok out ->
  last (Engine.iterrows data) = Some (d, final_prices) ->
  exists final_asset_values,
    asset_values (Engine.final_holdings out) final_prices = ok final_asset_values /\
    snd <$> last (Engine.result_df out)
    = Some (sum_values final_asset_values + Engine.final_cash out)%Qc.
Proof.
  intros Hrun Hlast. unfold Engine.run_backtest in Hrun.
  destruct (Engine.loop _ _ _) as [e|s] eqn:Hl; [done|]. cbn [bind] in Hrun.
  destruct (Engine.portfolio_history s) as [|line lines] eqn:Hhis; [done|].
  injection Hrun as <-. cbn [Engine.final_holdings Engine.final_cash Engine.result_df].
  apply last_Some in Hlast as [rows' Hrows]. rewrite Hrows in Hl.
  apply loop_prefix in Hl as (s1 & _ & Hstep).
  cbn [Engine.loop] in Hstep.
  destruct (Engine.step annual_increase s1 (d, final_prices)) as [e|s'] eqn:Hs;
    [done|].
  cbn [bind] in Hstep. injection Hstep as ->.
  pose proof (step_ok_priced annual_increase s1 s d final_prices Hs) as Hp.
  apply step_ok_inv in Hs.
  assert (Hvalue : snd <$> last (Engine.portfolio_history s)
                   = Some (state_value final_prices s)).
  { rewrite Hs at 1. rewrite next_state_history, last_snoc. cbn. by rewrite <- Hs. }
  rewrite <- Hhis, Hvalue.
  exists (map_imap (fun t h => Some (h * price_of final_prices t)%Qc)
            (Engine.holdings s)).
  split; [by apply asset_values_priced|].
  by rewrite sum_values_imap.
Qed.

(** X29.  When no asset value is negative, every asset that is left
    after the filter has a strictly positive value: the pie chart is
    given no zero and no negative size, and when all values are zero
    nothing is left to plot. *)
Theorem plotted_assets_positive (values : gmap string Qc) :
  nonnegative values ->
  forall t v, filtered values !! t = Some v -> (0 < v)%Qc.
Proof.
  intros Hnn t v Ht. unfold filtered in Ht. cbv zeta in Ht.
  apply map_lookup_filter_Some in Ht as [Hv Hab]. cbn [snd] in Hab.
  assert (Htotal : (0 <= sum_values values)%Qc).
  { rewrite sum_values_weighted. apply weighted_sum_nonneg.
    intros t' x Hx. by eapply Hnn. }
  assert (Hv0 : (0 <= v)%Qc) by (by eapply Hnn).
  unfold above_threshold, Metrics.divide in Hab.
  destruct (decide (sum_values values = 0%Qc)) as [Hz|Hnz].
  - destruct (decide (v = 0%Qc)) as [->|Hvnz]; [done|].
    destruct (Qcle_lt_or_eq _ _ Hv0) as [Hlt|Heq]; [done|]. by subst v.
  - apply bool_decide_eq_true in Hab.
    destruct (Qcle_lt_or_eq _ _ Hv0) as [Hlt|Heq]; [done|]. subst v.
    exfalso. apply (Qclt_not_le _ _ Hab).
    replace (0 / sum_values values)%Qc with 0%Qc by (field; done).
    done.
Qed.

End Charts.

Lemma asset_values_of_a_run_witness :
  exists final_asset_values,
    Plotting.asset_values (Engine.final_holdings four_months_outcome) price_10
      = ok final_asset_values /\
    snd <$> last (Engine.result_df four_months_outcome)
    = Some (sum_values final_asset_values
            + Engine.final_cash four_months_outcome)%Qc.
Proof.
  apply (asset_values_of_a_run four_months buy_and_hold_policy (Q2Qc 1000)
           (Q2Qc 100) 0%Qc four_months_outcome apr02 price_10).
  - vm_compute. reflexivity.
  - reflexivity.
Defined.

Lemma plotted_assets_positive_witness :
  one_negligible !! "GOOG"%string = Some (Q2Qc (1 # 10)) /\
  forall t v, Plotting.filtered one_negligible !! t = Some v -> (0 < v)%Qc.
Proof.
  split; [reflexivity|].
  apply (plotted_assets_positive one_negligible).
  intros t x Ht. unfold one_negligible in Ht.
  apply lookup_insert_Some in Ht as [[_ <-]|[_ Ht]]; [done|].
  apply lookup_singleton_Some in Ht as [_ <-]. done.
Defined.

(** * The engine in floating point *)

(** ** Dictionaries in insertion order *)

Section Dicts.

Context {V : Type}.

Implicit Types (d : list (string * V)) (k : string) (v : V).

Lemma dict_get_ok_elem d k v : FloatEngine.dict_get d k = ok v -> (k, v) ∈ d.
Proof.
  induction d as [|[k' v'] d IH]; cbn [FloatEngine.dict_get]; [done|].
  destruct (String.eqb_spec k' k) as [->|Hne].
  - intros [= ->]. left.
  - intros H. right. by apply IH.
Qed.

Lemma dict_get_in d k : k ∈ d.*1 -> exists v, FloatEngine.dict_get d k = ok v.
Proof.
  induction d as [|[k' v'] d IH]; rewrite ?fmap_cons; cbn [FloatEngine.dict_get fst].
  - intros H. by apply elem_of_nil in H.
  - intros H. destruct (String.eqb_spec k' k) as [->|Hne]; [by eexists|].
    apply elem_of_cons in H as [->|H]; [done|]. by apply IH.
Qed.

Lemma dict_get_not_in d k : k ∉ d.*1 -> FloatEngine.dict_get d k = raise KeyError.
Proof.
  induction d as [|[k' v'] d IH]; rewrite ?fmap_cons; cbn [FloatEngine.dict_get fst];
    [done|].
  intros H. apply not_elem_of_cons in H as [Hne H].
  destruct (String.eqb_spec k' k) as [->|_]; [done|]. by apply IH.
Qed.

Lemma dict_get_ok_in d k v : FloatEngine.dict_get d k = ok v -> k ∈ d.*1.
Proof.
  intros H. apply dict_get_ok_elem in H. apply list_elem_of_fmap. by exists (k, v).
Qed.

Lemma dict_get_raise d k e : FloatEngine.dict_get d k = inl e -> k ∉ d.*1.
Proof.
  intros H Hin. apply dict_get_in in Hin as [v Hv]. rewrite Hv in H. discriminate.
Qed.

Lemma dict_set_keys d k v : k ∈ d.*1 -> (FloatEngine.dict_set d k v).*1 = d.*1.
Proof.
  induction d as [|[k' v'] d IH]; rewrite ?fmap_cons; cbn [FloatEngine.dict_set fst].
  - intros H. by apply elem_of_nil in H.
  - intros H. destruct (String.eqb_spec k' k) as [->|Hne]; [done|].
    rewrite fmap_cons. cbn [fst]. f_equal. apply IH.
    apply elem_of_cons in H as [->|H]; done.
Qed.

Lemma dict_set_fresh d k v : k ∉ d.*1 -> FloatEngine.dict_set d k v = d ++ [(k, v)].
Proof.
  induction d as [|[k' v'] d IH]; rewrite ?fmap_cons; cbn [FloatEngine.dict_set fst];
    [done|].
  intros H. apply not_elem_of_cons in H as [Hne H].
  destruct (String.eqb_spec k' k) as [->|_]; [done|]. cbn. f_equal. by apply IH.
Qed.

(** On a dictionary, which has one entry for a key, an assignment to a
    key that is there changes the value of that entry. *)
Lemma dict_set_map d k v :
  NoDup d.*1 -> k ∈ d.*1 ->
  FloatEngine.dict_set d k v
  = (fun e => if String.eqb (fst e) k then (fst e, v) else e) <$> d.
Proof.
  induction d as [|[k' v'] d IH]; rewrite ?fmap_cons; cbn [FloatEngine.dict_set fst].
  - intros _ H. by apply elem_of_nil in H.
  - intros Hnd H. apply NoDup_cons in Hnd as [Hk' Hnd].
    destruct (String.eqb_spec k' k) as [->|Hne].
    + f_equal. clear IH H Hnd. induction d as [|[k2 v2] d IH]; [done|].
      rewrite fmap_cons in Hk'. apply not_elem_of_cons in Hk' as [Hne Hk'].
      rewrite fmap_cons. cbn [fst].
      destruct (String.eqb_spec k2 k) as [->|_]; [done|]. f_equal. by apply IH.
    + f_equal. apply IH; [done|]. apply elem_of_cons in H as [->|H]; done.
Qed.

End Dicts.

Lemma initial_holdings_distinct {F : Type} (A : FloatEngine.arithmetic F)
    (columns : list string) :
  NoDup columns ->
  FloatEngine.initial_holdings A columns
  = (fun ticker => (ticker, FloatEngine.zero A)) <$> columns.
Proof.
  unfold FloatEngine.initial_holdings.
  assert (Hgen : forall d : list (string * F),
            NoDup (d.*1 ++ columns) ->
            foldl (fun d ticker => FloatEngine.dict_set d ticker (FloatEngine.zero A))
              d columns
            = d ++ ((fun ticker => (ticker, FloatEngine.zero A)) <$> columns)).
  { induction columns as [|c cs IH]; intros d Hnd; cbn [foldl].
    - by rewrite fmap_nil, app_nil_r.
    - rewrite fmap_cons.
      apply NoDup_app in Hnd as Hnd'. destruct Hnd' as (Hd & Hdis & Hcs).
      rewrite dict_set_fresh.
      2: { intros Hin. apply (Hdis c Hin). left. }
      rewrite IH.
      + by rewrite <- app_assoc.
      + rewrite fmap_app, <- app_assoc. exact Hnd. }
  intros Hnd. apply (Hgen []). exact Hnd.
Qed.

(** ** The iteration of the engine *)

Lemma should_rebalance_weights {F : Type} (p : FloatEngine.portfolio F)
    (d : Timestamp) :
  FloatEngine.target_weights (snd (FloatEngine.should_rebalance p d))
  = FloatEngine.target_weights p.
Proof.
  unfold FloatEngine.should_rebalance. by destruct (Portfolio.should_rebalance _ _).
Qed.

(** An iteration, with the test of line 51 named. *)
Lemma step_eq {F : Type} (A : FloatEngine.arithmetic F) (annual_increase : F)
    (s : FloatEngine.state F) (d : Timestamp) (P : list (string * F)) :
  FloatEngine.step A annual_increase s (d, P)
  = bind (if FloatEngine.deployment_day s d
          then FloatEngine.deploy_cash A
                 (FloatEngine.target_weights (FloatEngine.the_portfolio s))
                 (FloatEngine.holdings s)
                 (FloatEngine.cash_on A annual_increase s d) P
          else ok (FloatEngine.holdings s, FloatEngine.cash_on A annual_increase s d))
      (fun hc =>
         bind (FloatEngine.total_portfolio_value A (fst hc) (snd hc) P)
           (fun total =>
              ok (FloatEngine.mkState (fst hc) (snd hc)
                    (FloatEngine.topup_on A annual_increase s d)
                    (FloatEngine.portfolio_history s ++ [(d, total)])
                    (Some (month d)) (Some (year d))
                    (snd (FloatEngine.should_rebalance
                            (FloatEngine.the_portfolio s) d))))).
Proof.
  unfold FloatEngine.step, FloatEngine.deployment_day.
  rewrite <- (should_rebalance_weights (FloatEngine.the_portfolio s) d).
  by destruct (FloatEngine.should_rebalance _ _) as [reb pf'].
Qed.

(** ** Rounded arithmetic *)

Section RoundedArithmetic.

Context (u : Qc) (rnd : Qc -> Qc) (Hrnd : rounds_within u rnd).

Local Abbreviation lo := (1 - u)%Qc.
Local Abbreviation hi := (1 + u)%Qc.

Ltac to_Q :=
  unfold Qcle, Qclt, Qcminus, Qcplus, Qcmult, Qcopp in *;
  cbn [this Q2Qc] in *; rewrite ?Qred_correct in *.

Lemma lo_nonneg : (0 <= lo)%Qc.
Proof using Hrnd. destruct Hrnd as (H0 & H1 & _). to_Q. lra. Qed.

Lemma lo_le_1 : (lo <= 1)%Qc.
Proof using Hrnd. destruct Hrnd as (H0 & H1 & _). to_Q. lra. Qed.

Lemma hi_ge_1 : (1 <= hi)%Qc.
Proof using Hrnd. destruct Hrnd as (H0 & H1 & _). to_Q. lra. Qed.

Lemma lo_pow_bounds (k : nat) : (0 <= lo ^ k)%Qc /\ (lo ^ k <= 1)%Qc.
Proof using Hrnd.
  pose proof lo_nonneg as H0. pose proof lo_le_1 as H1.
  induction k as [|k [IH0 IH1]]; cbn [Qcpower]; [split; done|].
  set (a := lo) in *. set (b := (a ^ k)%Qc) in *. clearbody a b.
  clear Hrnd. split; to_Q; nra.
Qed.

Lemma hi_pow_ge_1 (k : nat) : (1 <= hi ^ k)%Qc.
Proof using Hrnd.
  pose proof hi_ge_1 as H1.
  induction k as [|k IH]; cbn [Qcpower]; [done|].
  set (a := hi) in *. set (b := (a ^ k)%Qc) in *. clearbody a b.
  clear Hrnd. to_Q. nra.
Qed.

Lemma Qcpower_plus (x : Qc) (k j : nat) : (x ^ (k + j) = x ^ k * x ^ j)%Qc.
Proof. induction k as [|k IH]; cbn [Qcpower Nat.add]; [ring|]. rewrite IH. ring. Qed.

Lemma lo_pow_le (k j : nat) : (k <= j)%nat -> (lo ^ j <= lo ^ k)%Qc.
Proof using Hrnd.
  intros Hkj. replace j with (k + (j - k))%nat by lia. rewrite Qcpower_plus.
  destruct (lo_pow_bounds k) as [Hk0 _].
  destruct (lo_pow_bounds (j - k)) as [Hj0 Hj1].
  set (a := (lo ^ k)%Qc) in *. set (b := (lo ^ (j - k))%Qc) in *. clearbody a b.
  clear Hrnd. to_Q. nra.
Qed.

Lemma hi_pow_le (k j : nat) : (k <= j)%nat -> (hi ^ k <= hi ^ j)%Qc.
Proof using Hrnd.
  intros Hkj. replace j with (k + (j - k))%nat by lia. rewrite Qcpower_plus.
  pose proof (hi_pow_ge_1 k) as Hk. pose proof (hi_pow_ge_1 (j - k)) as Hj.
  set (a := (hi ^ k)%Qc) in *. set (b := (hi ^ (j - k))%Qc) in *. clearbody a b.
  clear Hrnd. to_Q. nra.
Qed.

Lemma within_refl (e : Qc) : within u 0 e e.
Proof. unfold within. cbn [Qcpower]. split; to_Q; lra. Qed.

Lemma within_zero (k : nat) : within u k 0 0.
Proof. unfold within. rewrite !Qcmult_0_r. split; apply Qcle_refl. Qed.

Lemma within_nonneg (k : nat) (x e : Qc) :
  (0 <= e)%Qc -> within u k x e -> (0 <= x)%Qc.
Proof using Hrnd.
  intros He [Hl _]. destruct (lo_pow_bounds k) as [H0 _].
  set (a := (lo ^ k)%Qc) in *. clearbody a. clear Hrnd. to_Q. nra.
Qed.

Lemma within_weaken (k j : nat) (x e : Qc) :
  (0 <= e)%Qc -> (k <= j)%nat -> within u k x e -> within u j x e.
Proof using Hrnd.
  intros He Hkj [Hl Hh].
  pose proof (lo_pow_le k j Hkj) as Hlo. pose proof (hi_pow_le k j Hkj) as Hhi.
  unfold within.
  set (a := (lo ^ k)%Qc) in *. set (a' := (lo ^ j)%Qc) in *.
  set (b := (hi ^ k)%Qc) in *. set (b' := (hi ^ j)%Qc) in *.
  clearbody a a' b b'. clear Hrnd. split; to_Q; nra.
Qed.

Lemma within_add (k : nat) (x y e f : Qc) :
  within u k x e -> within u k y f -> within u k (x + y) (e + f).
Proof.
  intros [Hxl Hxh] [Hyl Hyh]. unfold within.
  set (a := (lo ^ k)%Qc) in *. set (b := (hi ^ k)%Qc) in *. clearbody a b.
  split; to_Q; nra.
Qed.

Lemma within_scale (k : nat) (x e c : Qc) :
  (0 <= c)%Qc -> within u k x e -> within u k (x * c) (e * c).
Proof.
  intros Hc [Hl Hh]. unfold within.
  set (a := (lo ^ k)%Qc) in *. set (b := (hi ^ k)%Qc) in *. clearbody a b.
  split; to_Q; nra.
Qed.

Lemma within_div (k : nat) (x e p : Qc) :
  (0 < p)%Qc -> within u k x e -> within u k (x / p) (e / p).
Proof.
  intros Hp Hx. unfold Qcdiv. apply within_scale; [|done].
  apply Qclt_le_weak.
  destruct (Qclt_le_dec 0 (/ p)) as [Hpos|Hneg]; [done|]. exfalso.
  assert (Hone : (/ p * p = 1)%Qc).
  { rewrite Qcmult_comm. apply Qcmult_inv_r. intros ->. by apply (Qclt_not_le _ _ Hp). }
  set (q := (/ p)%Qc) in *. clearbody q.
  assert (H1 : (this q * this p == 1)%Q).
  { apply (f_equal this) in Hone. cbn [this Qcmult Q2Qc] in Hone.
    rewrite <- (Qred_correct (this q * this p)), Hone. reflexivity. }
  to_Q. nra.
Qed.

Lemma within_rnd (k : nat) (x e : Qc) :
  (0 <= e)%Qc -> within u k x e -> within u (S k) (rnd x) e.
Proof using Hrnd.
  intros He Hx. pose proof (within_nonneg k x e He Hx) as Hx0.
  destruct Hx as [Hl Hh]. destruct Hrnd as (H0 & H1 & Hr).
  destruct (Hr x Hx0) as [Hrl Hrh].
  destruct (lo_pow_bounds k) as [Hlo0 _]. pose proof (hi_pow_ge_1 k) as Hhi1.
  unfold within. cbn [Qcpower].
  set (a := (lo ^ k)%Qc) in *. set (b := (hi ^ k)%Qc) in *.
  set (r := rnd x) in *. clearbody a b r. clear Hr Hrnd.
  split; to_Q; nra.
Qed.

Lemma within_trans (k j : nat) (x y e : Qc) :
  (0 <= e)%Qc -> within u k x y -> within u j y e -> within u (k + j) x e.
Proof using Hrnd.
  intros He [Hxl Hxh] Hy. pose proof (within_nonneg j y e He Hy) as Hy0.
  destruct Hy as [Hyl Hyh].
  destruct (lo_pow_bounds k) as [Hk0 _]. destruct (lo_pow_bounds j) as [Hj0 _].
  pose proof (hi_pow_ge_1 k) as Hk1. pose proof (hi_pow_ge_1 j) as Hj1.
  unfold within. rewrite !Qcpower_plus.
  set (a := (lo ^ k)%Qc) in *. set (a' := (lo ^ j)%Qc) in *.
  set (b := (hi ^ k)%Qc) in *. set (b' := (hi ^ j)%Qc) in *.
  clearbody a a' b b'. clear Hrnd. split; to_Q; nra.
Qed.

Lemma within_mul (k j : nat) (x y e f : Qc) :
  (0 <= e)%Qc -> (0 <= f)%Qc -> within u k x e -> within u j y f ->
  within u (k + j) (x * y) (e * f).
Proof using Hrnd.
  intros He Hf [Hxl Hxh] [Hyl Hyh].
  destruct (lo_pow_bounds k) as [Hk0 _]. destruct (lo_pow_bounds j) as [Hj0 _].
  unfold within. rewrite !Qcpower_plus.
  set (a := (lo ^ k)%Qc) in *. set (a' := (lo ^ j)%Qc) in *.
  set (b := (hi ^ k)%Qc) in *. set (b' := (hi ^ j)%Qc) in *.
  clearbody a a' b b'. clear Hrnd.
  replace (a * a' * (e * f))%Qc with (a * e * (a' * f))%Qc by ring.
  replace (b * b' * (e * f))%Qc with (b * e * (b' * f))%Qc by ring.
  assert (Hae : (0 <= a * e)%Qc) by (to_Q; nra).
  assert (Haf : (0 <= a' * f)%Qc) by (to_Q; nra).
  set (X := (a * e)%Qc) in *. set (Y := (a' * f)%Qc) in *.
  set (X' := (b * e)%Qc) in *. set (Y' := (b' * f)%Qc) in *.
  clearbody X Y X' Y'. split; to_Q; nra.
Qed.

Lemma rnd_nonneg (x : Qc) : (0 <= x)%Qc -> (0 <= rnd x)%Qc.
Proof using Hrnd.
  intros Hx. apply (within_nonneg 1 (rnd x) x Hx).
  apply within_rnd; [done|]. apply within_refl.
Qed.

Lemma rnd_zero : rnd 0 = 0%Qc.
Proof using Hrnd.
  destruct Hrnd as (_ & _ & Hr). destruct (Hr 0%Qc) as [Hl Hh]; [done|].
  apply Qcle_antisym.
  - replace ((1 + u) * 0)%Qc with 0%Qc in Hh by ring. done.
  - replace ((1 - u) * 0)%Qc with 0%Qc in Hl by ring. done.
Qed.


(** *** The value of the holdings *)

Local Abbreviation A := (FloatEngine.rounded rnd).

Lemma entry_of_ok (d : list (string * Qc)) (t : string) (v : Qc) :
  FloatEngine.dict_get d t = ok v -> entry_of d t = v.
Proof. unfold entry_of. by intros ->. Qed.

Lemma entry_of_raise (d : list (string * Qc)) (t : string) (e : exn) :
  FloatEngine.dict_get d t = inl e -> entry_of d t = 0%Qc.
Proof. unfold entry_of. by intros ->. Qed.

Lemma entry_of_nonneg (d : list (string * Qc)) (t : string) :
  nonnegative_row d -> (0 <= entry_of d t)%Qc.
Proof.
  intros Hd. unfold entry_of.
  destruct (FloatEngine.dict_get d t) as [e|v] eqn:Hv; [done|].
  apply dict_get_ok_elem in Hv.
  unfold nonnegative_row in Hd. rewrite Forall_forall in Hd. exact (Hd _ Hv).
Qed.

Lemma exact_value_cons (P : list (string * Qc)) (t : string) (h : Qc)
    (H : list (string * Qc)) :
  exact_value P ((t, h) :: H) = (h * entry_of P t + exact_value P H)%Qc.
Proof. reflexivity. Qed.

Lemma quoted_of_row (P : list (string * Qc)) (ts : list string) :
  nonnegative_row P -> (forall t, t ∈ ts -> t ∈ P.*1) -> quoted ts P.
Proof.
  intros HP Hsub t Ht. destruct (dict_get_in P t (Hsub t Ht)) as [p Hp].
  exists p. split; [done|]. rewrite <- (entry_of_ok _ _ _ Hp).
  by apply entry_of_nonneg.
Qed.

Lemma quoted_of_priced (P : list (string * Qc)) (ts : list string) :
  priced ts P -> quoted ts P.
Proof.
  intros HP t Ht. destruct (HP t Ht) as (p & Hp & Hpos).
  exists p. split; [done|]. by apply Qclt_le_weak.
Qed.

Lemma quoted_cons (P : list (string * Qc)) (t : string) (ts : list string) :
  quoted (t :: ts) P ->
  (exists p, FloatEngine.dict_get P t = ok p /\ (0 <= p)%Qc) /\ quoted ts P.
Proof.
  intros HP. split; [apply HP; left|]. intros t' Ht'. apply HP. by right.
Qed.

Lemma exact_value_nonneg (P H : list (string * Qc)) :
  quoted H.*1 P -> nonnegative_row H -> (0 <= exact_value P H)%Qc.
Proof.
  induction H as [|[t h] H IH]; intros HP HH; [done|].
  apply Forall_cons in HH as [Hh HH]. rewrite fmap_cons in HP. cbn [fst] in HP.
  apply quoted_cons in HP as [(p & Hp & Hp0) HP]. rewrite exact_value_cons.
  apply Qc_nonneg_plus; [|by apply IH].
  apply Qc_nonneg_mult; [done|]. by rewrite (entry_of_ok _ _ _ Hp).
Qed.

(** The sum of [holdings[ticker] * prices[ticker]], rounded after every
    product and every addition, is the exact sum up to one rounding
    more than there are holdings. *)
Lemma market_value_from_within (P H : list (string * Qc)) :
  quoted H.*1 P -> nonnegative_row H ->
  forall (k : nat) (acc e : Qc),
    (1 <= k)%nat -> (0 <= e)%Qc -> within u k acc e ->
    exists m, FloatEngine.market_value_from A acc H P = ok m /\
              within u (k + length H) m (e + exact_value P H).
Proof using Hrnd.
  induction H as [|[t h] H IH]; intros HP HH k acc e Hk He Hacc.
  - exists acc. split; [done|]. cbn [length exact_value foldr].
    rewrite Nat.add_0_r, Qcplus_0_r. exact Hacc.
  - apply Forall_cons in HH as [Hh HH]. cbn [snd] in Hh.
    rewrite fmap_cons in HP. cbn [fst] in HP. apply quoted_cons in HP as [(p & Hp & Hp0) HP].
    cbn [FloatEngine.market_value_from]. rewrite Hp. cbn [bind ok].
    assert (Hhp : (0 <= h * p)%Qc) by (by apply Qc_nonneg_mult).
    destruct (IH HP HH (S k) (rnd (acc + rnd (h * p))) (e + h * p)%Qc)
      as (m & Hm & Hw).
    + lia.
    + by apply Qc_nonneg_plus.
    + apply within_rnd; [by apply Qc_nonneg_plus|].
      apply within_add; [done|].
      apply (within_weaken 1); [done|done|].
      apply within_rnd; [done|]. apply within_refl.
    + exists m. split; [exact Hm|].
      rewrite exact_value_cons, (entry_of_ok _ _ _ Hp).
      cbn [length]. replace (k + S (length H))%nat with (S k + length H)%nat by lia.
      replace (e + (h * p + exact_value P H))%Qc
        with (e + h * p + exact_value P H)%Qc by ring.
      exact Hw.
Qed.

Lemma market_value_within (P H : list (string * Qc)) :
  quoted H.*1 P -> nonnegative_row H ->
  exists m, FloatEngine.market_value A H P = ok m /\
            within u (length H + 1) m (exact_value P H).
Proof using Hrnd.
  intros HP HH.
  destruct (market_value_from_within P H HP HH 1 0%Qc 0%Qc) as (m & Hm & Hw);
    [lia|done|apply within_zero|].
  exists m. split; [exact Hm|].
  rewrite Qcplus_0_l in Hw. by rewrite Nat.add_comm.
Qed.

(** A market value that is computed has found a price for every
    holding. *)
Lemma market_value_from_ok (P H : list (string * Qc)) :
  forall (acc m : Qc),
    FloatEngine.market_value_from A acc H P = ok m ->
    forall t, t ∈ H.*1 -> t ∈ P.*1.
Proof.
  induction H as [|[t h] H IH]; intros acc m Hm t' Ht'.
  - by apply elem_of_nil in Ht'.
  - cbn [FloatEngine.market_value_from] in Hm.
    destruct (FloatEngine.dict_get P t) as [e|p] eqn:Hp; [done|].
    cbn [bind] in Hm. rewrite fmap_cons in Ht'. cbn [fst] in Ht'.
    apply elem_of_cons in Ht' as [->|Ht'].
    + by apply dict_get_ok_in in Hp.
    + by apply (IH _ _ Hm).
Qed.

(** *** The loop over the target weights *)

Lemma bought_fst (ws P : list (string * Qc)) (T : Qc) (e : string * Qc) :
  fst (bought rnd ws P T e) = fst e.
Proof.
  unfold bought. destruct (FloatEngine.dict_get ws _); [done|].
  destruct (FloatEngine.dict_get P _); [done|]. by destruct (bool_decide _).
Qed.

Lemma bought_keys (ws P : list (string * Qc)) (T : Qc) (H : list (string * Qc)) :
  (bought rnd ws P T <$> H).*1 = H.*1.
Proof.
  rewrite <- list_fmap_compose. apply list_fmap_ext. intros i e _. apply bought_fst.
Qed.

Lemma invest_bought (P : list (string * Qc)) (T : Qc) (ws : list (string * Qc)) :
  forall H : list (string * Qc),
    NoDup ws.*1 -> NoDup H.*1 ->
    (forall t, t ∈ ws.*1 -> t ∈ H.*1) ->
    (forall t, t ∈ ws.*1 -> t ∈ P.*1) ->
    FloatEngine.invest A ws P T H = ok (bought rnd ws P T <$> H).
Proof.
  induction ws as [|[k w] ws IH]; intros H Hnd HndH Hsub Hpr.
  - cbn [FloatEngine.invest]. f_equal. symmetry.
    rewrite <- (list_fmap_id H) at 2. apply list_fmap_ext. intros i e _. reflexivity.
  - rewrite fmap_cons in Hnd. cbn [fst] in Hnd. apply NoDup_cons in Hnd as [Hk Hnd].
    assert (HkH : k ∈ H.*1) by (apply Hsub; rewrite fmap_cons; left).
    destruct (dict_get_in P k) as [p Hp]; [apply Hpr; rewrite fmap_cons; left|].
    cbn [FloatEngine.invest]. rewrite Hp. cbn [bind ok].
    assert (Hrest : forall e : string * Qc,
              fst e <> k ->
              bought rnd ((k, w) :: ws) P T e = bought rnd ws P T e).
    { intros e Hne. unfold bought. cbn [FloatEngine.dict_get].
      destruct (String.eqb_spec k (fst e)) as [->|_]; done. }
    assert (Hkeep : forall h : Qc, bought rnd ws P T (k, h) = (k, h)).
    { intros h. unfold bought. cbn [fst].
      by rewrite (dict_get_not_in ws k Hk). }
    cbn [FloatEngine.positive FloatEngine.rounded].
    destruct (bool_decide (0 < p)%Qc) eqn:Hpos.
    + rewrite IH.
      * f_equal. rewrite dict_set_map by done. rewrite <- list_fmap_compose.
        apply list_fmap_ext. intros i e _. cbn [compose].
        destruct (String.eqb_spec (fst e) k) as [Heq|Hne].
        -- rewrite Heq, Hkeep. unfold bought. cbn [FloatEngine.dict_get].
           rewrite Heq, String.eqb_refl, Hp. unfold ok. cbv iota beta.
           rewrite Hpos. reflexivity.
        -- by rewrite Hrest.
      * done.
      * by rewrite dict_set_keys.
      * intros t Ht. rewrite dict_set_keys by done. apply Hsub.
        rewrite fmap_cons. by right.
      * intros t Ht. apply Hpr. rewrite fmap_cons. by right.
    + rewrite IH.
      * f_equal. apply list_fmap_ext. intros i e _.
        destruct (String.eqb_spec (fst e) k) as [Heq|Hne].
        -- destruct e as [t h]. cbn [fst] in Heq. subst t. rewrite Hkeep.
           unfold bought. cbn [FloatEngine.dict_get fst].
           rewrite String.eqb_refl, Hp. unfold ok. cbv iota beta.
           by rewrite Hpos.
        -- by rewrite Hrest.
      * done.
      * done.
      * intros t Ht. apply Hsub. rewrite fmap_cons. by right.
      * intros t Ht. apply Hpr. rewrite fmap_cons. by right.
Qed.

Lemma bought_nonneg (ws P : list (string * Qc)) (T : Qc) (e : string * Qc) :
  (0 <= T)%Qc -> nonnegative_row ws -> (0 <= snd e)%Qc ->
  (0 <= snd (bought rnd ws P T e))%Qc.
Proof using Hrnd.
  intros HT Hws He. unfold bought.
  destruct (FloatEngine.dict_get ws (fst e)) as [x|w] eqn:Hw; [done|].
  destruct (FloatEngine.dict_get P (fst e)) as [x|p] eqn:Hp; [done|].
  destruct (bool_decide (0 < p)%Qc) eqn:Hpos; [|done].
  apply bool_decide_eq_true in Hpos. cbn [snd].
  pose proof (entry_of_nonneg ws (fst e) Hws) as Hw0.
  rewrite (entry_of_ok _ _ _ Hw) in Hw0.
  apply rnd_nonneg, Qc_nonneg_div; [|done].
  apply rnd_nonneg. by apply Qc_nonneg_mult.
Qed.

Lemma bought_outside (ws P : list (string * Qc)) (T : Qc) (e : string * Qc) :
  FloatEngine.dict_get ws (fst e) = raise KeyError -> bought rnd ws P T e = e.
Proof. intros Hw. unfold bought. by rewrite Hw. Qed.

(** The units bought for a ticker are worth the amount to invest, up to
    the rounding of the product and of the quotient. *)
Lemma bought_worth (T w p : Qc) :
  (0 <= T)%Qc -> (0 <= w)%Qc -> (0 < p)%Qc ->
  within u 2 (rnd (rnd (T * w) / p) * p) (T * w).
Proof using Hrnd.
  intros HT Hw Hp.
  assert (HTw : (0 <= T * w)%Qc) by (by apply Qc_nonneg_mult).
  replace (T * w)%Qc with (T * w / p * p)%Qc at 2.
  2: { field. intros ->. by apply (Qclt_not_le _ _ Hp). }
  apply within_scale; [by apply Qclt_le_weak|].
  apply within_rnd; [by apply Qc_nonneg_div|].
  apply within_div; [done|].
  apply within_rnd; [done|]. apply within_refl.
Qed.

Lemma total_weight_on_cons (ws : list (string * Qc)) (t : string) (ts : list string) :
  total_weight_on ws (t :: ts) = (entry_of ws t + total_weight_on ws ts)%Qc.
Proof. reflexivity. Qed.

(** The value of the holdings after the loop over the weights, at
    positive prices: the total value that was deployed, times the
    weights of the tickers that are held. *)
Lemma bought_value (ws P : list (string * Qc)) (T : Qc) (H : list (string * Qc)) :
  (0 <= T)%Qc -> nonnegative_row ws -> priced H.*1 P ->
  Forall (fun e => FloatEngine.dict_get ws (fst e) = raise KeyError ->
                   snd e = 0%Qc) H ->
  within u 2 (exact_value P (bought rnd ws P T <$> H))
    (T * total_weight_on ws H.*1).
Proof using Hrnd.
  intros HT Hws. induction H as [|[t h] H IH]; intros Hpr Hout.
  - cbn. rewrite Qcmult_0_r. apply within_zero.
  - apply Forall_cons in Hout as [Ht Hout]. cbn [fst snd] in Ht.
    rewrite !fmap_cons. cbn [fst]. rewrite total_weight_on_cons.
    replace (T * (entry_of ws t + total_weight_on ws H.*1))%Qc
      with (T * entry_of ws t + T * total_weight_on ws H.*1)%Qc by ring.
    destruct (Hpr t) as (p & Hp & Hpos); [rewrite fmap_cons; left|].
    assert (Hhead : exists x : Qc,
              bought rnd ws P T (t, h) = (t, x) /\
              within u 2 (x * p) (T * entry_of ws t)).
    { unfold bought. cbn [fst].
      destruct (FloatEngine.dict_get ws t) as [x|w] eqn:Hw.
      - exists 0%Qc. split.
        + f_equal. apply Ht.
          rewrite <- Hw. apply dict_get_not_in. by apply dict_get_raise in Hw.
        + rewrite (entry_of_raise _ _ _ Hw), Qcmult_0_l, Qcmult_0_r.
          apply within_zero.
      - rewrite Hp. unfold ok. cbv iota beta.
        rewrite (bool_decide_eq_true_2 _ Hpos).
        eexists. split; [reflexivity|].
        rewrite (entry_of_ok _ _ _ Hw). apply bought_worth; [done| |done].
        pose proof (entry_of_nonneg ws t Hws) as Hw0.
        by rewrite (entry_of_ok _ _ _ Hw) in Hw0. }
    destruct Hhead as (x & -> & Hx).
    rewrite exact_value_cons, (entry_of_ok _ _ _ Hp).
    apply within_add; [exact Hx|]. apply IH; [|done].
    intros t' Ht'. apply Hpr. rewrite fmap_cons. by right.
Qed.

Lemma sum_weights_cons (k : string) (w : Qc) (ws : list (string * Qc)) :
  sum_weights ((k, w) :: ws) = (w + sum_weights ws)%Qc.
Proof. reflexivity. Qed.

Lemma entry_of_cons_ne (k t : string) (w : Qc) (ws : list (string * Qc)) :
  k <> t -> entry_of ((k, w) :: ws) t = entry_of ws t.
Proof.
  intros Hne. unfold entry_of. cbn [FloatEngine.dict_get].
  by destruct (String.eqb_spec k t).
Qed.

Lemma entry_of_cons_eq (k : string) (w : Qc) (ws : list (string * Qc)) :
  entry_of ((k, w) :: ws) k = w.
Proof. unfold entry_of. cbn [FloatEngine.dict_get]. by rewrite String.eqb_refl. Qed.

Lemma total_weight_on_absent (k : string) (w : Qc) (ws : list (string * Qc))
    (ts : list string) :
  k ∉ ts -> total_weight_on ((k, w) :: ws) ts = total_weight_on ws ts.
Proof.
  induction ts as [|t ts IH]; intros Hk; [done|].
  apply not_elem_of_cons in Hk as [Hne Hk].
  rewrite !total_weight_on_cons, entry_of_cons_ne, IH; done.
Qed.

Lemma total_weight_on_present (k : string) (w : Qc) (ws : list (string * Qc))
    (ts : list string) :
  NoDup ts -> k ∈ ts -> k ∉ ws.*1 ->
  total_weight_on ((k, w) :: ws) ts = (w + total_weight_on ws ts)%Qc.
Proof.
  intros Hnd Hk Hfresh. induction ts as [|t ts IH]; [by apply elem_of_nil in Hk|].
  apply NoDup_cons in Hnd as [Ht Hnd]. rewrite !total_weight_on_cons.
  destruct (decide (k = t)) as [<-|Hne].
  - rewrite entry_of_cons_eq, total_weight_on_absent by done.
    unfold entry_of at 1. rewrite (dict_get_not_in ws k Hfresh). cbn. ring.
  - rewrite entry_of_cons_ne by done. rewrite IH; [ring|done|].
    apply elem_of_cons in Hk as [->|Hk]; done.
Qed.

(** The weights of the tickers that are held add up to the sum of the
    weights, when every ticker of the weights is held. *)
Lemma total_weight_on_sum (ws : list (string * Qc)) (ts : list string) :
  NoDup ts -> NoDup ws.*1 -> (forall t, t ∈ ws.*1 -> t ∈ ts) ->
  total_weight_on ws ts = sum_weights ws.
Proof.
  intros Hts. induction ws as [|[k w] ws IH]; intros Hnd Hsub.
  - clear. induction ts as [|t ts IH]; [done|].
    rewrite total_weight_on_cons, IH. unfold entry_of. cbn. ring.
  - rewrite fmap_cons in Hnd. cbn [fst] in Hnd. apply NoDup_cons in Hnd as [Hk Hnd].
    rewrite total_weight_on_present, sum_weights_cons, IH; try done.
    + intros t Ht. apply Hsub. rewrite fmap_cons. by right.
    + apply Hsub. rewrite fmap_cons. left.
Qed.

(** *** A deployment *)

Section Run.

Context (cols : list string) (ws : list (string * Qc)).
Context (Hcols : NoDup cols) (Hws : weights_over cols ws).

Lemma total_portfolio_value_eq (H P : list (string * Qc)) (c m : Qc) :
  FloatEngine.market_value A H P = ok m ->
  FloatEngine.total_portfolio_value A H c P = ok (rnd (m + c)).
Proof. intros Hm. unfold FloatEngine.total_portfolio_value. by rewrite Hm. Qed.

Lemma total_portfolio_value_ok (H P : list (string * Qc)) (c v : Qc) :
  FloatEngine.total_portfolio_value A H c P = ok v ->
  forall t, t ∈ H.*1 -> t ∈ P.*1.
Proof.
  unfold FloatEngine.total_portfolio_value, FloatEngine.market_value.
  destruct (FloatEngine.market_value_from A _ H P) as [e|m] eqn:Hm; [done|].
  intros _. by apply (market_value_from_ok _ _ _ _ Hm).
Qed.

(** The block under line 51 on holdings that are not negative, at prices
    that are not negative: the total value is the exact one up to two
    roundings more than there are holdings, and the new holdings are
    those of [bought]. *)
Lemma deploy_cash_bought (H P : list (string * Qc)) (c : Qc) :
  H.*1 = cols -> nonnegative_row H -> quoted cols P -> (0 <= c)%Qc ->
  exists m : Qc,
    FloatEngine.market_value A H P = ok m /\
    within u (length cols + 1) m (exact_value P H) /\
    (0 <= m)%Qc /\
    FloatEngine.deploy_cash A ws H c P
    = ok (bought rnd ws P (rnd (m + c)) <$> H, 0%Qc).
Proof using Hrnd Hcols Hws.
  intros Hkeys HH HP Hc. rewrite <- Hkeys in HP.
  destruct (market_value_within P H HP HH) as (m & Hm & Hw).
  assert (Hlen : length H = length cols) by (by rewrite <- Hkeys, length_fmap).
  rewrite Hlen in Hw.
  exists m. split; [done|]. split; [done|].
  split; [by apply (within_nonneg _ _ _ (exact_value_nonneg P H HP HH) Hw)|].
  unfold FloatEngine.deploy_cash. rewrite Hm. cbn [bind ok].
  rewrite invest_bought; [done|apply Hws|by rewrite Hkeys| |].
  - intros t Ht. rewrite Hkeys. by apply (weights_columns _ _ Hws).
  - intros t Ht. destruct (HP t) as (p & Hp & _).
    + rewrite Hkeys. by apply (weights_columns _ _ Hws).
    + by apply dict_get_ok_in in Hp.
Qed.

(** *** Soundness of the states *)

Lemma topup_on_rounded_nonneg (annual_increase : Qc) (s : FloatEngine.state Qc)
    (d : Timestamp) :
  (0 <= annual_increase)%Qc -> (0 <= FloatEngine.current_monthly_topup s)%Qc ->
  (0 <= FloatEngine.topup_on A annual_increase s d)%Qc.
Proof using Hrnd.
  intros Hai Ht. unfold FloatEngine.topup_on.
  destruct (FloatEngine.last_year s) as [ly|]; [|done].
  destruct (ly <? year d); [|done].
  cbn [FloatEngine.mul FloatEngine.add FloatEngine.div FloatEngine.one
         FloatEngine.hundred FloatEngine.rounded].
  apply rnd_nonneg, Qc_nonneg_mult; [done|].
  apply rnd_nonneg, Qc_nonneg_plus; [done|].
  apply rnd_nonneg, Qc_nonneg_div; done.
Qed.

Lemma cash_on_nonneg (annual_increase : Qc) (s : FloatEngine.state Qc)
    (d : Timestamp) :
  (0 <= annual_increase)%Qc -> (0 <= FloatEngine.current_monthly_topup s)%Qc ->
  (0 <= FloatEngine.cash s)%Qc ->
  (0 <= FloatEngine.cash_on A annual_increase s d)%Qc.
Proof using Hrnd.
  intros Hai Ht Hc. unfold FloatEngine.cash_on.
  destruct (FloatEngine.last_month s) as [lm|]; [|done].
  destruct (negb (month d =? lm)); [|done].
  cbn [FloatEngine.add FloatEngine.rounded].
  apply rnd_nonneg, Qc_nonneg_plus; [done|]. by apply topup_on_rounded_nonneg.
Qed.

Lemma bought_sound (P H : list (string * Qc)) (T : Qc) :
  (0 <= T)%Qc -> H.*1 = cols -> nonnegative_row H ->
  Forall (fun e => FloatEngine.dict_get ws (fst e) = raise KeyError ->
                   snd e = 0%Qc) H ->
  (bought rnd ws P T <$> H).*1 = cols /\
  nonnegative_row (bought rnd ws P T <$> H) /\
  Forall (fun e => FloatEngine.dict_get ws (fst e) = raise KeyError ->
                   snd e = 0%Qc) (bought rnd ws P T <$> H).
Proof using Hrnd Hws.
  intros HT Hkeys HH Hout. split; [by rewrite bought_keys|]. split.
  - unfold nonnegative_row. rewrite Forall_fmap. eapply Forall_impl; [exact HH|].
    intros e He. cbn [compose]. apply bought_nonneg; [done| |done].
    apply (weights_nonneg _ _ Hws).
  - rewrite Forall_fmap. eapply Forall_impl; [exact Hout|].
    intros e He. cbn [compose]. rewrite bought_fst. intros Hk.
    rewrite bought_outside by done. by apply He.
Qed.

(** An iteration that ends at prices that are not negative keeps the
    state sound. *)
Lemma step_sound_quoted (annual_increase : Qc) (s s' : FloatEngine.state Qc)
    (d : Timestamp) (P : list (string * Qc)) :
  (0 <= annual_increase)%Qc -> quoted cols P -> sound cols ws s ->
  FloatEngine.step A annual_increase s (d, P) = ok s' ->
  sound cols ws s'.
Proof using Hrnd Hcols Hws.
  intros Hai HQ Hs Hstep. destruct Hs as [Hk Hw Hh Ho Hc Ht].
  rewrite step_eq in Hstep.
  pose proof (cash_on_nonneg annual_increase s d Hai Ht Hc) as Hc1.
  pose proof (topup_on_rounded_nonneg annual_increase s d Hai Ht) as Ht1.
  destruct (FloatEngine.deployment_day s d).
  - destruct (FloatEngine.deploy_cash A _ _ _ P) as [e|hc] eqn:Hhc; [done|].
    cbn [bind] in Hstep.
    destruct (FloatEngine.total_portfolio_value A _ _ P) as [e|v]; [done|].
    cbn [bind] in Hstep. injection Hstep as <-.
    rewrite Hw in Hhc.
    destruct (deploy_cash_bought (FloatEngine.holdings s) P
                (FloatEngine.cash_on A annual_increase s d) Hk Hh HQ Hc1)
      as (m & _ & _ & Hm0 & Hd).
    rewrite Hd in Hhc. injection Hhc as <-.
    destruct (bought_sound P (FloatEngine.holdings s)
                (rnd (m + FloatEngine.cash_on A annual_increase s d)))
      as (Hk' & Hh' & Ho'); [|done|done|done|].
    { by apply rnd_nonneg, Qc_nonneg_plus. }
    split; cbn [FloatEngine.holdings FloatEngine.cash FloatEngine.the_portfolio
                  FloatEngine.current_monthly_topup fst snd]; try done.
    by rewrite should_rebalance_weights.
  - cbn [bind ok fst snd] in Hstep.
    destruct (FloatEngine.total_portfolio_value A _ _ P) as [e|v]; [done|].
    cbn [bind] in Hstep. injection Hstep as <-.
    split; cbn [FloatEngine.holdings FloatEngine.cash FloatEngine.the_portfolio
                  FloatEngine.current_monthly_topup fst snd]; try done.
    by rewrite should_rebalance_weights.
Qed.

(** An iteration that ends has found a price for every column. *)
Lemma step_ok_columns (annual_increase : Qc) (s s' : FloatEngine.state Qc)
    (d : Timestamp) (P : list (string * Qc)) :
  (FloatEngine.holdings s).*1 = cols ->
  FloatEngine.step A annual_increase s (d, P) = ok s' ->
  forall t, t ∈ cols -> t ∈ P.*1.
Proof.
  intros Hk Hstep. rewrite step_eq in Hstep. rewrite <- Hk.
  destruct (FloatEngine.deployment_day s d).
  - destruct (FloatEngine.deploy_cash A _ _ _ P) as [e|hc] eqn:Hhc; [done|].
    unfold FloatEngine.deploy_cash, FloatEngine.market_value in Hhc.
    destruct (FloatEngine.market_value_from A _ _ P) as [e|m] eqn:Hm; [done|].
    exact (market_value_from_ok _ _ _ _ Hm).
  - cbn [bind ok fst snd] in Hstep.
    destruct (FloatEngine.total_portfolio_value A _ _ P) as [e|v] eqn:Hv; [done|].
    by apply (total_portfolio_value_ok _ _ _ _ Hv).
Qed.

Lemma step_sound (annual_increase : Qc) (s s' : FloatEngine.state Qc)
    (d : Timestamp) (P : list (string * Qc)) :
  (0 <= annual_increase)%Qc -> nonnegative_row P -> sound cols ws s ->
  FloatEngine.step A annual_increase s (d, P) = ok s' ->
  sound cols ws s'.
Proof using Hrnd Hcols Hws.
  intros Hai HP Hs Hstep.
  apply (step_sound_quoted annual_increase s s' d P); try done.
  apply quoted_of_row; [done|].
  by apply (step_ok_columns annual_increase s s' d P (sound_keys _ _ _ Hs)).
Qed.

Lemma loop_sound (annual_increase : Qc)
    (rows : list (Timestamp * list (string * Qc))) :
  (0 <= annual_increase)%Qc ->
  Forall (fun row => nonnegative_row (snd row)) rows ->
  forall s s' : FloatEngine.state Qc,
    sound cols ws s ->
    FloatEngine.loop A annual_increase s rows = ok s' ->
    sound cols ws s'.
Proof using Hrnd Hcols Hws.
  intros Hai. induction rows as [|[d P] rows IH]; intros Hrows s s' Hs Hl.
  - by injection Hl as <-.
  - apply Forall_cons in Hrows as [HP Hrows]. cbn [snd] in HP.
    cbn [FloatEngine.loop] in Hl.
    destruct (FloatEngine.step A annual_increase s (d, P)) as [e|s1] eqn:Hs1; [done|].
    cbn [bind] in Hl. apply (IH Hrows s1 s'); [|done].
    by apply (step_sound annual_increase s s1 d P).
Qed.

Lemma initial_sound (data : FloatEngine.DataFrame Qc)
    (initial_investment monthly_topup : Qc) (freq : option string)
    (stored : option Timestamp) :
  FloatEngine.columns data = cols ->
  (0 <= initial_investment)%Qc -> (0 <= monthly_topup)%Qc ->
  sound cols ws
    (FloatEngine.initial_state A data (FloatEngine.mkPortfolio ws freq stored)
       initial_investment monthly_topup).
Proof using Hcols.
  intros Hdata Hi Ht. unfold FloatEngine.initial_state. rewrite Hdata.
  rewrite initial_holdings_distinct by done.
  split; cbn [FloatEngine.holdings FloatEngine.cash FloatEngine.the_portfolio
                FloatEngine.current_monthly_topup FloatEngine.target_weights];
    try done.
  - rewrite <- list_fmap_compose. rewrite <- (list_fmap_id cols) at 2.
    apply list_fmap_ext. by intros i t _.
  - unfold nonnegative_row. rewrite Forall_fmap. apply Forall_forall. by intros t _.
  - rewrite Forall_fmap. apply Forall_forall. by intros t _ _.
Qed.

Lemma sum_weights_nonneg : (0 <= sum_weights ws)%Qc.
Proof using Hws.
  pose proof (weights_nonneg _ _ Hws) as Hn. clear Hws Hcols.
  induction ws as [|[k w] l IH]; [done|].
  apply Forall_cons in Hn as [Hw Hn]. rewrite sum_weights_cons.
  apply Qc_nonneg_plus; [done|]. by apply IH.
Qed.

(** A deployment at positive prices.  The total value that the code
    computes after it is the one it computed before it, times the sum
    of the weights, up to four roundings more than there are
    holdings. *)
Lemma deployment_within (annual_increase : Qc) (s : FloatEngine.state Qc)
    (d : Timestamp) (P : list (string * Qc)) :
  (0 <= annual_increase)%Qc -> sound cols ws s -> priced cols P ->
  FloatEngine.deployment_day s d = true ->
  exists (before after : Qc) (s' : FloatEngine.state Qc),
    FloatEngine.total_portfolio_value A (FloatEngine.holdings s)
      (FloatEngine.cash_on A annual_increase s d) P = ok before /\
    FloatEngine.step A annual_increase s (d, P) = ok s' /\
    FloatEngine.cash s' = 0%Qc /\
    FloatEngine.portfolio_history s'
    = FloatEngine.portfolio_history s ++ [(d, after)] /\
    FloatEngine.total_portfolio_value A (FloatEngine.holdings s')
      (FloatEngine.cash s') P = ok after /\
    (0 <= before)%Qc /\
    within u (length cols + 2) before
      (exact_value P (FloatEngine.holdings s)
       + FloatEngine.cash_on A annual_increase s d) /\
    within u 2 (exact_value P (FloatEngine.holdings s')) (before * sum_weights ws) /\
    within u (length cols + 4) after (before * sum_weights ws).
Proof using Hrnd Hcols Hws.
  intros Hai Hs HP Hday. pose proof Hs as [Hk Hw Hh Ho Hc Ht].
  pose proof (cash_on_nonneg annual_increase s d Hai Ht Hc) as Hc1.
  pose proof (quoted_of_priced _ _ HP) as HQ.
  destruct (deploy_cash_bought (FloatEngine.holdings s) P
              (FloatEngine.cash_on A annual_increase s d) Hk Hh HQ Hc1)
    as (m & Hm & Hmw & Hm0 & Hd).
  set (c1 := FloatEngine.cash_on A annual_increase s d) in *.
  set (T := rnd (m + c1)) in *.
  assert (HT : (0 <= T)%Qc) by (by apply rnd_nonneg, Qc_nonneg_plus).
  set (H' := bought rnd ws P T <$> FloatEngine.holdings s) in *.
  destruct (bought_sound P (FloatEngine.holdings s) T HT Hk Hh Ho)
    as (Hk' & Hh' & Ho'). fold H' in Hk', Hh', Ho'.
  assert (HQ' : quoted H'.*1 P) by (by rewrite Hk').
  destruct (market_value_within P H' HQ' Hh') as (m' & Hm' & Hmw').
  assert (Hlen : length H' = length cols) by (by rewrite <- Hk', length_fmap).
  rewrite Hlen in Hmw'.
  assert (Hval : within u 2 (exact_value P H') (T * sum_weights ws)).
  { rewrite <- (total_weight_on_sum ws (FloatEngine.holdings s).*1).
    - apply bought_value; [done|apply Hws|by rewrite Hk|done].
    - by rewrite Hk.
    - apply Hws.
    - intros t Ht'. rewrite Hk. by apply (weights_columns _ _ Hws). }
  assert (HTS : (0 <= T * sum_weights ws)%Qc).
  { apply Qc_nonneg_mult; [done|]. apply sum_weights_nonneg. }
  exists T, (rnd (m' + 0)), (FloatEngine.mkState H' 0%Qc
                 (FloatEngine.topup_on A annual_increase s d)
                 (FloatEngine.portfolio_history s ++ [(d, rnd (m' + 0))])
                 (Some (month d)) (Some (year d))
                 (snd (FloatEngine.should_rebalance (FloatEngine.the_portfolio s) d))).
  cbn [FloatEngine.holdings FloatEngine.cash FloatEngine.portfolio_history].
  split; [by apply total_portfolio_value_eq|].
  split.
  { rewrite step_eq, Hday, Hw. fold c1. rewrite Hd. cbn [bind ok fst snd].
    by rewrite (total_portfolio_value_eq H' P 0 m' Hm'). }
  split; [done|]. split; [done|].
  split; [by apply total_portfolio_value_eq|].
  split; [done|]. split.
  { replace (length cols + 2)%nat with (S (length cols + 1)) by lia.
    apply within_rnd.
    - apply Qc_nonneg_plus; [|done]. apply exact_value_nonneg; [by rewrite Hk|done].
    - apply within_add; [done|].
      apply (within_weaken 0); [done|lia|apply within_refl]. }
  split; [done|].
  replace (length cols + 4)%nat with (S ((length cols + 1) + 2)) by lia.
  apply within_rnd; [done|].
  rewrite Qcplus_0_r.
  by apply (within_trans _ _ _ (exact_value P H')).
Qed.

(** *** The worth of the states of a run *)

(** An iteration at positive prices with weights that sum to 1: it
    ends, its state is worth what the holdings and the cash of the day
    were worth, up to four roundings more than there are holdings, and
    the value it records is the worth of its state, up to two roundings
    more than there are holdings. *)
Lemma step_worth (annual_increase : Qc) (s : FloatEngine.state Qc)
    (d : Timestamp) (P : list (string * Qc)) :
  (0 <= annual_increase)%Qc -> sound cols ws s -> priced cols P ->
  sum_weights ws = 1%Qc ->
  exists (s' : FloatEngine.state Qc) (v : Qc),
    FloatEngine.step A annual_increase s (d, P) = ok s' /\
    sound cols ws s' /\
    FloatEngine.portfolio_history s' = FloatEngine.portfolio_history s ++ [(d, v)] /\
    FloatEngine.last_month s' = Some (month d) /\
    FloatEngine.current_monthly_topup s' = FloatEngine.topup_on A annual_increase s d /\
    within u (length cols + 4) (worth P s')
      (exact_value P (FloatEngine.holdings s)
       + FloatEngine.cash_on A annual_increase s d) /\
    within u (length cols + 2) v (worth P s').
Proof using Hrnd Hcols Hws.
  intros Hai Hs HP Hsum. pose proof Hs as [Hk Hw Hh Ho Hc Ht].
  pose proof (cash_on_nonneg annual_increase s d Hai Ht Hc) as Hc1.
  pose proof (quoted_of_priced _ _ HP) as HQ.
  assert (Hev : (0 <= exact_value P (FloatEngine.holdings s))%Qc).
  { apply exact_value_nonneg; [by rewrite Hk|done]. }
  destruct (FloatEngine.deployment_day s d) eqn:Hday.
  - destruct (deployment_within annual_increase s d P Hai Hs HP Hday)
      as (before & after & s' & Hb & Hstep & Hcash & Hhist & Ha & Hb0 & Hbw & Hval & Haw).
    rewrite Hsum, Qcmult_1_r in Hval, Haw.
    exists s', after. split; [done|].
    assert (Hs' : sound cols ws s')
      by (by apply (step_sound_quoted annual_increase s s' d P)).
    split; [done|]. split; [done|].
    assert (Hrec : FloatEngine.last_month s' = Some (month d) /\
                   FloatEngine.current_monthly_topup s'
                   = FloatEngine.topup_on A annual_increase s d).
    { rewrite step_eq in Hstep.
      destruct (if FloatEngine.deployment_day s d then _ else _) as [e|hc]; [done|].
      cbn [bind] in Hstep.
      destruct (FloatEngine.total_portfolio_value A (fst hc) _ P) as [e|v]; [done|].
      cbn [bind] in Hstep. by injection Hstep as <-. }
    destruct Hrec as [Hlm Htop]. split; [done|]. split; [done|].
    assert (Hworth : worth P s' = exact_value P (FloatEngine.holdings s')).
    { unfold worth. rewrite Hcash. ring. }
    split.
    + rewrite Hworth.
      replace (length cols + 4)%nat with (2 + (length cols + 2))%nat by lia.
      apply (within_trans _ _ _ before); [|done|done].
      by apply Qc_nonneg_plus.
    + rewrite Hworth. clear Haw.
      destruct Hs' as [Hk' _ Hh' _ _ _].
      destruct (market_value_within P (FloatEngine.holdings s')) as (m' & Hm' & Hmw');
        [by rewrite Hk'|done|].
      rewrite (total_portfolio_value_eq _ _ _ _ Hm'), Hcash in Ha.
      injection Ha as <-.
      assert (Hlen : length (FloatEngine.holdings s') = length cols)
        by (by rewrite <- Hk', length_fmap).
      rewrite Hlen in Hmw'.
      replace (length cols + 2)%nat with (S (length cols + 1)) by lia.
      apply within_rnd; [apply exact_value_nonneg; [by rewrite Hk'|done]|].
      by rewrite Qcplus_0_r.
  - destruct (market_value_within P (FloatEngine.holdings s)) as (m & Hm & Hmw);
      [by rewrite Hk|done|].
    assert (Hlen : length (FloatEngine.holdings s) = length cols)
      by (by rewrite <- Hk, length_fmap).
    rewrite Hlen in Hmw.
    set (c1 := FloatEngine.cash_on A annual_increase s d) in *.
    exists (FloatEngine.mkState (FloatEngine.holdings s) c1
              (FloatEngine.topup_on A annual_increase s d)
              (FloatEngine.portfolio_history s ++ [(d, rnd (m + c1))])
              (Some (month d)) (Some (year d))
              (snd (FloatEngine.should_rebalance (FloatEngine.the_portfolio s) d))),
      (rnd (m + c1)).
    cbn [FloatEngine.holdings FloatEngine.cash FloatEngine.portfolio_history
           FloatEngine.last_month FloatEngine.current_monthly_topup].
    split.
    { rewrite step_eq, Hday. fold c1. cbn [bind ok fst snd].
      by rewrite (total_portfolio_value_eq _ P c1 m Hm). }
    split.
    { split; cbn [FloatEngine.holdings FloatEngine.cash FloatEngine.the_portfolio
                    FloatEngine.current_monthly_topup]; try done.
      - by rewrite should_rebalance_weights.
      - by apply topup_on_rounded_nonneg. }
    split; [done|]. split; [done|]. split; [done|].
    unfold worth. cbn [FloatEngine.holdings FloatEngine.cash].
    split.
    + apply (within_weaken 0); [by apply Qc_nonneg_plus|lia|apply within_refl].
    + replace (length cols + 2)%nat with (S (length cols + 1)) by lia.
      apply within_rnd; [by apply Qc_nonneg_plus|].
      apply within_add; [done|].
      apply (within_weaken 0); [done|lia|apply within_refl].
Qed.

(** *** Constant prices and an annual increase of zero *)

(** The top-up keeps its amount, up to the two roundings of a change of
    year. *)
Lemma topup_on_zero_within (s : FloatEngine.state Qc) (d : Timestamp)
    (first_topup : Qc) (b : nat) :
  (0 <= first_topup)%Qc ->
  within u b (FloatEngine.current_monthly_topup s) first_topup ->
  within u (b + 2) (FloatEngine.topup_on A 0%Qc s d) first_topup.
Proof using Hrnd.
  intros Ht Hw. unfold FloatEngine.topup_on.
  assert (Hsame : within u (b + 2) (FloatEngine.current_monthly_topup s) first_topup)
    by (apply (within_weaken b); [done|lia|done]).
  destruct (FloatEngine.last_year s) as [ly|]; [|done].
  destruct (ly <? year d); [|done].
  cbn [FloatEngine.mul FloatEngine.add FloatEngine.div FloatEngine.one
         FloatEngine.hundred FloatEngine.rounded].
  replace (0 / Q2Qc 100)%Qc with 0%Qc by (apply Qc_is_canon; reflexivity).
  rewrite rnd_zero, Qcplus_0_r.
  replace (b + 2)%nat with (S (b + 1)) by lia.
  apply within_rnd; [done|].
  assert (H1 : within u 1 (rnd 1) 1)
    by (apply within_rnd; [done|apply within_refl]).
  pose proof (within_mul b 1 _ _ first_topup 1%Qc Ht ltac:(done) Hw H1) as Hm.
  by rewrite Qcmult_1_r in Hm.
Qed.

Section Constant.

Context (P : list (string * Qc)) (first_topup : Qc).
Context (HP : priced cols P) (Hsum : sum_weights ws = 1%Qc).
Context (Htopup : (0 <= first_topup)%Qc).

Local Abbreviation n := (length cols).

(** The top-up that the iteration of a date adds to the cash. *)
Local Abbreviation added s d :=
  (match FloatEngine.last_month s with
   | Some lm => if negb (month d =? lm) then first_topup else 0%Qc
   | None => 0%Qc
   end).

Lemma cash_on_within (s : FloatEngine.state Qc) (d : Timestamp) (i : nat) (E : Qc) :
  sound cols ws s -> (0 <= E)%Qc ->
  within u ((n + 7) * i) (worth P s) E ->
  within u (2 * i) (FloatEngine.current_monthly_topup s) first_topup ->
  within u ((n + 7) * i + 3)
    (exact_value P (FloatEngine.holdings s) + FloatEngine.cash_on A 0%Qc s d)
    (E + added s d).
Proof using Hrnd Hcols Hws HP Htopup.
  intros Hs HE Hw Ht. pose proof Hs as [Hk _ Hh _ Hc Ht0].
  assert (Hev : (0 <= exact_value P (FloatEngine.holdings s))%Qc).
  { apply exact_value_nonneg; [|done]. rewrite Hk. by apply quoted_of_priced. }
  assert (Hsame : within u ((n + 7) * i + 3) (worth P s) (E + 0)).
  { rewrite Qcplus_0_r. apply (within_weaken ((n + 7) * i)); [done|lia|done]. }
  unfold FloatEngine.cash_on.
  destruct (FloatEngine.last_month s) as [lm|]; [|done].
  destruct (negb (month d =? lm)); [|done].
  cbn [FloatEngine.add FloatEngine.rounded].
  pose proof (topup_on_zero_within s d first_topup (2 * i) Htopup Ht) as Ht'.
  set (t' := FloatEngine.topup_on A 0%Qc s d) in *.
  assert (Ht'0 : (0 <= t')%Qc) by (by apply topup_on_rounded_nonneg).
  replace ((n + 7) * i + 3)%nat with (1 + ((n + 7) * i + 2))%nat by lia.
  apply (within_trans _ _ _ (worth P s + t')%Qc).
  - by apply Qc_nonneg_plus.
  - unfold worth.
    replace (exact_value P (FloatEngine.holdings s) + FloatEngine.cash s + t')%Qc
      with (exact_value P (FloatEngine.holdings s) + (FloatEngine.cash s + t'))%Qc
      by ring.
    apply within_add.
    + apply (within_weaken 0); [done|lia|apply within_refl].
    + apply within_rnd; [by apply Qc_nonneg_plus|apply within_refl].
  - apply within_add.
    + apply (within_weaken ((n + 7) * i)); [done|lia|done].
    + apply (within_weaken (2 * i + 2)); [done|lia|done].
Qed.

Lemma added_nonneg (s : FloatEngine.state Qc) (d : Timestamp) : (0 <= added s d)%Qc.
Proof using Htopup.
  destruct (FloatEngine.last_month s) as [lm|]; [|done].
  by destruct (negb (month d =? lm)).
Qed.

(** An iteration of the run. *)
Lemma step_tracks (s : FloatEngine.state Qc) (d : Timestamp) (i : nat) (E : Qc) :
  sound cols ws s -> (0 <= E)%Qc ->
  within u ((n + 7) * i) (worth P s) E ->
  within u (2 * i) (FloatEngine.current_monthly_topup s) first_topup ->
  exists s' : FloatEngine.state Qc,
    FloatEngine.step A 0%Qc s (d, P) = ok s' /\
    sound cols ws s' /\
    FloatEngine.last_month s' = Some (month d) /\
    tracks u n P first_topup (S i) (E + added s d) s'.
Proof using Hrnd Hcols Hws HP Hsum Htopup.
  intros Hs HE Hw Ht.
  destruct (step_worth 0%Qc s d P) as (s' & v & Hstep & Hs' & Hhist & Hlm & Htop & Hw' & Hv);
    [done|done|done|done|].
  pose proof (cash_on_within s d i E Hs HE Hw Ht) as Hc.
  pose proof (added_nonneg s d) as Ha.
  assert (HE' : (0 <= E + added s d)%Qc) by (by apply Qc_nonneg_plus).
  assert (Hworth : within u ((n + 7) * S i) (worth P s') (E + added s d)).
  { replace ((n + 7) * S i)%nat with ((n + 4) + ((n + 7) * i + 3))%nat by lia.
    by apply (within_trans _ _ _ _ _ HE' Hw'). }
  exists s'. split; [done|]. split; [done|]. split; [done|].
  split; [done|]. split.
  { rewrite Htop. replace (2 * S i)%nat with (2 * i + 2)%nat by lia.
    by apply topup_on_zero_within. }
  split; [lia|].
  exists d, v. split; [by rewrite Hhist, last_snoc|].
  replace ((n + 7) * S i + n + 2)%nat with ((n + 2) + (n + 7) * S i)%nat by lia.
  by apply (within_trans _ _ _ _ _ HE' Hv).
Qed.

(** The rows of a run after the first one. *)
Lemma loop_tracks (rows : list (Timestamp * list (string * Qc))) :
  Forall (fun row => snd row = P) rows ->
  forall (s : FloatEngine.state Qc) (d_prev : Timestamp) (i : nat) (E : Qc),
    sound cols ws s -> (0 <= E)%Qc ->
    FloatEngine.last_month s = Some (month d_prev) ->
    tracks u n P first_topup i E s ->
    exists s' : FloatEngine.state Qc,
      FloatEngine.loop A 0%Qc s rows = ok s' /\
      tracks u n P first_topup (i + length rows)
        (E + first_topup
             * Forecasting.Qc_of_nat (Engine.month_changes (d_prev :: rows.*1))) s'.
Proof using Hrnd Hcols Hws HP Hsum Htopup.
  induction rows as [|[d prices] rows IH]; intros Hrows s d_prev i E Hs HE Hlm Htr.
  - exists s. split; [done|]. cbn [length fmap list_fmap Engine.month_changes].
    rewrite Nat.add_0_r. change (Forecasting.Qc_of_nat 0) with 0%Qc.
    by rewrite Qcmult_0_r, Qcplus_0_r.
  - apply Forall_cons in Hrows as [Hd Hrows]. cbn [snd] in Hd. subst prices.
    destruct Htr as (Hw & Ht & Hi & _).
    destruct (step_tracks s d i E Hs HE Hw Ht) as (s1 & Hstep & Hs1 & Hlm1 & Htr1).
    rewrite Hlm in Htr1.
    assert (HE1 : (0 <= E + (if negb (month d =? month d_prev)
                             then first_topup else 0))%Qc).
    { apply Qc_nonneg_plus; [done|]. by destruct (negb _). }
    destruct (IH Hrows s1 d (S i) _ Hs1 HE1 Hlm1 Htr1) as (s' & Hl & Htr').
    exists s'. split.
    { cbn [FloatEngine.loop]. rewrite Hstep. exact Hl. }
    cbn [length]. replace (i + S (length rows))%nat with (S i + length rows)%nat by lia.
    rewrite fmap_cons. cbn [fst].
    change (Engine.month_changes (d_prev :: d :: rows.*1))
      with ((if (month d =? month d_prev)%Z then 0 else 1)
            + Engine.month_changes (d :: rows.*1))%nat.
    replace (E + first_topup
                 * Forecasting.Qc_of_nat
                     ((if (month d =? month d_prev)%Z then 0 else 1)
                      + Engine.month_changes (d :: rows.*1))%nat)%Qc
      with (E + (if negb (month d =? month d_prev) then first_topup else 0)
            + first_topup * Forecasting.Qc_of_nat (Engine.month_changes (d :: rows.*1)))%Qc;
      [exact Htr'|].
    destruct (month d =? month d_prev); cbn [negb].
    + rewrite Nat.add_0_l. ring.
    + change (1 + ?k)%nat with (S k). rewrite Qc_of_nat_S. ring.
Qed.

End Constant.

End Run.

End RoundedArithmetic.

(** C3, in floating point.  Take an arithmetic that rounds every result
    with a relative error of at most [u], a run with no negative
    investment, top-up, annual increase, weight or price, and a state
    that the run has reached.  On a deployment day on which every
    column has a strictly positive price, with target weights that sum
    to 1, the iteration ends and leaves no cash, and the total value
    that the code computes after the deployment (line 66) is the total
    value that it computed before it (line 55) up to the roundings in
    between, four more than there are columns. *)
Theorem rebalance_value_within
    (u : Qc) (rnd : Qc -> Qc) (data : FloatEngine.DataFrame Qc)
    (pf : FloatEngine.portfolio Qc)
    (initial_investment monthly_topup annual_increase : Qc)
    (rows_before : list (Timestamp * list (string * Qc)))
    (s : FloatEngine.state Qc) (d : Timestamp) (prices : list (string * Qc)) :
  rounds_within u rnd ->
  NoDup (FloatEngine.columns data) ->
  weights_over (FloatEngine.columns data) (FloatEngine.target_weights pf) ->
  (0 <= initial_investment)%Qc -> (0 <= monthly_topup)%Qc ->
  (0 <= annual_increase)%Qc ->
  Forall (fun row => nonnegative_row (snd row)) rows_before ->
  FloatEngine.loop (FloatEngine.rounded rnd) annual_increase
    (FloatEngine.initial_state (FloatEngine.rounded rnd) data pf
       initial_investment monthly_topup) rows_before = ok s ->
  priced (FloatEngine.columns data) prices ->
  sum_weights (FloatEngine.target_weights pf) = 1%Qc ->
  FloatEngine.deployment_day s d = true ->
  exists (before after : Qc) (s' : FloatEngine.state Qc),
    FloatEngine.total_portfolio_value (FloatEngine.rounded rnd)
      (FloatEngine.holdings s)
      (FloatEngine.cash_on (FloatEngine.rounded rnd) annual_increase s d) prices
    = ok before /\
    FloatEngine.step (FloatEngine.rounded rnd) annual_increase s (d, prices) = ok s' /\
    FloatEngine.cash s' = 0%Qc /\
    FloatEngine.total_portfolio_value (FloatEngine.rounded rnd)
      (FloatEngine.holdings s') (FloatEngine.cash s') prices = ok after /\
    snd <$> last (FloatEngine.portfolio_history s') = Some after /\
    within u (length (FloatEngine.columns data) + 4) after before.
Proof.
  intros Hrnd Hcols Hws Hi Ht Hai Hrows Hloop HP Hsum Hday.
  assert (Hs0 : sound (FloatEngine.columns data) (FloatEngine.target_weights pf)
                  (FloatEngine.initial_state (FloatEngine.rounded rnd) data pf
                     initial_investment monthly_topup)).
  { destruct pf as [ws freq stored].
    by apply (initial_sound rnd). }
  pose proof (loop_sound u rnd Hrnd _ _ Hcols Hws annual_increase rows_before
                Hai Hrows _ _ Hs0 Hloop) as Hs.
  destruct (deployment_within u rnd Hrnd _ _ Hcols Hws annual_increase s d prices
              Hai Hs HP Hday)
    as (before & after & s' & Hb & Hstep & Hcash & Hhist & Ha & _ & _ & _ & Hw).
  rewrite Hsum, Qcmult_1_r in Hw.
  exists before, after, s'.
  split; [done|]. split; [done|]. split; [done|]. split; [done|].
  split; [|done]. by rewrite Hhist, last_snoc.
Qed.

(** C8, in floating point.  Take an arithmetic that rounds every result
    with a relative error of at most [u].  For a table of [r] rows and
    [n] columns with constant, strictly positive prices, in which the
    month number changes three times between consecutive rows, target
    weights that are not negative and sum to 1, an initial investment
    that is not negative, a monthly top-up of 100 and an annual increase
    of 0, the run returns, and the final total value, the last line of
    the series, is the initial investment plus 300 up to (n + 7)(r + 1)
    roundings. *)
Theorem three_topups_within
    (u : Qc) (rnd : Qc -> Qc) (data : FloatEngine.DataFrame Qc)
    (pf : FloatEngine.portfolio Qc) (initial_investment : Qc)
    (P : list (string * Qc)) :
  rounds_within u rnd ->
  NoDup (FloatEngine.columns data) ->
  weights_over (FloatEngine.columns data) (FloatEngine.target_weights pf) ->
  sum_weights (FloatEngine.target_weights pf) = 1%Qc ->
  (0 <= initial_investment)%Qc ->
  FloatEngine.iterrows data <> [] ->
  Forall (fun row => snd row = P) (FloatEngine.iterrows data) ->
  priced (FloatEngine.columns data) P ->
  Engine.month_changes (fst <$> FloatEngine.iterrows data) = 3%nat ->
  exists (series : list (Timestamp * Qc)) (holdings : list (string * Qc))
         (cash : Qc) (d : Timestamp) (v : Qc),
    FloatEngine.run_backtest (FloatEngine.rounded rnd) data pf
      initial_investment (Q2Qc 100) 0%Qc = ok (series, holdings, cash) /\
    last series = Some (d, v) /\
    within u ((length (FloatEngine.columns data) + 7)
              * (length (FloatEngine.iterrows data) + 1))
      v (initial_investment + Q2Qc 300).
Proof.
  intros Hrnd Hcols Hws Hsum Hi Hne Hrows HP Hchanges.
  set (cols := FloatEngine.columns data) in *.
  set (ws := FloatEngine.target_weights pf) in *.
  set (s0 := FloatEngine.initial_state (FloatEngine.rounded rnd) data pf
               initial_investment (Q2Qc 100)).
  assert (H100 : (0 <= Q2Qc 100)%Qc) by done.
  assert (Hs0 : sound cols ws s0).
  { unfold s0, ws. destruct pf as [ws' freq stored].
    by apply (initial_sound rnd). }
  assert (Hworth0 : worth P s0 = initial_investment).
  { unfold worth, s0, FloatEngine.initial_state.
    cbn [FloatEngine.holdings FloatEngine.cash].
    fold cols. rewrite initial_holdings_distinct by done.
    assert (Hz : forall l : list string,
              exact_value P ((fun ticker => (ticker, 0%Qc)) <$> l) = 0%Qc).
    { induction l as [|t l IH]; [done|].
      rewrite fmap_cons, exact_value_cons, IH. ring. }
    cbn [FloatEngine.zero FloatEngine.rounded]. rewrite Hz. ring. }
  destruct (FloatEngine.iterrows data) as [|[d0 P0] rest] eqn:Hdata; [done|].
  apply Forall_cons in Hrows as [HP0 Hrest]. cbn [snd] in HP0. subst P0.
  destruct (step_tracks u rnd Hrnd cols ws Hcols Hws P (Q2Qc 100) HP Hsum H100
              s0 d0 0 initial_investment Hs0 Hi)
    as (s1 & Hstep & Hs1 & Hlm1 & Htr1).
  { rewrite Hworth0, Nat.mul_0_r. apply within_refl. }
  { apply within_refl. }
  change (FloatEngine.last_month s0) with (@None Z) in Htr1.
  rewrite Qcplus_0_r in Htr1.
  destruct (loop_tracks u rnd Hrnd cols ws Hcols Hws P (Q2Qc 100) HP Hsum H100
              rest Hrest s1 d0 1 initial_investment Hs1 Hi Hlm1 Htr1)
    as (s' & Hl & Htr').
  rewrite fmap_cons in Hchanges. cbn [fst] in Hchanges. rewrite Hchanges in Htr'.
  replace (Q2Qc 100 * Forecasting.Qc_of_nat 3)%Qc with (Q2Qc 300) in Htr'
    by (apply Qc_is_canon; reflexivity).
  destruct Htr' as (_ & _ & _ & d & v & Hlast & Hv).
  exists (FloatEngine.portfolio_history s'), (FloatEngine.holdings s'),
    (FloatEngine.cash s'), d, v.
  split; [|split; [done|]].
  - unfold FloatEngine.run_backtest. fold s0. rewrite Hdata.
    cbn [FloatEngine.loop]. rewrite Hstep. cbn [bind ok]. rewrite Hl. cbn [bind ok].
    destruct (FloatEngine.portfolio_history s'); [done|done].
  - cbn [length]. fold cols.
    apply (within_weaken u rnd Hrnd ((length cols + 7) * (1 + length rest)
                                     + length cols + 2));
      [by apply Qc_nonneg_plus|lia|done].
Qed.


(** ** The rounding of binary64 *)

Lemma ilog2_le (x : Q) : (0 < x)%Q -> (2 ^ ilog2 x <= x)%Q.
Proof.
  intros Hx. unfold ilog2.
  set (la := Z.log2 (Qnum x)). set (lb := Z.log2 (Z.pos (Qden x))).
  destruct (Qle_bool (2 ^ (la - lb)) x) eqn:Hb; [by apply Qle_bool_iff|].
  clear Hb.
  assert (Hn : (0 < Qnum x)%Z).
  { destruct x as [n d]. unfold Qlt in Hx. simpl in *. lia. }
  destruct (Z.log2_spec (Qnum x) Hn) as [Hla _]. fold la in Hla.
  destruct (Z.log2_spec (Z.pos (Qden x)) ltac:(lia)) as [_ Hlb]. fold lb in Hlb.
  assert (Hla0 : (0 <= la)%Z) by apply Z.log2_nonneg.
  assert (Hlb0 : (0 <= lb)%Z) by apply Z.log2_nonneg.
  replace (la - lb - 1)%Z with (la + - (Z.succ lb))%Z by lia.
  rewrite Qpower_plus by done. rewrite Qpower_opp.
  rewrite <- !(Zpower_Qpower 2) by lia.
  set (A := (2 ^ la)%Z) in *. set (B := (2 ^ Z.succ lb)%Z) in *.
  assert (HB : (0 < B)%Z) by lia.
  destruct x as [n d]. simpl in *.
  unfold Qle, Qmult, Qinv. simpl.
  destruct B as [|B|B]; try lia. simpl. nia.
Qed.

Lemma round_significand_within (x : Q) :
  (0 < x)%Q ->
  ((1 - (1 # 9007199254740992)) * x <= round_significand x)%Q /\
  (round_significand x <= (1 + (1 # 9007199254740992)) * x)%Q.
Proof.
  intros Hx. unfold round_significand.
  pose proof (ilog2_le x Hx) as He. set (e := ilog2 x) in *.
  set (S := (2 ^ (52 - e))%Q).
  assert (HS : (0 < S)%Q) by (by apply Qpower_0_lt).
  assert (Hy : (4503599627370496 # 1 <= x * S)%Q).
  { assert (H52 : ((4503599627370496 # 1) == 2 ^ e * S)%Q).
    { unfold S. rewrite <- Qpower_plus by done.
      replace (e + (52 - e))%Z with 52%Z by lia. reflexivity. }
    rewrite H52. apply Qmult_le_compat_r; [done|]. by apply Qlt_le_weak. }
  pose proof (round_half_even_near (Q2Qc (x * S))) as [Hlo Hhi].
  cbn [this Q2Qc] in Hlo, Hhi. rewrite Qred_correct in Hlo, Hhi.
  set (r := inject_Z (round_half_even (Q2Qc (x * S)))) in *. clearbody r.
  set (y := (x * S)%Q) in *.
  split.
  - apply Qle_shift_div_l; [done|].
    assert (Hr : ((1 - (1 # 9007199254740992)) * x * S
                  == (1 - (1 # 9007199254740992)) * y)%Q) by (unfold y; ring).
    rewrite Hr. clearbody y. lra.
  - apply Qle_shift_div_r; [done|].
    assert (Hr : ((1 + (1 # 9007199254740992)) * x * S
                  == (1 + (1 # 9007199254740992)) * y)%Q) by (unfold y; ring).
    rewrite Hr. clearbody y. lra.
Qed.

(** The rounding of binary64 has a relative error of at most 2^-53. *)
Lemma round_binary64_rounds : rounds_within unit_roundoff round_binary64.
Proof.
  split; [done|]. split; [done|]. intros x Hx.
  unfold round_binary64. destruct x as [[n d] Hc]. cbn [this Qnum].
  destruct n as [|n|n].
  - assert (H0 : {| this := 0 # d; canon := Hc |} = 0%Qc).
    { apply Qc_is_canon. reflexivity. }
    rewrite H0. split; by rewrite Qcmult_0_r.
  - destruct (round_significand_within (Z.pos n # d)) as [Hlo Hhi]; [done|].
    unfold unit_roundoff, Qcle, Qcminus, Qcplus, Qcmult, Qcopp.
    cbn [this Q2Qc]. rewrite !Qred_correct. split; [exact Hlo|exact Hhi].
  - exfalso. unfold Qcle, Qle in Hx. simpl in Hx. lia.
Qed.

(** ** The engine on binary64 numbers *)

Section Binary64Runs.

Import PrimFloat.

Local Open Scope float_scope.

(** Two deployments in binary64, each with one asset of weight 1.0 at a
    strictly positive price, where C3 promises the value before the
    deployment.

    The first is the deployment of the first day, of 1000 at the price
    0.11: the total value is 1000.0 before it and 999.9999999999999,
    the binary64 number below 1000, after it.

    The second is the rebalance of the fourth month of a run from 1000
    with a monthly top-up of 100 at the constant price 0.3: the total
    value is 1300.0 before it and 1300.0000000000002, the binary64
    number above 1300, after it. *)
Lemma rebalance_binary64_counterexample :
  (ltb 0 (11 / 100) = true /\
   FloatEngine.deployment_day
     (FloatEngine.initial_state Binary64.arithmetic Binary64.one_day_011
        Binary64.monthly_one_asset 1000 0) jan15 = true /\
   FloatEngine.total_portfolio_value Binary64.arithmetic
     (FloatEngine.initial_holdings Binary64.arithmetic ["AAPL"%string]) 1000
     Binary64.price_011 = ok 1000%float /\
   exists s' : FloatEngine.state float,
     FloatEngine.step Binary64.arithmetic 0
       (FloatEngine.initial_state Binary64.arithmetic Binary64.one_day_011
          Binary64.monthly_one_asset 1000 0) (jan15, Binary64.price_011) = ok s' /\
     FloatEngine.total_portfolio_value Binary64.arithmetic
       (FloatEngine.holdings s') (FloatEngine.cash s') Binary64.price_011
     = ok (next_down 1000) /\
     ltb (next_down 1000) 1000 = true) /\
  (ltb 0 (3 / 10) = true /\
   FloatEngine.loop Binary64.arithmetic 0
     (FloatEngine.initial_state Binary64.arithmetic Binary64.four_months_03
        Binary64.monthly_one_asset 1000 100)
     (take 3 (FloatEngine.iterrows Binary64.four_months_03))
   = ok Binary64.state_after_march /\
   FloatEngine.deployment_day Binary64.state_after_march apr02 = true /\
   FloatEngine.total_portfolio_value Binary64.arithmetic
     (FloatEngine.holdings Binary64.state_after_march)
     (FloatEngine.cash_on Binary64.arithmetic 0 Binary64.state_after_march apr02)
     Binary64.price_03 = ok 1300%float /\
   exists s' : FloatEngine.state float,
     FloatEngine.step Binary64.arithmetic 0 Binary64.state_after_march
       (apr02, Binary64.price_03) = ok s' /\
     FloatEngine.total_portfolio_value Binary64.arithmetic
       (FloatEngine.holdings s') (FloatEngine.cash s') Binary64.price_03
     = ok (next_up 1300) /\
     ltb 1300 (next_up 1300) = true).
Proof.
  split.
  - split; [vm_compute; reflexivity|]. split; [vm_compute; reflexivity|].
    split; [vm_compute; reflexivity|].
    eexists. split; [vm_compute; reflexivity|].
    split; vm_compute; reflexivity.
  - split; [vm_compute; reflexivity|]. split; [vm_compute; reflexivity|].
    split; [vm_compute; reflexivity|]. split; [vm_compute; reflexivity|].
    eexists. split; [vm_compute; reflexivity|].
    split; vm_compute; reflexivity.
Qed.

(** The run of C8 in binary64: four rows in four consecutive months at
    the constant price 0.3, one asset of weight 1.0, from 1000 with a
    monthly top-up of 100 and no annual increase.  The series ends at
    1300.0000000000002, the binary64 number above 1300. *)
Example four_months_binary64 :
  FloatEngine.run_backtest Binary64.arithmetic Binary64.four_months_03
    Binary64.monthly_one_asset 1000 100 0
  = ok ([(jan15, 1000%float); (feb03, 1100%float); (mar01, 1200%float);
         (apr02, next_up 1300)],
        [("AAPL"%string, (next_up 1300 / (3 / 10))%float)], 0%float).
Proof. vm_compute. reflexivity. Qed.

End Binary64Runs.

(** The same run on rationals that are rounded as binary64 numbers are
    gives the same numbers: 1300.0000000000002 is 1300 + 2^-42. *)
Example four_months_rounded :
  (fun line => this (snd line))
  <$> (match FloatEngine.run_backtest Rounded64.arithmetic Rounded64.four_months_03
               Rounded64.monthly_one_asset (Q2Qc 1000) (Q2Qc 100) 0%Qc with
       | inr (series, _, _) => series
       | inl _ => []
       end)
  = [1000 # 1; 1100 # 1; 1200 # 1; 5717460464435201 # 4398046511104]%Q /\
  (5717460464435201 # 4398046511104 == 1300 + (1 # 4398046511104))%Q.
Proof. split; [vm_compute; reflexivity|reflexivity]. Qed.

Lemma priced_one (t : string) (p : Qc) :
  (0 < p)%Qc -> priced [t] [(t, p)].
Proof.
  intros Hp t' Ht'. apply list_elem_of_singleton in Ht' as ->.
  exists p. split; [|done]. cbn [FloatEngine.dict_get]. by rewrite String.eqb_refl.
Qed.

Lemma weights_over_one (t : string) (w : Qc) :
  (0 <= w)%Qc -> weights_over [t] [(t, w)].
Proof.
  intros Hw. split.
  - apply NoDup_singleton.
  - by intros t' Ht'.
  - by constructor.
Qed.

Lemma rebalance_value_within_witness :
  exists (before after : Qc) (s' : FloatEngine.state Qc),
    FloatEngine.total_portfolio_value (FloatEngine.rounded round_binary64)
      (FloatEngine.holdings Rounded64.state_after_march)
      (FloatEngine.cash_on (FloatEngine.rounded round_binary64) 0%Qc
         Rounded64.state_after_march apr02) Rounded64.price_03
    = ok before /\
    FloatEngine.step (FloatEngine.rounded round_binary64) 0%Qc
      Rounded64.state_after_march (apr02, Rounded64.price_03) = ok s' /\
    FloatEngine.cash s' = 0%Qc /\
    FloatEngine.total_portfolio_value (FloatEngine.rounded round_binary64)
      (FloatEngine.holdings s') (FloatEngine.cash s') Rounded64.price_03 = ok after /\
    snd <$> last (FloatEngine.portfolio_history s') = Some after /\
    within unit_roundoff 5 after before.
Proof.
  apply (rebalance_value_within unit_roundoff round_binary64 Rounded64.four_months_03
           Rounded64.monthly_one_asset (Q2Qc 1000) (Q2Qc 100) 0%Qc
           (take 3 (FloatEngine.iterrows Rounded64.four_months_03))
           Rounded64.state_after_march apr02 Rounded64.price_03).
  - exact round_binary64_rounds.
  - apply NoDup_singleton.
  - by apply weights_over_one.
  - done.
  - done.
  - done.
  - repeat constructor; vm_compute; discriminate.
  - vm_compute. reflexivity.
  - apply priced_one. vm_compute. reflexivity.
  - apply Qc_is_canon. reflexivity.
  - vm_compute. reflexivity.
Defined.

Lemma three_topups_within_witness :
  exists (series : list (Timestamp * Qc)) (holdings : list (string * Qc))
         (cash : Qc) (d : Timestamp) (v : Qc),
    FloatEngine.run_backtest (FloatEngine.rounded round_binary64)
      Rounded64.four_months_03 Rounded64.monthly_one_asset
      (Q2Qc 1000) (Q2Qc 100) 0%Qc = ok (series, holdings, cash) /\
    last series = Some (d, v) /\
    within unit_roundoff 40 v (Q2Qc 1000 + Q2Qc 300).
Proof.
  apply (three_topups_within unit_roundoff round_binary64 Rounded64.four_months_03
           Rounded64.monthly_one_asset (Q2Qc 1000) Rounded64.price_03).
  - exact round_binary64_rounds.
  - apply NoDup_singleton.
  - by apply weights_over_one.
  - apply Qc_is_canon. reflexivity.
  - done.
  - discriminate.
  - repeat constructor.
  - apply priced_one. vm_compute. reflexivity.
  - reflexivity.
Defined.

